(** * The git-annex external special remote of rclone: protocol engine

    A shallow embedding of [cmd/gitannex/gitannex.go]: the line tokenizer
    ([messageParser]), the config negotiation ([queryConfigs]), the command
    handlers and the command loop ([run]), followed by the properties of the
    specification that were checked against them.

    Go strings are [string] (a list of bytes), Go's [error] is
    [option goerror] with [None] for [nil], a [*messageParser] is passed
    and returned explicitly, the [server] is threaded through a state
    monad whose computations can also panic. *)

From Stdlib Require Import String Ascii List Bool Arith Lia.
Import ListNotations.
Local Open Scope list_scope.
Local Open Scope string_scope.

(** ** Bytes and strings of the Go standard library *)

Definition LF : ascii := "010"%char.
Definition CR : ascii := "013"%char.

(** The cutset of [strings.TrimRight(m.line, "\r\n")]. *)
Definition crlf : string := String CR (String LF EmptyString).
(** The one-byte string a message ends with. *)
Definition newline : string := String LF EmptyString.

Fixpoint inCutset (c : ascii) (cutset : string) : bool :=
  match cutset with
  | EmptyString => false
  | String d rest => if Ascii.eqb c d then true else inCutset c rest
  end.

(** [strings.TrimRight]: drops every trailing byte that is in [cutset]. *)
Fixpoint TrimRight (s cutset : string) : string :=
  match s with
  | EmptyString => EmptyString
  | String c rest =>
      match TrimRight rest cutset with
      | EmptyString => if inCutset c cutset then EmptyString
                       else String c EmptyString
      | String _ _ as t => String c t
      end
  end.

(** [len(s) == 0]. *)
Definition isEmpty (s : string) : bool :=
  match s with EmptyString => true | String _ _ => false end.

(** The text after [p] when [s] starts with [p]. *)
Fixpoint afterPrefix (p s : string) : option string :=
  match p, s with
  | EmptyString, _ => Some s
  | String a p', String b s' => if Ascii.eqb a b then afterPrefix p' s' else None
  | String _ _, EmptyString => None
  end.

(** [strings.Cut]: the text before and after the first [sep], and whether
    [sep] was found; [(s, "", false)] when it was not. *)
Fixpoint Cut (s sep : string) : string * string * bool :=
  match afterPrefix sep s with
  | Some after => (EmptyString, after, true)
  | None =>
      match s with
      | EmptyString => (EmptyString, EmptyString, false)
      | String c rest =>
          match Cut rest sep with
          | (before, after, true) => (String c before, after, true)
          | (_, _, false) => (s, EmptyString, false)
          end
      end
  end.

(** [strings.HasPrefix]. *)
Definition HasPrefix (s p : string) : bool :=
  match afterPrefix p s with Some _ => true | None => false end.

(** [strings.TrimPrefix]. *)
Definition TrimPrefix (s p : string) : string :=
  match afterPrefix p s with Some rest => rest | None => s end.

(** [strings.TrimSuffix]. *)
Fixpoint TrimSuffix (s suffix : string) : string :=
  if String.eqb s suffix then EmptyString
  else match s with
       | EmptyString => EmptyString
       | String c rest => String c (TrimSuffix rest suffix)
       end.

(** [strings.Join]. *)
Fixpoint Join (elems : list string) (sep : string) : string :=
  match elems with
  | [] => ""
  | [x] => x
  | x :: rest => x ++ sep ++ Join rest sep
  end.

(** [slices.Contains]. *)
Definition Contains (l : list string) (x : string) : bool :=
  existsb (String.eqb x) l.

(** No byte of [s] is in [set]; every byte of [s] is in [set]. *)
Fixpoint noneOf (set s : string) : bool :=
  match s with
  | EmptyString => true
  | String c rest => negb (inCutset c set) && noneOf set rest
  end.

Fixpoint allOf (set s : string) : bool :=
  match s with
  | EmptyString => true
  | String c rest => inCutset c set && allOf set rest
  end.

(** A word of a protocol line: not empty, without space, carriage return
    or line feed. *)
Definition isWord (w : string) : bool :=
  negb (isEmpty w) && noneOf " " w && noneOf crlf w.

(** ** Errors

    [errors.New] and [fmt.Errorf] without [%w] build an [errorString];
    [fmt.Errorf] with [%w] builds a [wrapError] that remembers the wrapped
    error. [fs.ErrorObjectNotFound] and [io.EOF] are sentinels, compared by
    identity. *)

Inductive goerror : Type :=
| ErrorObjectNotFound
| EOF
| errorString (msg : string)
| wrapError (msg : string) (err : goerror).

Definition error : Type := option goerror.

(** [err.Error()]. *)
Definition Error (e : goerror) : string :=
  match e with
  | ErrorObjectNotFound => "object not found"
  | EOF => "EOF"
  | errorString msg => msg
  | wrapError msg _ => msg
  end.

(** [err == fs.ErrorObjectNotFound]. *)
Definition isErrorObjectNotFound (err : error) : bool :=
  match err with
  | Some ErrorObjectNotFound => true
  | _ => false
  end.

(** [errors.Is(err, fs.ErrorObjectNotFound)]: follows the chain of wrapped
    errors. *)
Fixpoint unwrapsToObjectNotFound (e : goerror) : bool :=
  match e with
  | ErrorObjectNotFound => true
  | wrapError _ inner => unwrapsToObjectNotFound inner
  | _ => false
  end.

Definition errorsIsObjectNotFound (err : error) : bool :=
  match err with
  | Some e => unwrapsToObjectNotFound e
  | None => false
  end.

(** [err != nil]. *)
Definition notNil (err : error) : bool :=
  match err with Some _ => true | None => false end.

(** A nil [*messageParser] that is dereferenced. *)
Definition nilDereference : goerror :=
  errorString "runtime error: invalid memory address or nil pointer dereference".

(** ** The two streams

    [s.writer] and [os.Stderr] are [io.Writer]s: the chunks written so far,
    in order, and the error every write fails with once the stream is
    broken. [s.reader] is a [bufio.Reader]: the bytes that can still be
    read, and the error a read meets after them ([io.EOF] when the
    controller closed the stream). *)

Record Writer : Type := { chunks : list string; werr : error }.

Definition WriteString (w : Writer) (s : string) : Writer * error :=
  match werr w with
  | Some e => (w, Some e)
  | None => ({| chunks := (chunks w ++ [s])%list; werr := None |}, None)
  end.

Record Reader : Type := { rbuf : string; rerr : goerror }.

(** The bytes of [s] through the first [delim], and the bytes after it. *)
Fixpoint throughDelim (delim : ascii) (s : string) : option (string * string) :=
  match s with
  | EmptyString => None
  | String c rest =>
      if Ascii.eqb c delim then Some (String c EmptyString, rest)
      else match throughDelim delim rest with
           | Some (l, r) => Some (String c l, r)
           | None => None
           end
  end.

(** [bufio.Reader.ReadString]: the data through the delimiter; when the
    stream fails before a delimiter, the data read before the error and
    the error itself. *)
Definition ReadString (delim : ascii) (r : Reader) : (string * error) * Reader :=
  match throughDelim delim (rbuf r) with
  | Some (l, rest) => ((l, None), {| rbuf := rest; rerr := rerr r |})
  | None => ((rbuf r, Some (rerr r)), {| rbuf := ""; rerr := rerr r |})
  end.

(** ** The session *)

Record messageParser : Type := { line : string }.

Record server : Type := {
  reader : Reader;
  writer : Writer;
  verbose : bool;
  extensionInfo : bool;
  extensionAsync : bool;
  extensionGetGitRemoteName : bool;
  extensionUnavailableResponse : bool;
  configsDone : bool;
  configPrefix : string;
  configRcloneRemoteName : string;
  configRcloneLayout : string
}.

Definition set_reader (r : Reader) (s : server) : server :=
  {| reader := r; writer := writer s; verbose := verbose s;
     extensionInfo := extensionInfo s; extensionAsync := extensionAsync s;
     extensionGetGitRemoteName := extensionGetGitRemoteName s;
     extensionUnavailableResponse := extensionUnavailableResponse s;
     configsDone := configsDone s; configPrefix := configPrefix s;
     configRcloneRemoteName := configRcloneRemoteName s;
     configRcloneLayout := configRcloneLayout s |}.

Definition set_writer (w : Writer) (s : server) : server :=
  {| reader := reader s; writer := w; verbose := verbose s;
     extensionInfo := extensionInfo s; extensionAsync := extensionAsync s;
     extensionGetGitRemoteName := extensionGetGitRemoteName s;
     extensionUnavailableResponse := extensionUnavailableResponse s;
     configsDone := configsDone s; configPrefix := configPrefix s;
     configRcloneRemoteName := configRcloneRemoteName s;
     configRcloneLayout := configRcloneLayout s |}.

Definition set_extensionInfo (b : bool) (s : server) : server :=
  {| reader := reader s; writer := writer s; verbose := verbose s;
     extensionInfo := b; extensionAsync := extensionAsync s;
     extensionGetGitRemoteName := extensionGetGitRemoteName s;
     extensionUnavailableResponse := extensionUnavailableResponse s;
     configsDone := configsDone s; configPrefix := configPrefix s;
     configRcloneRemoteName := configRcloneRemoteName s;
     configRcloneLayout := configRcloneLayout s |}.

Definition set_extensionAsync (b : bool) (s : server) : server :=
  {| reader := reader s; writer := writer s; verbose := verbose s;
     extensionInfo := extensionInfo s; extensionAsync := b;
     extensionGetGitRemoteName := extensionGetGitRemoteName s;
     extensionUnavailableResponse := extensionUnavailableResponse s;
     configsDone := configsDone s; configPrefix := configPrefix s;
     configRcloneRemoteName := configRcloneRemoteName s;
     configRcloneLayout := configRcloneLayout s |}.

Definition set_extensionGetGitRemoteName (b : bool) (s : server) : server :=
  {| reader := reader s; writer := writer s; verbose := verbose s;
     extensionInfo := extensionInfo s; extensionAsync := extensionAsync s;
     extensionGetGitRemoteName := b;
     extensionUnavailableResponse := extensionUnavailableResponse s;
     configsDone := configsDone s; configPrefix := configPrefix s;
     configRcloneRemoteName := configRcloneRemoteName s;
     configRcloneLayout := configRcloneLayout s |}.

Definition set_extensionUnavailableResponse (b : bool) (s : server) : server :=
  {| reader := reader s; writer := writer s; verbose := verbose s;
     extensionInfo := extensionInfo s; extensionAsync := extensionAsync s;
     extensionGetGitRemoteName := extensionGetGitRemoteName s;
     extensionUnavailableResponse := b;
     configsDone := configsDone s; configPrefix := configPrefix s;
     configRcloneRemoteName := configRcloneRemoteName s;
     configRcloneLayout := configRcloneLayout s |}.

Definition set_configsDone (b : bool) (s : server) : server :=
  {| reader := reader s; writer := writer s; verbose := verbose s;
     extensionInfo := extensionInfo s; extensionAsync := extensionAsync s;
     extensionGetGitRemoteName := extensionGetGitRemoteName s;
     extensionUnavailableResponse := extensionUnavailableResponse s;
     configsDone := b; configPrefix := configPrefix s;
     configRcloneRemoteName := configRcloneRemoteName s;
     configRcloneLayout := configRcloneLayout s |}.

Definition set_configPrefix (v : string) (s : server) : server :=
  {| reader := reader s; writer := writer s; verbose := verbose s;
     extensionInfo := extensionInfo s; extensionAsync := extensionAsync s;
     extensionGetGitRemoteName := extensionGetGitRemoteName s;
     extensionUnavailableResponse := extensionUnavailableResponse s;
     configsDone := configsDone s; configPrefix := v;
     configRcloneRemoteName := configRcloneRemoteName s;
     configRcloneLayout := configRcloneLayout s |}.

Definition set_configRcloneRemoteName (v : string) (s : server) : server :=
  {| reader := reader s; writer := writer s; verbose := verbose s;
     extensionInfo := extensionInfo s; extensionAsync := extensionAsync s;
     extensionGetGitRemoteName := extensionGetGitRemoteName s;
     extensionUnavailableResponse := extensionUnavailableResponse s;
     configsDone := configsDone s; configPrefix := configPrefix s;
     configRcloneRemoteName := v;
     configRcloneLayout := configRcloneLayout s |}.

Definition set_configRcloneLayout (v : string) (s : server) : server :=
  {| reader := reader s; writer := writer s; verbose := verbose s;
     extensionInfo := extensionInfo s; extensionAsync := extensionAsync s;
     extensionGetGitRemoteName := extensionGetGitRemoteName s;
     extensionUnavailableResponse := extensionUnavailableResponse s;
     configsDone := configsDone s; configPrefix := configPrefix s;
     configRcloneRemoteName := configRcloneRemoteName s;
     configRcloneLayout := v |}.

(** The [destination *string] of a config definition points at one of the
    three config fields of the server. *)
Inductive configField : Type :=
| destRcloneRemoteName
| destPrefix
| destRcloneLayout.

(** [*config.destination = v]. *)
Definition assign (d : configField) (v : string) (s : server) : server :=
  match d with
  | destRcloneRemoteName => set_configRcloneRemoteName v s
  | destPrefix => set_configPrefix v s
  | destRcloneLayout => set_configRcloneLayout v s
  end.

(** [configDefinition] describes a configuration value required by this
    command. *)
Record configDefinition : Type := {
  names : list string;
  description : string;
  destination : configField;
  defaultValue : option string
}.

(** What [buildFsString] does with the [queryDirhash] function it is
    handed: it either returns, or asks one question and goes on with the
    answer. *)
Inductive fsStringPlan : Type :=
| Built (fsString : string) (err : error)
| Query (msg : string) (next : string -> error -> fsStringPlan).

(** [fspath.Parsed], the two fields read here. *)
Record Parsed : Type := { parsedName : string; parsedPath : string }.

(** What a computation yields: a value, or the value it panicked with. *)
Inductive result (A : Type) : Type :=
| Val (a : A)
| Panic (v : goerror).
Arguments Val {A} a.
Arguments Panic {A} v.

(** What the command loop yields within a bound on its iterations. *)
Inductive loopResult : Type :=
| Returned (err : error)
| OutOfFuel.

(** The server that [command] starts,
    [server{reader: bufio.NewReader(os.Stdin), writer: os.Stdout}], over an
    inbound stream that holds [input] and is closed after it. *)
Definition newServer (input : string) : server :=
  {| reader := {| rbuf := input; rerr := EOF |};
     writer := {| chunks := []; werr := None |};
     verbose := false;
     extensionInfo := false; extensionAsync := false;
     extensionGetGitRemoteName := false;
     extensionUnavailableResponse := false;
     configsDone := false; configPrefix := "";
     configRcloneRemoteName := ""; configRcloneLayout := "" |}.

(** Lines as the controller sends them: each followed by a newline. *)
Fixpoint unlines (ls : list string) : string :=
  match ls with
  | [] => ""
  | l :: rest => l ++ newline ++ unlines rest
  end.

(** ** A small environment to run the program in

    One choice of the parts the program takes from elsewhere, used to run
    the handlers on concrete sessions: two layouts, of which [hashed] asks
    for a directory hash, and a store that is a list of (file system,
    name) pairs. *)

Module Demo.

Definition dquote : string := String "034"%char EmptyString.

Definition quote (s : string) : string := dquote ++ s ++ dquote.

Definition showConfigDefinition (c : configDefinition) : string :=
  "&{" ++ Join (names c) " " ++ "}".

Inductive layoutMode : Type := nodir | hashed | unknown.

Definition layoutMode_eq_dec (a b : layoutMode) : {a = b} + {a <> b}.
Proof. decide equality. Defined.

Definition parseLayoutMode (mode : string) : layoutMode :=
  if mode =? "nodir" then nodir
  else if mode =? "hashed" then hashed
  else unknown.

Definition allLayoutModesText : string := "[nodir hashed]".

Definition buildFsString (mode : layoutMode) (key remoteName prefix : string)
  : fsStringPlan :=
  match mode with
  | nodir => Built (remoteName ++ prefix) None
  | _ =>
      Query ("DIRHASH-LOWER " ++ key) (fun dirhash err =>
        match err with
        | Some e =>
            Built "" (Some (wrapError
              ("buildFsString failed to query dirhash: " ++ Error e) e))
        | None => Built (remoteName ++ prefix ++ "/" ++ dirhash) None
        end)
  end.

Definition World : Type := list (string * string).
Definition Fs : Type := string.
Definition Object : Type := (string * string)%type.

Definition sameObject (a b : string * string) : bool :=
  (fst a =? fst b) && (snd a =? snd b).

Definition stored (w : World) (o : string * string) : bool :=
  existsb (sameObject o) w.

(** Every string names a file system, except those that start with
    [nowhere]. *)
Definition cacheGet (fsString : string) (w : World) : (Fs * error) * World :=
  if HasPrefix fsString "nowhere" then
    (("", Some (errorString "didn't find section in config file")), w)
  else ((fsString, None), w).

(** File systems that start with [flaky] fail every lookup. *)
Definition NewObject (f : Fs) (remote : string) (w : World)
  : (Object * error) * World :=
  if HasPrefix f "flaky" then
    ((("", ""), Some (errorString "connection reset")), w)
  else if stored w (f, remote) then (((f, remote), None), w)
  else ((("", ""), Some ErrorObjectNotFound), w).

(** File systems that start with [readonly] refuse every change. *)
Definition DeleteFile (o : Object) (w : World) : error * World :=
  if HasPrefix (fst o) "readonly" then
    (Some (errorString "permission denied"), w)
  else (None, filter (fun x => negb (sameObject o x)) w).

Definition CopyFile (fdst fsrc : Fs) (dstFileName srcFileName : string)
    (w : World) : error * World :=
  if HasPrefix fsrc "flaky" then (Some (errorString "connection reset"), w)
  else if HasPrefix fdst "readonly" then
    (Some (errorString "permission denied"), w)
  else if stored w (fsrc, srcFileName) then
    (None, (fdst, dstFileName) :: w)
  else (Some ErrorObjectNotFound, w).

Definition GetRemoteNames (w : World) : list string := ["remote"; "flaky"].

Definition fspathParse (path : string) : Parsed * error :=
  match Cut (TrimPrefix path ":") ":" with
  | (name, rest, true) =>
      ({| parsedName := ":" ++ name; parsedPath := rest |}, None)
  | (_, _, false) =>
      ({| parsedName := ""; parsedPath := "" |},
       Some (errorString "config name contains invalid characters"))
  end.

Definition fsFind (name : string) : error :=
  if name =? "local" then None
  else Some (errorString "didn't find backend called that").

(** The text before the last slash, and the text after it. *)
Fixpoint splitLastSlash (path : string) : option (string * string) :=
  match path with
  | EmptyString => None
  | String c rest =>
      match splitLastSlash rest with
      | Some (dir, base) => Some (String c dir, base)
      | None => if Ascii.eqb c "/" then Some ("", rest) else None
      end
  end.

Definition filepathDir (path : string) : string :=
  match splitLastSlash path with
  | Some (dir, _) => if isEmpty dir then "/" else dir
  | None => "."
  end.

Definition filepathBase (path : string) : string :=
  match splitLastSlash path with
  | Some (_, base) => base
  | None => path
  end.

End Demo.

(** ** The program *)

Section GitAnnex.

(** *** What the program takes from elsewhere *)

(** [%q] of [fmt], that is [strconv.Quote]. *)
Variable quote : string -> string.
(** [%v] of [fmt] on a [*configDefinition]. *)
Variable showConfigDefinition : configDefinition -> string.

(** [layout.go] of this package: the layout modes, their sentinel for an
    unknown mode, the parser of a mode, the list of all modes as [%v]
    prints it, and [buildFsString], given as what it does with the
    [queryDirhash] function it receives. *)
Variable layoutMode : Type.
Variable layoutModeUnknown : layoutMode.
Variable layoutMode_eq_dec : forall a b : layoutMode, {a = b} + {a <> b}.
Variable parseLayoutMode : string -> layoutMode.
Variable allLayoutModesText : string.
Variable buildFsString :
  layoutMode -> string -> string -> string -> fsStringPlan.

(** The storage backends: [cache.Get], [fs.Fs.NewObject],
    [operations.CopyFile] and [operations.DeleteFile] act on the state of
    the world outside the process; [config.GetRemoteNames] reads it. *)
Variable World : Type.
Variable Fs : Type.
Variable Object : Type.
Variable cacheGet : string -> World -> (Fs * error) * World.
Variable NewObject : Fs -> string -> World -> (Object * error) * World.
Variable CopyFile : Fs -> Fs -> string -> string -> World -> error * World.
Variable DeleteFile : Object -> World -> error * World.
Variable GetRemoteNames : World -> list string.
(** [fspath.Parse] and [fs.Find] (whether it returns an error). *)
Variable fspathParse : string -> Parsed * error.
Variable fsFind : string -> error.
(** [filepath.Dir] and [filepath.Base]. *)
Variable filepathDir : string -> string.
Variable filepathBase : string -> string.

(** *** The tokenizer *)

(** [nextSpaceDelimitedParameter] consumes the next space-delimited
    parameter. The parser is returned with the line it is left with. *)
Definition nextSpaceDelimitedParameter (m : messageParser)
  : (string * error) * messageParser :=
  let m := {| line := TrimRight (line m) crlf |} in
  if isEmpty (line m) then
    (("", Some (errorString "nothing remains to parse")), m)
  else
    match Cut (line m) " " with
    | (before, after, true) =>
        if isEmpty before then
          (("", Some (errorString
             ("found an empty space-delimited parameter in line: "
                ++ quote (line m)))), m)
        else ((before, None), {| line := after |})
    | (_, _, false) =>
        let remaining := line m in
        ((remaining, None), {| line := "" |})
    end.

(** [finalParameter] consumes the final parameter, which may contain
    spaces. *)
Definition finalParameter (m : messageParser) : string * messageParser :=
  let m := {| line := TrimRight (line m) crlf |} in
  if isEmpty (line m) then ("", m)
  else
    let param := line m in
    (param, {| line := "" |}).

(** *** The config registry *)

Definition getCanonicalNameOf (c : configDefinition) : result string :=
  match names c with
  | [] => Panic (errorString
            ("configDefinition must have at least one name: "
               ++ showConfigDefinition c))
  | name :: _ => Val name
  end.

(** [fullDescription] returns a single-line, human-readable description:
    the list of synonyms, then the description. *)
Definition fullDescription (c : configDefinition) : string :=
  if Nat.leb (List.length (names c)) 1 then description c
  else
    let synonyms := tl (names c) in
    let commaSeparatedSynonyms := Join synonyms ", " in
    "(synonyms: " ++ commaSeparatedSynonyms ++ ") " ++ description c.

Definition defaultRclonePrefix : string := "git-annex-rclone".
Definition defaultRcloneLayout : string := "nodir".

Definition getRequiredConfigs : list configDefinition :=
  [ {| names := ["rcloneremotename"; "target"];
       description :=
         "Name of the rclone remote to use. " ++
         "Must match a remote known to rclone. " ++
         "(Note that rclone remotes are a distinct concept from git-annex remotes.)";
       destination := destRcloneRemoteName;
       defaultValue := None |};
    {| names := ["rcloneprefix"; "prefix"];
       description :=
         "Directory where rclone will write git-annex content. " ++
         ("If not specified, defaults to " ++ quote defaultRclonePrefix ++ ". ") ++
         "This directory will be created on init if it does not exist.";
       destination := destPrefix;
       defaultValue := Some defaultRclonePrefix |};
    {| names := ["rclonelayout"; "rclone_layout"];
       description :=
         "Defines where, within the rcloneprefix directory, rclone will write git-annex content. " ++
         ("Must be one of " ++ allLayoutModesText ++ ". ") ++
         ("If empty, defaults to " ++ quote defaultRcloneLayout ++ ".");
       destination := destRcloneLayout;
       defaultValue := Some defaultRcloneLayout |} ].

(** *** The process and its computations

    The server, the standard error stream of the process, and the world
    of the storage backends. *)

Record process : Type := {
  self : server;
  Stderr : Writer;
  world : World
}.

Definition M (A : Type) : Type := process -> result A * process.

Definition ret {A} (a : A) : M A := fun p => (Val a, p).

Definition bind {A B} (m : M A) (f : A -> M B) : M B :=
  fun p =>
    match m p with
    | (Val a, p') => f a p'
    | (Panic v, p') => (Panic v, p')
    end.

Definition panic {A} (v : goerror) : M A := fun p => (Panic v, p).

(** Reading [s], and updating it. *)
Definition getServer : M server := fun p => (Val (self p), p).

Definition modifyServer (f : server -> server) : M unit :=
  fun p => (Val tt, {| self := f (self p); Stderr := Stderr p;
                       world := world p |}).

(** [io.WriteString(s.writer, msg)]. *)
Definition writeOut (msg : string) : M error :=
  fun p =>
    let '(w, err) := WriteString (writer (self p)) msg in
    (Val err, {| self := set_writer w (self p); Stderr := Stderr p;
                 world := world p |}).

(** [os.Stderr.WriteString(msg)]. *)
Definition writeStderr (msg : string) : M error :=
  fun p =>
    let '(w, err) := WriteString (Stderr p) msg in
    (Val err, {| self := self p; Stderr := w; world := world p |}).

(** [s.reader.ReadString(delim)]. *)
Definition readLine (delim : ascii) : M (string * error) :=
  fun p =>
    let '(res, r) := ReadString delim (reader (self p)) in
    (Val res, {| self := set_reader r (self p); Stderr := Stderr p;
                 world := world p |}).

(** A call into the storage backends. *)
Definition backend {A} (f : World -> A * World) : M A :=
  fun p =>
    let '(a, w) := f (world p) in
    (Val a, {| self := self p; Stderr := Stderr p; world := w |}).

Definition liftResult {A} (r : result A) : M A := fun p => (r, p).

Local Notation "x <- m ;; k" := (bind m (fun x => k))
  (at level 61, m at next level, right associativity).
Local Notation "' pat <- m ;; k" :=
  (bind m (fun x => match x with pat => k end))
  (at level 61, pat pattern, m at next level, right associativity).
Local Notation "m ;; k" := (bind m (fun _ => k))
  (at level 61, right associativity).

Definition getCanonicalName (c : configDefinition) : M string :=
  liftResult (getCanonicalNameOf c).

(** *** Sending and receiving messages *)

Definition sendMsg (msg : string) : M unit :=
  let msg := msg ++ newline in
  err <- writeOut msg ;;
  match err with
  | Some e => panic e
  | None =>
      s <- getServer ;;
      if verbose s then
        err <- writeStderr ("server sent " ++ quote msg ++ newline) ;;
        match err with
        | Some e =>
            panic (wrapError
              ("failed to write verbose message to stderr: " ++ Error e) e)
        | None => ret tt
        end
      else ret tt
  end.

(** [getMsg] yields [(nil, nil)] when the stream ends on a line boundary,
    an error when it ends within a line, and the parser of the line
    otherwise. *)
Definition getMsg : M (option messageParser * error) :=
  '(msg, err) <- readLine LF ;;
  match err with
  | Some _ =>
      if isEmpty msg then ret (None, None)
      else ret (None, Some (errorString
             ("expected message to end with newline: " ++ quote msg)))
  | None =>
      s <- getServer ;;
      if verbose s then
        err <- writeStderr ("server received " ++ quote msg ++ newline) ;;
        match err with
        | Some e =>
            ret (None, Some (wrapError
              ("failed to write verbose message to stderr: " ++ Error e) e))
        | None => ret (Some {| line := msg |}, None)
        end
      else ret (Some {| line := msg |}, None)
  end.

(** *** Config negotiation *)

(** The inner loop of [queryConfigs] over the names of one config: whether
    a value was received, and the error the function returns with when
    the loop is left by [return]. *)
Fixpoint queryNames (config : configDefinition) (configNames : list string)
  : M (bool * error) :=
  match configNames with
  | [] => ret (false, None)
  | configName :: rest =>
      sendMsg ("GETCONFIG " ++ configName) ;;
      '(message, err) <- getMsg ;;
      match err with
      | Some e => ret (false, Some e)
      | None =>
          match message with
          | None => panic nilDereference
          | Some message =>
              let '((valueKeyword, err), message) :=
                nextSpaceDelimitedParameter message in
              if notNil err || negb (valueKeyword =? "VALUE") then
                ret (false, Some (errorString
                  ("failed to parse config value: " ++ valueKeyword
                     ++ " " ++ line message)))
              else
                let '(value, message) := finalParameter message in
                if negb (value =? "") then
                  modifyServer (assign (destination config) value) ;;
                  ret (true, None)
                else queryNames config rest
          end
      end
  end.

(** The body of the outer loop of [queryConfigs], for one config. *)
Definition queryConfig (config : configDefinition) : M error :=
  '(valueReceived, err) <- queryNames config (names config) ;;
  match err with
  | Some e => ret (Some e)
  | None =>
      if negb valueReceived then
        match defaultValue config with
        | None =>
            name <- getCanonicalName config ;;
            ret (Some (errorString
              ("did not receive a non-empty config value for "
                 ++ quote name)))
        | Some default =>
            modifyServer (assign (destination config) default) ;;
            ret None
        end
      else ret None
  end.

Fixpoint queryEach (configs : list configDefinition) : M error :=
  match configs with
  | [] => ret None
  | config :: rest =>
      err <- queryConfig config ;;
      match err with
      | Some e => ret (Some e)
      | None => queryEach rest
      end
  end.

(** Query git-annex for config values. *)
Definition queryConfigs : M error :=
  s <- getServer ;;
  if configsDone s then ret None
  else
    err <- queryEach getRequiredConfigs ;;
    match err with
    | Some e => ret (Some e)
    | None =>
        modifyServer (set_configsDone true) ;;
        ret None
    end.

Definition handlePrepare : M error :=
  err <- queryConfigs ;;
  match err with
  | Some e =>
      sendMsg "PREPARE-FAILURE Error getting configs" ;;
      ret (Some (wrapError ("error getting configs: " ++ Error e) e))
  | None =>
      sendMsg "PREPARE-SUCCESS" ;;
      ret None
  end.

Fixpoint listEach (configs : list configDefinition) : M unit :=
  match configs with
  | [] => ret tt
  | config :: rest =>
      name <- getCanonicalName config ;;
      sendMsg ("CONFIG " ++ name ++ " " ++ fullDescription config) ;;
      listEach rest
  end.

Definition handleListConfigs : M unit :=
  listEach getRequiredConfigs ;;
  sendMsg "CONFIGEND".

(** Idempotently handle an incoming INITREMOTE message. *)
Definition handleInitRemote : M error :=
  err <- queryConfigs ;;
  match err with
  | Some e => ret (Some (wrapError ("failed to get configs: " ++ Error e) e))
  | None =>
      s <- getServer ;;
      let trimmedName := TrimSuffix (configRcloneRemoteName s) ":" in
      remoteNames <- backend (fun w => (GetRemoteNames w, w)) ;;
      if Contains remoteNames trimmedName then
        sendMsg "INITREMOTE-SUCCESS" ;;
        ret None
      else
        let maybeBackend := HasPrefix (configRcloneRemoteName s) ":" in
        if negb maybeBackend then
          sendMsg ("INITREMOTE-FAILURE remote does not exist: "
                     ++ configRcloneRemoteName s) ;;
          ret (Some (errorString
            ("remote does not exist: " ++ configRcloneRemoteName s)))
        else
          let '(parsed, err) := fspathParse (configRcloneRemoteName s) in
          match err with
          | Some _ =>
              sendMsg ("INITREMOTE-FAILURE remote could not be parsed as a backend: "
                         ++ configRcloneRemoteName s) ;;
              ret (Some (errorString
                ("remote could not be parsed as a backend: "
                   ++ configRcloneRemoteName s)))
          | None =>
              if negb (parsedPath parsed =? "") then
                sendMsg ("INITREMOTE-FAILURE backend must not have a path: "
                           ++ configRcloneRemoteName s) ;;
                ret (Some (errorString
                  ("backend must not have a path: "
                     ++ configRcloneRemoteName s)))
              else
                let trimmedBackendName := TrimPrefix (parsedName parsed) ":" in
                match fsFind trimmedBackendName with
                | Some _ =>
                    sendMsg ("INITREMOTE-FAILURE backend does not exist: "
                               ++ trimmedBackendName) ;;
                    ret (Some (errorString
                      ("backend does not exist: " ++ trimmedBackendName)))
                | None =>
                    sendMsg "INITREMOTE-SUCCESS" ;;
                    ret None
                end
          end
  end.

(** *** Asking git-annex for a directory hash *)

Definition queryDirhash (msg : string) : M (string * error) :=
  sendMsg msg ;;
  '(parser, err) <- getMsg ;;
  match err with
  | Some e => ret ("", Some e)
  | None =>
      match parser with
      | None => panic nilDereference
      | Some parser =>
          let '((keyword, err), parser) :=
            nextSpaceDelimitedParameter parser in
          match err with
          | Some e => ret ("", Some e)
          | None =>
              if negb (keyword =? "VALUE") then
                ret ("", Some (errorString
                  ("expected VALUE keyword, but got " ++ quote keyword)))
              else
                let '((dirhash, err), parser) :=
                  nextSpaceDelimitedParameter parser in
                match err with
                | Some e =>
                    ret ("", Some (wrapError
                      ("failed to parse dirhash: " ++ Error e) e))
                | None => ret (dirhash, None)
                end
          end
      end
  end.

(** [buildFsString(s.queryDirhash, ...)]: every question of the plan goes
    through [queryDirhash]. *)
Fixpoint runPlan (plan : fsStringPlan) : M (string * error) :=
  match plan with
  | Built fsString err => ret (fsString, err)
  | Query msg next =>
      '(dirhash, err) <- queryDirhash msg ;;
      runPlan (next dirhash err)
  end.

Definition isUnknown (layout : layoutMode) : bool :=
  if layoutMode_eq_dec layout layoutModeUnknown then true else false.

(** *** The handlers of the keyed commands *)

Definition handleTransfer (message : messageParser) : M error :=
  let '((argMode, err), message) := nextSpaceDelimitedParameter message in
  match err with
  | Some e =>
      sendMsg "TRANSFER-FAILURE failed to parse direction" ;;
      ret (Some (wrapError ("malformed arguments for TRANSFER: " ++ Error e) e))
  | None =>
  let '((argKey, err), message) := nextSpaceDelimitedParameter message in
  match err with
  | Some e =>
      sendMsg "TRANSFER-FAILURE failed to parse key" ;;
      ret (Some (wrapError ("malformed arguments for TRANSFER: " ++ Error e) e))
  | None =>
  let '(argFile, message) := finalParameter message in
  if argFile =? "" then
    sendMsg "TRANSFER-FAILURE failed to parse file path" ;;
    ret (Some (errorString "failed to parse file path"))
  else
  err <- queryConfigs ;;
  match err with
  | Some e =>
      sendMsg ("TRANSFER-FAILURE " ++ argMode ++ " " ++ argKey
                 ++ " failed to get configs") ;;
      ret (Some (wrapError ("error getting configs: " ++ Error e) e))
  | None =>
  s <- getServer ;;
  let layout := parseLayoutMode (configRcloneLayout s) in
  if isUnknown layout then
    sendMsg ("TRANSFER-FAILURE " ++ argKey) ;;
    ret (Some (errorString
      ("error parsing layout mode: " ++ quote (configRcloneLayout s))))
  else
  '(remoteFsString, err) <-
    runPlan (buildFsString layout argKey (configRcloneRemoteName s)
               (configPrefix s)) ;;
  match err with
  | Some e =>
      sendMsg ("TRANSFER-FAILURE " ++ argKey) ;;
      ret (Some (wrapError ("error building fs string: " ++ Error e) e))
  | None =>
  '(remoteFs, err) <- backend (cacheGet remoteFsString) ;;
  match err with
  | Some e =>
      sendMsg ("TRANSFER-FAILURE " ++ argMode ++ " " ++ argKey
                 ++ " failed to get remote fs") ;;
      ret (Some e)
  | None =>
  let localDir := filepathDir argFile in
  '(localFs, err) <- backend (cacheGet localDir) ;;
  match err with
  | Some e =>
      sendMsg ("TRANSFER-FAILURE " ++ argMode ++ " " ++ argKey
                 ++ " failed to get local fs") ;;
      ret (Some (wrapError ("failed to get local fs: " ++ Error e) e))
  | None =>
  let remoteFileName := argKey in
  let localFileName := filepathBase argFile in
  if argMode =? "STORE" then
    err <- backend (CopyFile remoteFs localFs remoteFileName localFileName) ;;
    match err with
    | Some e =>
        sendMsg ("TRANSFER-FAILURE " ++ argMode ++ " " ++ argKey
                   ++ " failed to copy file: " ++ Error e) ;;
        ret (Some e)
    | None =>
        sendMsg ("TRANSFER-SUCCESS " ++ argMode ++ " " ++ argKey) ;;
        ret None
    end
  else if argMode =? "RETRIEVE" then
    err <- backend (CopyFile localFs remoteFs localFileName remoteFileName) ;;
    if isErrorObjectNotFound err then
      sendMsg ("TRANSFER-FAILURE " ++ argMode ++ " " ++ argKey
                 ++ " not found") ;;
      ret None
    else
      match err with
      | Some e =>
          sendMsg ("TRANSFER-FAILURE " ++ argMode ++ " " ++ argKey
                     ++ " failed to copy file: " ++ Error e) ;;
          ret (Some e)
      | None =>
          sendMsg ("TRANSFER-SUCCESS " ++ argMode ++ " " ++ argKey) ;;
          ret None
      end
  else
    sendMsg ("TRANSFER-FAILURE " ++ argMode ++ " " ++ argKey
               ++ " unrecognized mode") ;;
    ret (Some (errorString ("received malformed TRANSFER mode: " ++ argMode)))
  end end end end end end.

Definition handleCheckPresent (message : messageParser) : M error :=
  let '(argKey, message) := finalParameter message in
  if argKey =? "" then
    ret (Some (errorString "failed to parse response for CHECKPRESENT"))
  else
  err <- queryConfigs ;;
  match err with
  | Some e =>
      sendMsg ("CHECKPRESENT-FAILURE " ++ argKey ++ " failed to get configs") ;;
      ret (Some (errorString ("error getting configs: " ++ Error e)))
  | None =>
  s <- getServer ;;
  let layout := parseLayoutMode (configRcloneLayout s) in
  if isUnknown layout then
    sendMsg ("CHECKPRESENT-FAILURE " ++ argKey) ;;
    ret (Some (errorString
      ("error parsing layout mode: " ++ quote (configRcloneLayout s))))
  else
  '(remoteFsString, err) <-
    runPlan (buildFsString layout argKey (configRcloneRemoteName s)
               (configPrefix s)) ;;
  match err with
  | Some e =>
      sendMsg ("CHECKPRESENT-FAILURE " ++ argKey) ;;
      ret (Some (wrapError ("error building fs string: " ++ Error e) e))
  | None =>
  '(remoteFs, err) <- backend (cacheGet remoteFsString) ;;
  match err with
  | Some e =>
      sendMsg ("CHECKPRESENT-UNKNOWN " ++ argKey ++ " failed to get remote fs") ;;
      ret (Some e)
  | None =>
  '(_, err) <- backend (NewObject remoteFs argKey) ;;
  if isErrorObjectNotFound err then
    sendMsg ("CHECKPRESENT-FAILURE " ++ argKey) ;;
    ret None
  else
    match err with
    | Some e =>
        sendMsg ("CHECKPRESENT-UNKNOWN " ++ argKey ++ " error finding file") ;;
        ret (Some e)
    | None =>
        sendMsg ("CHECKPRESENT-SUCCESS " ++ argKey) ;;
        ret None
    end
  end end end.

Definition handleRemove (message : messageParser) : M error :=
  let '(argKey, message) := finalParameter message in
  if argKey =? "" then
    ret (Some (errorString "failed to parse key for REMOVE"))
  else
  s <- getServer ;;
  let layout := parseLayoutMode (configRcloneLayout s) in
  if isUnknown layout then
    sendMsg ("REMOVE-FAILURE " ++ argKey) ;;
    ret (Some (errorString
      ("error parsing layout mode: " ++ quote (configRcloneLayout s))))
  else
  '(remoteFsString, err) <-
    runPlan (buildFsString layout argKey (configRcloneRemoteName s)
               (configPrefix s)) ;;
  match err with
  | Some e =>
      sendMsg ("REMOVE-FAILURE " ++ argKey) ;;
      ret (Some (wrapError ("error building fs string: " ++ Error e) e))
  | None =>
  '(remoteFs, err) <- backend (cacheGet remoteFsString) ;;
  match err with
  | Some e =>
      sendMsg ("REMOVE-FAILURE " ++ argKey) ;;
      ret (Some (wrapError ("error getting remote fs: " ++ Error e) e))
  | None =>
  '(fileObj, err) <- backend (NewObject remoteFs argKey) ;;
  if errorsIsObjectNotFound err then
    sendMsg ("REMOVE-SUCCESS " ++ argKey) ;;
    ret None
  else
    match err with
    | Some e =>
        sendMsg ("REMOVE-FAILURE " ++ argKey
                   ++ " error getting new fs object: " ++ Error e) ;;
        ret (Some (wrapError ("error getting new fs object: " ++ Error e) e))
    | None =>
        err <- backend (DeleteFile fileObj) ;;
        match err with
        | Some _ =>
            sendMsg ("REMOVE-FAILURE " ++ argKey ++ " error deleting file") ;;
            ret (Some (errorString ("error deleting file: " ++ quote argKey)))
        | None =>
            sendMsg ("REMOVE-SUCCESS " ++ argKey) ;;
            ret None
        end
    end
  end end.

(** *** Extensions *)

Definition noteExtension (extension : string) (s : server) : server :=
  if extension =? "INFO" then set_extensionInfo true s
  else if extension =? "ASYNC" then set_extensionAsync true s
  else if extension =? "GETGITREMOTENAME" then
    set_extensionGetGitRemoteName true s
  else if extension =? "UNAVAILABLERESPONSE" then
    set_extensionUnavailableResponse true s
  else s.

(** The loop of [handleExtensions]; every round that goes on shortens the
    line, so [fuel] above its length is never used up. *)
Fixpoint eachExtension (fuel : nat) (message : messageParser) : M unit :=
  match fuel with
  | O => ret tt
  | S fuel =>
      let '((extension, err), message) :=
        nextSpaceDelimitedParameter message in
      match err with
      | Some _ => ret tt
      | None =>
          modifyServer (noteExtension extension) ;;
          eachExtension fuel message
      end
  end.

Definition handleExtensions (message : messageParser) : M error :=
  eachExtension (S (String.length (line message))) message ;;
  sendMsg "EXTENSIONS" ;;
  ret None.

(** *** The command loop *)

(** The [switch command] of [run]. *)
Definition dispatch (command : string) (message : messageParser) : M error :=
  if command =? "INITREMOTE" then handleInitRemote
  else if command =? "PREPARE" then handlePrepare
  else if command =? "EXPORTSUPPORTED" then
    sendMsg "EXPORTSUPPORTED-FAILURE" ;; ret None
  else if command =? "TRANSFER" then handleTransfer message
  else if command =? "CHECKPRESENT" then handleCheckPresent message
  else if command =? "REMOVE" then handleRemove message
  else if command =? "ERROR" then
    let '(errorMessage, message) := finalParameter message in
    ret (Some (errorString
      ("received error message from git-annex: " ++ errorMessage)))
  else if command =? "EXTENSIONS" then handleExtensions message
  else if command =? "LISTCONFIGS" then handleListConfigs ;; ret None
  else if command =? "GETCOST" then sendMsg "COST 200" ;; ret None
  else if command =? "GETAVAILABILITY" then
    sendMsg "AVAILABILITY GLOBAL" ;; ret None
  else if (command =? "CLAIMURL") || (command =? "CHECKURL")
          || (command =? "WHEREIS") || (command =? "GETINFO") then
    sendMsg "UNSUPPORTED-REQUEST" ;; ret None
  else
    ret (Some (errorString
      ("received unexpected message from git-annex: " ++ line message))).

(** The [for] loop of [run], for at most [fuel] messages. *)
Fixpoint runLoop (fuel : nat) : M loopResult :=
  match fuel with
  | O => ret OutOfFuel
  | S fuel =>
      '(message, err) <- getMsg ;;
      match err with
      | Some e =>
          ret (Returned (Some (wrapError
            ("error receiving message: " ++ Error e) e)))
      | None =>
          match message with
          | None => ret (Returned None)
          | Some message =>
              let '((command, err), message) :=
                nextSpaceDelimitedParameter message in
              match err with
              | Some _ =>
                  ret (Returned (Some (errorString "failed to parse command")))
              | None =>
                  err <- dispatch command message ;;
                  match err with
                  | Some e => ret (Returned (Some e))
                  | None => runLoop fuel
                  end
              end
          end
      end
  end.

(** [run]. Every message that is read takes at least its newline from the
    stream, so the loop goes round at most once more than there are bytes
    to read. *)
Definition run : M loopResult :=
  sendMsg "VERSION 1" ;;
  s <- getServer ;;
  runLoop (S (String.length (rbuf (reader s)))).

(** The [Run] function of [command], from the call of [s.run] on: an
    error that [run] returns is reported to git-annex in an ERROR line,
    and the process panics with it. *)
Definition commandRun : M loopResult :=
  r <- run ;;
  match r with
  | Returned (Some e) =>
      sendMsg ("ERROR " ++ Error e) ;;
      panic e
  | Returned None => ret r
  | OutOfFuel => ret r
  end.

(** *** The arguments of the program *)

Definition subcommandName : string := "gitannex".
Definition uniqueCommandName : string := "git-annex-remote-rclone-builtin".

(** [maybeTransformArgs] inserts the subcommand after the name of the
    program when the program was executed under its unique name. *)
Definition maybeTransformArgs (args : list string) : list string :=
  match args with
  | [] => args
  | arg0 :: rest =>
      if negb (filepathBase arg0 =? uniqueCommandName) then args
      else (([arg0] ++ [subcommandName]) ++ rest)%list
  end.

(** The process at its start, reading [input] in the world [w]. *)
Definition start (input : string) (w : World) : process :=
  {| self := newServer input;
     Stderr := {| chunks := []; werr := None |};
     world := w |}.

(** *** States the proofs speak about *)

(** Both streams the process writes to accept writes (standard error is
    only written to by a verbose server). *)
Definition healthy (p : process) : bool :=
  negb (notNil (werr (writer (self p))))
  && (negb (verbose (self p)) || negb (notNil (werr (Stderr p)))).

(** The transcript entry of a verbose server. *)
Definition logged (entry : string) (p : process) : process :=
  if verbose (self p) then
    {| self := self p;
       Stderr := {| chunks := (chunks (Stderr p) ++ [entry])%list;
                    werr := werr (Stderr p) |};
       world := world p |}
  else p.

(** The process after it sent [msg]. *)
Definition emit (msg : string) (p : process) : process :=
  logged ("server sent " ++ quote (msg ++ newline) ++ newline)
    {| self := set_writer
                 {| chunks := (chunks (writer (self p)) ++ [(msg ++ newline)%string])%list;
                    werr := werr (writer (self p)) |} (self p);
       Stderr := Stderr p;
       world := world p |}.

(** The process after it received the line [msg], with [rest] left to
    read. *)
Definition taken (msg rest : string) (p : process) : process :=
  logged ("server received " ++ quote msg ++ newline)
    {| self := set_reader {| rbuf := rest; rerr := rerr (reader (self p)) |}
                 (self p);
       Stderr := Stderr p;
       world := world p |}.

(** The process with the server updated by [f], and in the world [w]. *)
Definition withServer (f : server -> server) (p : process) : process :=
  {| self := f (self p); Stderr := Stderr p; world := world p |}.

Definition inWorld (w : World) (p : process) : process :=
  {| self := self p; Stderr := Stderr p; world := w |}.

(** What the process has sent, and what it can still read. *)
Definition sent (p : process) : list string := chunks (writer (self p)).
Definition unread (p : process) : string := rbuf (reader (self p)).

(** The process after a read found the stream at its end. *)
Definition drained (p : process) : process :=
  withServer (set_reader {| rbuf := ""; rerr := rerr (reader (self p)) |}) p.

(** A computation keeps the relation [R] between the process before and
    after it, however it ends. *)
Definition preserves {A} (R : process -> process -> Prop) (m : M A) : Prop :=
  forall p, R p (snd (m p)).

(** Every question of a plan satisfies [Q]. *)
Fixpoint planAsks (Q : string -> Prop) (plan : fsStringPlan) : Prop :=
  match plan with
  | Built _ _ => True
  | Query msg next =>
      Q (msg ++ newline) /\ forall dirhash err, planAsks Q (next dirhash err)
  end.

(** The streams are as usable as before, and the server as verbose. *)
Definition sameStreams (p p' : process) : Prop :=
  werr (writer (self p')) = werr (writer (self p))
  /\ verbose (self p') = verbose (self p)
  /\ werr (Stderr p') = werr (Stderr p).

(** The config fields and the configs-resolved flag are as before. *)
Definition sameConfig (p p' : process) : Prop :=
  configsDone (self p') = configsDone (self p)
  /\ configPrefix (self p') = configPrefix (self p)
  /\ configRcloneRemoteName (self p') = configRcloneRemoteName (self p)
  /\ configRcloneLayout (self p') = configRcloneLayout (self p).

(** The configs-resolved flag is as before. *)
Definition sameDone (p p' : process) : Prop :=
  configsDone (self p') = configsDone (self p).

(** What was sent before is still there, and what was sent since
    satisfies [Q]. *)
Definition sentOnly (Q : string -> Prop) (p p' : process) : Prop :=
  exists more, sent p' = (sent p ++ more)%list /\ Forall Q more.

(** A chunk that is a GETCONFIG query. *)
Definition isGetConfig (chunk : string) : bool := HasPrefix chunk "GETCONFIG".

(** The line git-annex answers a GETCONFIG with: the keyword, a space,
    the value (empty when the config is not set), a newline. *)
Definition reply (value : string) : string := "VALUE " ++ value ++ newline.

Fixpoint replies (values : list string) : string :=
  match values with
  | [] => ""
  | v :: rest => reply v ++ replies rest
  end.

(** The chunk that asks for the config called [name]. *)
Definition getConfigChunk (name : string) : string :=
  "GETCONFIG " ++ name ++ newline.

(** A value that fits on one line and is empty once trimmed; one that is
    not empty. *)
Definition emptyValue (v : string) : bool :=
  noneOf newline v && isEmpty (TrimRight v crlf).

Definition nonEmptyValue (v : string) : bool :=
  noneOf newline v && negb (isEmpty (TrimRight v crlf)).

(** The config field a destination points at. *)
Definition fieldOf (d : configField) (s : server) : string :=
  match d with
  | destRcloneRemoteName => configRcloneRemoteName s
  | destPrefix => configPrefix s
  | destRcloneLayout => configRcloneLayout s
  end.

(** The process after it asked for each of [asked] in turn and read the
    answer with the value of the same rank, with [rest] left to read. *)
Fixpoint exchanges (asked values : list string) (rest : string)
    (p : process) : process :=
  match asked, values with
  | name :: asked', v :: values' =>
      exchanges asked' values' rest
        (taken (reply v) (replies values' ++ rest)
           (emit ("GETCONFIG " ++ name) p))
  | _, _ => p
  end.

(** Between [p] and [p'] the process asked for the configs [asked], in
    that order, and sent nothing else; it read up to [rest]; the world
    and the configs-resolved flag are as they were. *)
Definition negotiated (asked : list string) (rest : string)
    (p p' : process) : Prop :=
  sent p' = (sent p ++ map getConfigChunk asked)%list
  /\ unread p' = rest
  /\ world p' = world p
  /\ configsDone (self p') = configsDone (self p).

(** What was sent before is still there. *)
Definition grows (p p' : process) : Prop := sentOnly (fun _ => True) p p'.

(** Since [p], the process sent [chunk] first. *)
Definition sentFirst (chunk : string) (p p' : process) : Prop :=
  exists more, sent p' = (sent p ++ chunk :: more)%list.

(** There is no more left to read than before. *)
Definition notLonger (p p' : process) : Prop :=
  String.length (unread p') <= String.length (unread p).

(** The server after it noted each of [extensions] in turn. *)
Definition noteAll (extensions : list string) (s : server) : server :=
  fold_left (fun s extension => noteExtension extension s) extensions s.

(** The config field is not empty. *)
Definition filled (d : configField) (p : process) : bool :=
  negb (isEmpty (fieldOf d (self p))).

Definition configField_eq_dec (a b : configField) : {a = b} + {a <> b}.
Proof. decide equality. Defined.

(** The default of a config, when it has one, is not empty. *)
Definition usableDefault (config : configDefinition) : bool :=
  match defaultValue config with
  | Some default => negb (isEmpty default)
  | None => true
  end.

(** The process after it sent each of [msgs] in turn. *)
Definition emitAll (msgs : list string) (p : process) : process :=
  fold_left (fun q msg => emit msg q) msgs p.

(** The line LISTCONFIGS sends for a config, and whether the config has
    a name to be listed under. *)
Definition configLine (c : configDefinition) : string :=
  "CONFIG " ++ hd "" (names c) ++ " " ++ fullDescription c.

Definition named (c : configDefinition) : bool :=
  match names c with
  | [] => false
  | _ :: _ => true
  end.

(** The requests [run] answers with one fixed line, and the line. *)
Definition simpleAnswer (command : string) : option string :=
  if command =? "EXPORTSUPPORTED" then Some "EXPORTSUPPORTED-FAILURE"
  else if command =? "GETCOST" then Some "COST 200"
  else if command =? "GETAVAILABILITY" then Some "AVAILABILITY GLOBAL"
  else if (command =? "CLAIMURL") || (command =? "CHECKURL")
          || (command =? "WHEREIS") || (command =? "GETINFO") then
    Some "UNSUPPORTED-REQUEST"
  else None.

(** The commands [run] has a case for. *)
Definition knownCommands : list string :=
  [ "INITREMOTE"; "PREPARE"; "EXPORTSUPPORTED"; "TRANSFER"; "CHECKPRESENT";
    "REMOVE"; "ERROR"; "EXTENSIONS"; "LISTCONFIGS"; "GETCOST";
    "GETAVAILABILITY"; "CLAIMURL"; "CHECKURL"; "WHEREIS"; "GETINFO" ].

(** The command of a request line, and the fixed answer to it. *)
Definition commandOf (l : string) : option string :=
  match nextSpaceDelimitedParameter {| line := l ++ newline |} with
  | ((command, None), _) => Some command
  | ((_, Some _), _) => None
  end.

Definition answerTo (l : string) : option string :=
  match commandOf l with
  | Some command => simpleAnswer command
  | None => None
  end.

(** The process after it read each request and sent the answer to it. *)
Fixpoint served (exchanged : list (string * string)) (p : process)
  : process :=
  match exchanged with
  | [] => p
  | (l, answer) :: rest =>
      served rest
        (emit answer (taken (l ++ newline) (unlines (map fst rest)) p))
  end.

(** A computation that is started where [Inv] holds ends where [Inv]
    holds, with [R] between where it started and where it ended. *)
Definition guarded {A} (Inv : process -> Prop)
    (R : process -> process -> Prop) (m : M A) : Prop :=
  forall p, Inv p -> Inv (snd (m p)) /\ R p (snd (m p)).

(** The configs of the session are resolved; the server is not verbose. *)
Definition settled (p : process) : Prop := configsDone (self p) = true.

Definition quiet (p : process) : Prop := verbose (self p) = false.

(** Standard error is as it was. *)
Definition sameStderr (p p' : process) : Prop := Stderr p' = Stderr p.

(** The extensions that were noted are still noted; the notes on the
    extensions are as they were. *)
Definition extensionsKept (p p' : process) : Prop :=
  (extensionInfo (self p) = true -> extensionInfo (self p') = true)
  /\ (extensionAsync (self p) = true -> extensionAsync (self p') = true)
  /\ (extensionGetGitRemoteName (self p) = true ->
      extensionGetGitRemoteName (self p') = true)
  /\ (extensionUnavailableResponse (self p) = true ->
      extensionUnavailableResponse (self p') = true).

Definition sameExtensions (p p' : process) : Prop :=
  extensionInfo (self p') = extensionInfo (self p)
  /\ extensionAsync (self p') = extensionAsync (self p)
  /\ extensionGetGitRemoteName (self p') = extensionGetGitRemoteName (self p)
  /\ extensionUnavailableResponse (self p')
     = extensionUnavailableResponse (self p).

(** *** The negotiation, in the words of the specification

    What the controller holds for one config definition: empty values
    for the names that are asked for first and then a value that is not
    empty, or an empty value for every name. *)
Inductive held : Type :=
| Given (empties : list string) (value : string)
| Unset (empties : list string).

(** There is one answer for each name that is asked for. *)
Definition fits (config : configDefinition) (h : held) : bool :=
  match h with
  | Given empties value =>
      forallb emptyValue empties
      && Nat.ltb (List.length empties) (List.length (names config))
      && nonEmptyValue value
  | Unset empties =>
      forallb emptyValue empties
      && Nat.eqb (List.length empties) (List.length (names config))
  end.

Fixpoint fitsAll (configs : list configDefinition) (given : list held)
  : bool :=
  match configs, given with
  | [], [] => true
  | config :: configs', h :: given' => fits config h && fitsAll configs' given'
  | _, _ => false
  end.

(** The lines the controller answers with. *)
Definition heldReplies (h : held) : string :=
  match h with
  | Given empties value => replies empties ++ reply value
  | Unset empties => replies empties
  end.

Fixpoint allReplies (given : list held) : string :=
  match given with
  | [] => ""
  | h :: rest => heldReplies h ++ allReplies rest
  end.

(** The names that are tried for a definition: in their order from the
    canonical name on, up to the first whose value is not empty. *)
Definition tried (config : configDefinition) (h : held) : list string :=
  match h with
  | Given empties _ => firstn (S (List.length empties)) (names config)
  | Unset _ => names config
  end.

(** The value that is taken for a definition: the first that is not
    empty; without one, the default; and nothing when there is no
    default either. *)
Definition chosen (config : configDefinition) (h : held) : option string :=
  match h with
  | Given _ value => Some (TrimRight value crlf)
  | Unset _ => defaultValue config
  end.

(** The resolution of the definitions in turn: the names queried, the
    values assigned to the destinations, the canonical name of the
    definition for which nothing could be taken, and the answers that
    are not asked for because the resolution stopped there. *)
Record resolution : Type := {
  queried : list string;
  assigned : list (configField * string);
  missing : option string;
  pending : list held
}.

Fixpoint resolve (configs : list configDefinition) (given : list held)
  : resolution :=
  match configs, given with
  | config :: configs', h :: given' =>
      match chosen config h with
      | Some value =>
          let r := resolve configs' given' in
          {| queried := (tried config h ++ queried r)%list;
             assigned := (destination config, value) :: assigned r;
             missing := missing r;
             pending := pending r |}
      | None =>
          {| queried := tried config h;
             assigned := [];
             missing := Some (hd "" (names config));
             pending := given' |}
      end
  | _, _ =>
      {| queried := []; assigned := []; missing := None; pending := given |}
  end.

(** The server after the assignments. *)
Definition assignAll (stores : list (configField * string)) (s : server)
  : server :=
  fold_left (fun s store => assign (fst store) (snd store) s) stores s.

(** ** Lemmas on strings *)

Lemma append_empty_r (s : string) : s ++ "" = s.
Proof. induction s as [|c s IH]; simpl; [reflexivity | now rewrite IH]. Qed.

Lemma append_assoc (a b c : string) : (a ++ b) ++ c = a ++ (b ++ c).
Proof. induction a as [|x a IH]; simpl; [reflexivity | now rewrite IH]. Qed.

Lemma TrimRight_app (x y cs : string) :
  TrimRight (x ++ y) cs =
  match TrimRight y cs with
  | EmptyString => TrimRight x cs
  | String _ _ as t => x ++ t
  end.
Proof.
  induction x as [|c x IH]; simpl.
  - destruct (TrimRight y cs); reflexivity.
  - rewrite IH. destruct (TrimRight y cs) as [|d t]; [reflexivity|].
    destruct x; reflexivity.
Qed.

Lemma TrimRight_noneOf (w cs : string) :
  noneOf cs w = true -> TrimRight w cs = w.
Proof.
  induction w as [|c w IH]; simpl; [reflexivity|].
  intros H. apply andb_true_iff in H as [Hc Hw].
  rewrite (IH Hw). apply negb_true_iff in Hc. rewrite Hc.
  destruct w; reflexivity.
Qed.

Lemma TrimRight_allOf (t cs : string) :
  allOf cs t = true -> TrimRight t cs = "".
Proof.
  induction t as [|c t IH]; simpl; [reflexivity|].
  intros H. apply andb_true_iff in H as [Hc Ht].
  now rewrite (IH Ht), Hc.
Qed.

Lemma TrimRight_idempotent (s cs : string) :
  TrimRight (TrimRight s cs) cs = TrimRight s cs.
Proof.
  induction s as [|c s IH]; simpl; [reflexivity|].
  destruct (TrimRight s cs) as [|d t] eqn:E.
  - destruct (inCutset c cs) eqn:Ec; simpl; [reflexivity | now rewrite Ec].
  - change (TrimRight (String c (String d t)) cs) with
      (match TrimRight (String d t) cs with
       | EmptyString => if inCutset c cs then EmptyString else String c EmptyString
       | String _ _ as t' => String c t'
       end).
    now rewrite IH.
Qed.

(** A trimmed line that ends with a word is left as it is. *)
Lemma TrimRight_ends_with_word (x w t : string) :
  isWord w = true -> allOf crlf t = true ->
  TrimRight (x ++ w ++ t) crlf = x ++ w.
Proof.
  intros Hw Ht. unfold isWord in Hw.
  apply andb_true_iff in Hw as [Hw Hcr]. apply andb_true_iff in Hw as [Hne _].
  rewrite TrimRight_app, TrimRight_app, (TrimRight_allOf _ _ Ht),
    (TrimRight_noneOf _ _ Hcr).
  destruct w; [discriminate | reflexivity].
Qed.

Lemma Cut_space_cons (c : ascii) (rest : string) :
  Cut (String c rest) " " =
  if Ascii.eqb " " c then ("", rest, true)
  else match Cut rest " " with
       | (before, after, true) => (String c before, after, true)
       | (_, _, false) => (String c rest, "", false)
       end.
Proof.
  change (Cut (String c rest) " ") with
    (match afterPrefix " " (String c rest) with
     | Some after => (EmptyString, after, true)
     | None =>
         match Cut rest " " with
         | (before, after, true) => (String c before, after, true)
         | (_, _, false) => (String c rest, EmptyString, false)
         end
     end).
  cbn [afterPrefix]. destruct (Ascii.eqb " " c); reflexivity.
Qed.

Lemma not_space (c : ascii) :
  negb (inCutset c " ") = true -> Ascii.eqb " " c = false.
Proof.
  cbn [inCutset]. rewrite Ascii.eqb_sym.
  destruct (Ascii.eqb " " c); [discriminate | reflexivity].
Qed.

Lemma Cut_at_space (w rest : string) :
  noneOf " " w = true -> Cut (w ++ " " ++ rest) " " = (w, rest, true).
Proof.
  induction w as [|c w IH]; [reflexivity|].
  cbn [noneOf append]. intros H. apply andb_true_iff in H as [Hc Hw].
  rewrite Cut_space_cons, (not_space _ Hc).
  change (w ++ String " " rest) with (w ++ " " ++ rest).
  now rewrite (IH Hw).
Qed.

Lemma Cut_no_space (w : string) :
  noneOf " " w = true -> Cut w " " = (w, "", false).
Proof.
  induction w as [|c w IH]; [reflexivity|].
  cbn [noneOf]. intros H. apply andb_true_iff in H as [Hc Hw].
  rewrite Cut_space_cons, (not_space _ Hc). now rewrite (IH Hw).
Qed.

Lemma isWord_parts (w : string) :
  isWord w = true ->
  isEmpty w = false /\ noneOf " " w = true /\ noneOf crlf w = true.
Proof.
  unfold isWord. intros H.
  apply andb_true_iff in H as [H H3]. apply andb_true_iff in H as [H1 H2].
  apply negb_true_iff in H1. auto.
Qed.

Lemma isEmpty_app_word (w rest : string) :
  isEmpty w = false -> isEmpty (w ++ rest) = false.
Proof. destruct w; [discriminate | reflexivity]. Qed.

(** ** The tokenizer on lines of words *)

Lemma TrimRight_skip_word (w rest : string) :
  isEmpty (TrimRight rest crlf) = false ->
  TrimRight (w ++ " " ++ rest) crlf = w ++ " " ++ TrimRight rest crlf.
Proof.
  intros H. rewrite TrimRight_app.
  change (TrimRight (" " ++ rest) crlf) with
    (match TrimRight rest crlf with
     | EmptyString => " "
     | String _ _ as t => String " " t
     end).
  destruct (TrimRight rest crlf); [discriminate | reflexivity].
Qed.

(** On a line that starts with a word and a space, the next parameter is
    that word, and the parser goes on after the space. *)
Lemma next_word_then_more (w rest : string) :
  isWord w = true ->
  isEmpty (TrimRight rest crlf) = false ->
  nextSpaceDelimitedParameter {| line := w ++ " " ++ rest |}
  = ((w, None), {| line := TrimRight rest crlf |}).
Proof.
  intros Hw Hrest. destruct (isWord_parts _ Hw) as (Hne & Hsp & _).
  unfold nextSpaceDelimitedParameter. cbn [line].
  rewrite (TrimRight_skip_word _ _ Hrest).
  rewrite (isEmpty_app_word _ _ Hne), (Cut_at_space _ _ Hsp), Hne.
  reflexivity.
Qed.

(** On a line that is one word, the next parameter is that word and
    nothing is left. *)
Lemma next_last_word (w t : string) :
  isWord w = true -> allOf crlf t = true ->
  nextSpaceDelimitedParameter {| line := w ++ t |}
  = ((w, None), {| line := "" |}).
Proof.
  intros Hw Ht. destruct (isWord_parts _ Hw) as (Hne & Hsp & _).
  unfold nextSpaceDelimitedParameter. cbn [line].
  pose proof (TrimRight_ends_with_word "" w t Hw Ht) as E. simpl in E.
  rewrite E, Hne, (Cut_no_space _ Hsp). reflexivity.
Qed.

Lemma next_exhausted :
  nextSpaceDelimitedParameter {| line := "" |}
  = (("", Some (errorString "nothing remains to parse")), {| line := "" |}).
Proof. reflexivity. Qed.

Lemma finalParameter_trimmed (s : string) :
  TrimRight s crlf = s -> isEmpty s = false ->
  finalParameter {| line := s |} = (s, {| line := "" |}).
Proof.
  intros Htrim Hne. unfold finalParameter. cbn [line].
  now rewrite Htrim, Hne.
Qed.

(** C1, as the code has it. On a line of three words [a b c], with or
    without its line ending, three successive calls of
    [nextSpaceDelimitedParameter] yield [a], [b] and [c], and it is the
    fourth call that reports that nothing remains to parse. On a line
    of four words [a b c d], two calls followed by [finalParameter] yield
    [a], [b] and [c d]. *)
Theorem tokenizer_words (a b c d t : string) :
  isWord a = true -> isWord b = true -> isWord c = true ->
  isWord d = true -> allOf crlf t = true ->
  ( nextSpaceDelimitedParameter {| line := a ++ " " ++ b ++ " " ++ c ++ t |}
    = ((a, None), {| line := b ++ " " ++ c |})
    /\ nextSpaceDelimitedParameter {| line := b ++ " " ++ c |}
       = ((b, None), {| line := c |})
    /\ nextSpaceDelimitedParameter {| line := c |}
       = ((c, None), {| line := "" |})
    /\ nextSpaceDelimitedParameter {| line := "" |}
       = (("", Some (errorString "nothing remains to parse")),
          {| line := "" |}) )
  /\
  ( nextSpaceDelimitedParameter
      {| line := a ++ " " ++ b ++ " " ++ c ++ " " ++ d ++ t |}
    = ((a, None), {| line := b ++ " " ++ c ++ " " ++ d |})
    /\ nextSpaceDelimitedParameter {| line := b ++ " " ++ c ++ " " ++ d |}
       = ((b, None), {| line := c ++ " " ++ d |})
    /\ finalParameter {| line := c ++ " " ++ d |}
       = (c ++ " " ++ d, {| line := "" |}) ).
Proof.
  intros Ha Hb Hc Hd Ht.
  assert (Hnil : allOf crlf "" = true) by reflexivity.
  destruct (isWord_parts _ Hb) as (Hbne & _).
  destruct (isWord_parts _ Hc) as (Hcne & _).
  destruct (isWord_parts _ Hd) as (Hdne & _).
  assert (Tword : forall w e, isWord w = true -> allOf crlf e = true ->
                    TrimRight (w ++ e) crlf = w).
  { intros w e Hw He. apply (TrimRight_ends_with_word "" w e Hw He). }
  assert (Tc : TrimRight c crlf = c).
  { rewrite <- (append_empty_r c) at 1. now apply Tword. }
  assert (Td : TrimRight d crlf = d).
  { rewrite <- (append_empty_r d) at 1. now apply Tword. }
  assert (Tcd : forall e, allOf crlf e = true ->
                  TrimRight (c ++ " " ++ d ++ e) crlf = c ++ " " ++ d).
  { intros e He. rewrite TrimRight_skip_word; rewrite (Tword d e Hd He);
      [reflexivity | exact Hdne]. }
  assert (Tbc : forall e, allOf crlf e = true ->
                  TrimRight (b ++ " " ++ c ++ e) crlf = b ++ " " ++ c).
  { intros e He. rewrite TrimRight_skip_word; rewrite (Tword c e Hc He);
      [reflexivity | exact Hcne]. }
  assert (Tbcd : forall e, allOf crlf e = true ->
                   TrimRight (b ++ " " ++ c ++ " " ++ d ++ e) crlf
                   = b ++ " " ++ c ++ " " ++ d).
  { intros e He. rewrite TrimRight_skip_word; rewrite (Tcd e He);
      [reflexivity | now apply isEmpty_app_word]. }
  split; [split; [|split; [|split]] | split; [|split]].
  - rewrite next_word_then_more; rewrite ?(Tbc t Ht);
      [reflexivity | exact Ha | now apply isEmpty_app_word].
  - rewrite next_word_then_more; rewrite ?Tc;
      [reflexivity | exact Hb | exact Hcne].
  - rewrite <- (append_empty_r c) at 1. now apply next_last_word.
  - apply next_exhausted.
  - rewrite next_word_then_more; rewrite ?(Tbcd t Ht);
      [reflexivity | exact Ha | now apply isEmpty_app_word].
  - rewrite next_word_then_more.
    + pose proof (Tcd "" Hnil) as E. rewrite append_empty_r in E.
      now rewrite E.
    + exact Hb.
    + pose proof (Tcd "" Hnil) as E. rewrite append_empty_r in E.
      rewrite E. now apply isEmpty_app_word.
  - apply finalParameter_trimmed.
    + pose proof (Tcd "" Hnil) as E. now rewrite append_empty_r in E.
    + now apply isEmpty_app_word.
Qed.

(** ** Sending and receiving, step by step *)

Lemma sendMsg_emit (msg : string) (p : process) :
  healthy p = true -> sendMsg msg p = (Val tt, emit msg p).
Proof.
  destruct p as [s e w]. destruct s; destruct writer0 as [wc we];
    destruct e as [ec ee].
  unfold healthy, sendMsg, emit, logged, bind, writeOut, writeStderr,
    getServer, WriteString, ret. cbn.
  destruct we; [discriminate|]. cbn.
  destruct verbose0; cbn; [|reflexivity].
  destruct ee; [discriminate | reflexivity].
Qed.

Lemma healthy_emit (msg : string) (p : process) :
  healthy (emit msg p) = healthy p.
Proof.
  destruct p as [s e w]. destruct s; destruct writer0 as [wc we];
    destruct e as [ec ee].
  unfold healthy, emit, logged. cbn.
  destruct verbose0; reflexivity.
Qed.

Lemma self_logged (entry : string) (p : process) :
  self (logged entry p) = self p.
Proof. unfold logged. now destruct (verbose (self p)). Qed.

Lemma world_logged (entry : string) (p : process) :
  world (logged entry p) = world p.
Proof. unfold logged. now destruct (verbose (self p)). Qed.

Lemma self_emit (msg : string) (p : process) :
  self (emit msg p)
  = set_writer {| chunks := (sent p ++ [(msg ++ newline)%string])%list;
                  werr := werr (writer (self p)) |} (self p).
Proof. unfold emit. now rewrite self_logged. Qed.

Lemma world_emit (msg : string) (p : process) :
  world (emit msg p) = world p.
Proof. unfold emit. now rewrite world_logged. Qed.

Lemma sent_emit (msg : string) (p : process) :
  sent (emit msg p) = (sent p ++ [(msg ++ newline)%string])%list.
Proof. unfold sent at 1. now rewrite self_emit. Qed.

Lemma unread_emit (msg : string) (p : process) :
  unread (emit msg p) = unread p.
Proof. unfold unread. now rewrite self_emit. Qed.

Lemma self_taken (msg rest : string) (p : process) :
  self (taken msg rest p)
  = set_reader {| rbuf := rest; rerr := rerr (reader (self p)) |} (self p).
Proof. unfold taken. now rewrite self_logged. Qed.

Lemma world_taken (msg rest : string) (p : process) :
  world (taken msg rest p) = world p.
Proof. unfold taken. now rewrite world_logged. Qed.

Lemma healthy_taken (msg rest : string) (p : process) :
  healthy (taken msg rest p) = healthy p.
Proof.
  destruct p as [s e w]. destruct s. unfold healthy, taken, logged. cbn.
  destruct verbose0; reflexivity.
Qed.

Lemma unread_taken (msg rest : string) (p : process) :
  unread (taken msg rest p) = rest.
Proof. unfold unread. now rewrite self_taken. Qed.

Lemma sent_taken (msg rest : string) (p : process) :
  sent (taken msg rest p) = sent p.
Proof. unfold sent. now rewrite self_taken. Qed.

Lemma not_LF (c : ascii) :
  negb (inCutset c newline) = true -> Ascii.eqb c LF = false.
Proof.
  unfold newline. cbn [inCutset].
  destruct (Ascii.eqb c LF); [discriminate | reflexivity].
Qed.

Lemma throughDelim_line (l rest : string) :
  noneOf newline l = true ->
  throughDelim LF (l ++ newline ++ rest) = Some (l ++ newline, rest).
Proof.
  induction l as [|c l IH]; cbn [noneOf append throughDelim].
  - intros _. unfold newline. cbn. reflexivity.
  - intros H. apply andb_true_iff in H as [Hc Hl].
    rewrite (not_LF _ Hc).
    change (l ++ String LF rest) with (l ++ newline ++ rest).
    now rewrite (IH Hl).
Qed.

Lemma throughDelim_none (s : string) :
  noneOf newline s = true -> throughDelim LF s = None.
Proof.
  induction s as [|c s IH]; cbn [noneOf throughDelim]; [reflexivity|].
  intros H. apply andb_true_iff in H as [Hc Hs].
  now rewrite (not_LF _ Hc), (IH Hs).
Qed.

(** A whole line is waiting: [getMsg] yields its parser. *)
Lemma getMsg_line (l rest : string) (p : process) :
  healthy p = true ->
  unread p = l ++ newline ++ rest ->
  noneOf newline l = true ->
  getMsg p = (Val (Some {| line := l ++ newline |}, None),
              taken (l ++ newline) rest p).
Proof.
  intros Hh Hu Hl.
  destruct p as [s e w]. destruct s; destruct reader0 as [rb re];
    destruct e as [ec ee]. unfold unread in Hu.
  cbn [self reader rbuf] in Hu. subst rb.
  unfold healthy in Hh. cbn in Hh.
  unfold getMsg, bind, readLine, ReadString, getServer, writeStderr,
    WriteString, taken, logged, ret.
  cbn [self reader rbuf rerr].
  rewrite (throughDelim_line _ _ Hl). cbn.
  destruct verbose0; cbn; [|reflexivity].
  destruct ee; [|reflexivity].
  destruct (werr writer0); discriminate.
Qed.

(** Nothing is waiting and the stream is at its end: [getMsg] yields
    [(nil, nil)]. *)
Lemma getMsg_end (p : process) :
  unread p = "" -> getMsg p = (Val (None, None), p).
Proof.
  intros Hu.
  destruct p as [s e w]. destruct s; destruct reader0 as [rb re].
  unfold unread in Hu. cbn in Hu. subst rb. reflexivity.
Qed.

(** The stream ends within a line: [getMsg] yields an error. *)
Lemma getMsg_partial (p : process) :
  isEmpty (unread p) = false ->
  noneOf newline (unread p) = true ->
  getMsg p = (Val (None, Some (errorString
                ("expected message to end with newline: "
                   ++ quote (unread p)))),
              drained p).
Proof.
  intros Hne Hl.
  destruct p as [s e w]. destruct s; destruct reader0 as [rb re].
  unfold unread in *. cbn in Hne, Hl.
  unfold getMsg, bind, readLine, ReadString, ret, drained, withServer.
  cbn [self reader rbuf rerr].
  rewrite (throughDelim_none _ Hl). cbn. rewrite Hne. reflexivity.
Qed.

(** ** Relations that the computations keep

    For a reflexive and transitive [R] that the four accesses to the
    outside keep (a write to [s.writer] when the chunk satisfies [Q]),
    so do the computations built from them. *)

Lemma planAsks_all (Q : string -> Prop) (plan : fsStringPlan) :
  (forall chunk, Q chunk) -> planAsks Q plan.
Proof.
  intros HQ. induction plan as [fsString err | msg next IH];
    cbn [planAsks]; auto.
Qed.

Section Frame.

Variable R : process -> process -> Prop.
Variable Q : string -> Prop.
Hypothesis R_refl : forall p, R p p.
Hypothesis R_trans : forall p q r, R p q -> R q r -> R p r.
Hypothesis R_writeOut : forall msg, Q msg -> preserves R (writeOut msg).
Hypothesis R_writeStderr : forall msg, preserves R (writeStderr msg).
Hypothesis R_readLine : forall delim, preserves R (readLine delim).
Hypothesis R_backend :
  forall A (f : World -> A * World), preserves R (backend f).

Lemma preserves_ret {A} (a : A) : preserves R (ret a).
Proof. intros p. apply R_refl. Qed.

Lemma preserves_panic {A} (v : goerror) : preserves R (@panic A v).
Proof. intros p. apply R_refl. Qed.

Lemma preserves_getServer : preserves R getServer.
Proof. intros p. apply R_refl. Qed.

Lemma preserves_liftResult {A} (r : result A) : preserves R (liftResult r).
Proof. intros p. apply R_refl. Qed.

Lemma preserves_bind {A B} (m : M A) (f : A -> M B) :
  preserves R m -> (forall a, preserves R (f a)) -> preserves R (bind m f).
Proof.
  intros Hm Hf p. unfold bind. specialize (Hm p).
  destruct (m p) as [[a|v] p1]; cbn [snd] in *; [|exact Hm].
  exact (R_trans _ _ _ Hm (Hf a p1)).
Qed.

(** One step of the proof that a computation keeps [R]: through a
    [bind], a [match] or a leaf. *)
Ltac frame_step :=
  match goal with
  | |- preserves _ (bind _ _) => apply preserves_bind; [|intro]
  | |- preserves _ (ret _) => apply preserves_ret
  | |- preserves _ (panic _) => apply preserves_panic
  | |- preserves _ getServer => apply preserves_getServer
  | |- preserves _ (liftResult _) => apply preserves_liftResult
  | |- preserves _ (backend _) => apply R_backend
  | |- preserves _ (writeStderr _) => apply R_writeStderr
  | |- preserves _ (readLine _) => apply R_readLine
  | |- preserves _ (match ?x with _ => _ end) => destruct x
  end.

Lemma frame_sendMsg (msg : string) :
  Q (msg ++ newline) -> preserves R (sendMsg msg).
Proof.
  intros HQ. unfold sendMsg.
  apply preserves_bind; [now apply R_writeOut | intro].
  repeat frame_step.
Qed.

Lemma frame_getMsg : preserves R getMsg.
Proof. unfold getMsg. repeat frame_step. Qed.

Lemma frame_queryDirhash (msg : string) :
  Q (msg ++ newline) -> preserves R (queryDirhash msg).
Proof.
  intros HQ. unfold queryDirhash.
  apply preserves_bind; [now apply frame_sendMsg | intro].
  apply preserves_bind; [apply frame_getMsg | intro].
  repeat frame_step.
Qed.

Lemma frame_runPlan (plan : fsStringPlan) :
  planAsks Q plan -> preserves R (runPlan plan).
Proof.
  induction plan as [fsString err | msg next IH]; cbn [runPlan planAsks].
  - intros _. apply preserves_ret.
  - intros [HQ Hnext].
    apply preserves_bind; [now apply frame_queryDirhash | intros [d e]].
    apply IH, Hnext.
Qed.

(** REMOVE: nothing but the plan's questions and REMOVE responses. *)
Lemma frame_handleRemove (message : messageParser) :
  (forall layout key remoteName prefix,
      planAsks Q (buildFsString layout key remoteName prefix)) ->
  (forall chunk, HasPrefix chunk "REMOVE-" = true -> Q chunk) ->
  preserves R (handleRemove message).
Proof.
  intros Hplan HQ. unfold handleRemove.
  repeat first
    [ frame_step
    | apply frame_sendMsg; apply HQ; reflexivity
    | apply frame_runPlan; apply Hplan ].
Qed.

(** The computations that also update the server: for an [R] that
    those updates keep, and a [Q] that holds of every chunk. *)
Section Updates.

Hypothesis Q_all : forall chunk, Q chunk.
Hypothesis R_assign :
  forall d v, preserves R (modifyServer (assign d v)).

Ltac frame_more :=
  first
    [ frame_step
    | apply frame_sendMsg; apply Q_all
    | apply frame_getMsg
    | apply R_assign
    | apply frame_runPlan; apply planAsks_all; apply Q_all ].

Lemma frame_queryNames (config : configDefinition)
    (configNames : list string) :
  preserves R (queryNames config configNames).
Proof.
  induction configNames as [|configName rest IH]; cbn [queryNames].
  - apply preserves_ret.
  - repeat first [ exact IH | frame_more ].
Qed.

Lemma frame_queryConfig (config : configDefinition) :
  preserves R (queryConfig config).
Proof.
  unfold queryConfig, getCanonicalName.
  repeat first [ apply frame_queryNames | frame_more ].
Qed.

Lemma frame_queryEach (configs : list configDefinition) :
  preserves R (queryEach configs).
Proof.
  induction configs as [|config rest IH]; cbn [queryEach].
  - apply preserves_ret.
  - repeat first [ exact IH | apply frame_queryConfig | frame_more ].
Qed.

Hypothesis R_done : preserves R (modifyServer (set_configsDone true)).

Lemma frame_queryConfigs : preserves R queryConfigs.
Proof.
  unfold queryConfigs.
  repeat first [ apply frame_queryEach | exact R_done | frame_more ].
Qed.

Lemma frame_handlePrepare : preserves R handlePrepare.
Proof.
  unfold handlePrepare.
  repeat first [ apply frame_queryConfigs | frame_more ].
Qed.

Lemma frame_handleInitRemote : preserves R handleInitRemote.
Proof.
  unfold handleInitRemote.
  repeat first [ apply frame_queryConfigs | frame_more ].
Qed.

Lemma frame_handleTransfer (message : messageParser) :
  preserves R (handleTransfer message).
Proof.
  unfold handleTransfer.
  repeat first [ apply frame_queryConfigs | frame_more ].
Qed.

Lemma frame_handleCheckPresent (message : messageParser) :
  preserves R (handleCheckPresent message).
Proof.
  unfold handleCheckPresent.
  repeat first [ apply frame_queryConfigs | frame_more ].
Qed.

Lemma frame_listEach (configs : list configDefinition) :
  preserves R (listEach configs).
Proof.
  induction configs as [|config rest IH]; cbn [listEach].
  - apply preserves_ret.
  - unfold getCanonicalName. repeat first [ exact IH | frame_more ].
Qed.

Lemma frame_handleListConfigs : preserves R handleListConfigs.
Proof.
  unfold handleListConfigs.
  repeat first [ apply frame_listEach | frame_more ].
Qed.

Hypothesis R_note :
  forall extension, preserves R (modifyServer (noteExtension extension)).

Lemma frame_eachExtension (fuel : nat) (message : messageParser) :
  preserves R (eachExtension fuel message).
Proof.
  revert message. induction fuel as [|fuel IH]; intros message;
    cbn [eachExtension].
  - apply preserves_ret.
  - repeat first [ apply IH | apply R_note | frame_more ].
Qed.

Lemma frame_handleExtensions (message : messageParser) :
  preserves R (handleExtensions message).
Proof.
  unfold handleExtensions.
  repeat first [ apply frame_eachExtension | frame_more ].
Qed.

Lemma frame_dispatch (command : string) (message : messageParser) :
  preserves R (dispatch command message).
Proof.
  unfold dispatch.
  repeat first
    [ apply frame_handleInitRemote | apply frame_handlePrepare
    | apply frame_handleTransfer | apply frame_handleCheckPresent
    | apply frame_handleRemove;
        [intros; apply planAsks_all; apply Q_all | intros; apply Q_all]
    | apply frame_handleExtensions | apply frame_handleListConfigs
    | frame_more ].
Qed.

Lemma frame_runLoop (fuel : nat) : preserves R (runLoop fuel).
Proof.
  induction fuel as [|fuel IH]; cbn [runLoop].
  - apply preserves_ret.
  - repeat first [ exact IH | apply frame_dispatch | frame_more ].
Qed.

End Updates.

End Frame.

(** ** The accesses to the outside, one relation at a time *)

Ltac open_process p :=
  let s := fresh "s" in
  let e := fresh "e" in
  let w := fresh "w" in
  destruct p as [s e w]; destruct s.

Ltac run_access :=
  unfold preserves, writeOut, writeStderr, readLine, backend, modifyServer,
    WriteString, ReadString;
  let p := fresh "p" in
  intros p; open_process p; cbn [self Stderr world reader writer];
  repeat match goal with
    | |- context [match ?x with _ => _ end] => destruct x
    end;
  cbn.

(** *** The streams stay usable *)

Lemma sameStreams_refl (p : process) : sameStreams p p.
Proof. unfold sameStreams. auto. Qed.

Lemma sameStreams_trans (p q r : process) :
  sameStreams p q -> sameStreams q r -> sameStreams p r.
Proof.
  unfold sameStreams. intros (A1 & A2 & A3) (B1 & B2 & B3).
  repeat split; congruence.
Qed.

Lemma sameStreams_healthy (p p' : process) :
  sameStreams p p' -> healthy p' = healthy p.
Proof.
  unfold sameStreams, healthy. intros (A1 & A2 & A3).
  now rewrite A1, A2, A3.
Qed.

Lemma sameStreams_writeOut (msg : string) :
  preserves sameStreams (writeOut msg).
Proof.
  intros p. open_process p. unfold writeOut, WriteString, sameStreams.
  cbn [self writer]. destruct (werr writer0) eqn:E; cbn; auto.
Qed.

Lemma sameStreams_writeStderr (msg : string) :
  preserves sameStreams (writeStderr msg).
Proof.
  intros p. open_process p. unfold writeStderr, WriteString, sameStreams.
  cbn [Stderr]. destruct (werr e) eqn:E; cbn; auto.
Qed.

Lemma sameStreams_readLine (delim : ascii) :
  preserves sameStreams (readLine delim).
Proof. run_access; unfold sameStreams; cbn; auto. Qed.

Lemma sameStreams_backend A (f : World -> A * World) :
  preserves sameStreams (backend f).
Proof. run_access; unfold sameStreams; cbn; auto. Qed.

Lemma sameStreams_assign (d : configField) (v : string) :
  preserves sameStreams (modifyServer (assign d v)).
Proof. intros p. destruct d; unfold sameStreams; cbn; auto. Qed.

Lemma sameStreams_done :
  preserves sameStreams (modifyServer (set_configsDone true)).
Proof. intros p. unfold sameStreams; cbn; auto. Qed.

Lemma sameStreams_note (extension : string) :
  preserves sameStreams (modifyServer (noteExtension extension)).
Proof.
  intros p. unfold sameStreams, noteExtension, modifyServer. cbn [snd self].
  repeat match goal with
    | |- context [if ?b then _ else _] => destruct b
    end; cbn; auto.
Qed.

Ltac streams_side :=
  first
    [ exact sameStreams_refl | exact sameStreams_trans
    | exact sameStreams_writeStderr | exact sameStreams_readLine
    | exact sameStreams_backend | exact sameStreams_assign
    | exact sameStreams_done | exact sameStreams_note
    | intros ? _; apply sameStreams_writeOut
    | exact (fun _ : string => I) ].

(** Whatever the process does, its streams stay as usable as they were. *)
Lemma healthy_queryConfigs (p : process) :
  healthy (snd (queryConfigs p)) = healthy p.
Proof.
  apply sameStreams_healthy.
  apply frame_queryConfigs with (Q := fun _ : string => True);
    streams_side.
Qed.

Lemma healthy_runPlan (plan : fsStringPlan) (p : process) :
  healthy (snd (runPlan plan p)) = healthy p.
Proof.
  apply sameStreams_healthy.
  apply frame_runPlan with (Q := fun _ : string => True);
    try streams_side.
  apply planAsks_all. exact (fun _ => I).
Qed.

(** *** The config fields stay as they are *)

Lemma sameConfig_refl (p : process) : sameConfig p p.
Proof. unfold sameConfig. auto. Qed.

Lemma sameConfig_trans (p q r : process) :
  sameConfig p q -> sameConfig q r -> sameConfig p r.
Proof.
  unfold sameConfig. intros (A1 & A2 & A3 & A4) (B1 & B2 & B3 & B4).
  repeat split; congruence.
Qed.

Lemma sameConfig_writeOut (msg : string) :
  preserves sameConfig (writeOut msg).
Proof. run_access; unfold sameConfig; cbn; auto. Qed.

Lemma sameConfig_writeStderr (msg : string) :
  preserves sameConfig (writeStderr msg).
Proof. run_access; unfold sameConfig; cbn; auto. Qed.

Lemma sameConfig_readLine (delim : ascii) :
  preserves sameConfig (readLine delim).
Proof. run_access; unfold sameConfig; cbn; auto. Qed.

Lemma sameConfig_backend A (f : World -> A * World) :
  preserves sameConfig (backend f).
Proof. run_access; unfold sameConfig; cbn; auto. Qed.

(** *** The configs-resolved flag stays as it is *)

Lemma sameDone_refl (p : process) : sameDone p p.
Proof. reflexivity. Qed.

Lemma sameDone_trans (p q r : process) :
  sameDone p q -> sameDone q r -> sameDone p r.
Proof. unfold sameDone. congruence. Qed.

Lemma sameDone_writeOut (msg : string) : preserves sameDone (writeOut msg).
Proof. run_access; reflexivity. Qed.

Lemma sameDone_writeStderr (msg : string) :
  preserves sameDone (writeStderr msg).
Proof. run_access; reflexivity. Qed.

Lemma sameDone_readLine (delim : ascii) :
  preserves sameDone (readLine delim).
Proof. run_access; reflexivity. Qed.

Lemma sameDone_assign (d : configField) (v : string) :
  preserves sameDone (modifyServer (assign d v)).
Proof. intros p. destruct d; reflexivity. Qed.

(** *** What is sent *)

Lemma sentOnly_refl (Q : string -> Prop) (p : process) : sentOnly Q p p.
Proof. exists []. split; [now rewrite app_nil_r | constructor]. Qed.

Lemma sentOnly_trans (Q : string -> Prop) (p q r : process) :
  sentOnly Q p q -> sentOnly Q q r -> sentOnly Q p r.
Proof.
  intros (m1 & E1 & F1) (m2 & E2 & F2). exists (m1 ++ m2)%list. split.
  - now rewrite E2, E1, app_assoc.
  - apply Forall_app. auto.
Qed.

Lemma sentOnly_same (Q : string -> Prop) (p p' : process) :
  sent p' = sent p -> sentOnly Q p p'.
Proof.
  intros E. exists []. split; [now rewrite app_nil_r | constructor].
Qed.

Lemma sentOnly_writeOut (Q : string -> Prop) (msg : string) :
  Q msg -> preserves (sentOnly Q) (writeOut msg).
Proof.
  intros HQ p. open_process p. unfold writeOut, WriteString.
  cbn [self writer]. destruct (werr writer0) eqn:E; cbn [snd].
  - apply sentOnly_same. reflexivity.
  - exists [msg]. split; [reflexivity | now constructor].
Qed.

Lemma sentOnly_writeStderr (Q : string -> Prop) (msg : string) :
  preserves (sentOnly Q) (writeStderr msg).
Proof. run_access; apply sentOnly_same; reflexivity. Qed.

Lemma sentOnly_readLine (Q : string -> Prop) (delim : ascii) :
  preserves (sentOnly Q) (readLine delim).
Proof. run_access; apply sentOnly_same; reflexivity. Qed.

Lemma sentOnly_backend (Q : string -> Prop) A (f : World -> A * World) :
  preserves (sentOnly Q) (backend f).
Proof. run_access; apply sentOnly_same; reflexivity. Qed.

Lemma sentOnly_assign (Q : string -> Prop) (d : configField) (v : string) :
  preserves (sentOnly Q) (modifyServer (assign d v)).
Proof. intros p. apply sentOnly_same. destruct d; reflexivity. Qed.

Lemma sentOnly_done (Q : string -> Prop) :
  preserves (sentOnly Q) (modifyServer (set_configsDone true)).
Proof. intros p. apply sentOnly_same. reflexivity. Qed.

Lemma sentOnly_note (Q : string -> Prop) (extension : string) :
  preserves (sentOnly Q) (modifyServer (noteExtension extension)).
Proof.
  intros p. apply sentOnly_same. unfold noteExtension, modifyServer.
  cbn [snd self].
  repeat match goal with
    | |- context [if ?b then _ else _] => destruct b
    end; reflexivity.
Qed.

(** *** What is left to read *)

Lemma notLonger_refl (p : process) : notLonger p p.
Proof. unfold notLonger. lia. Qed.

Lemma notLonger_trans (p q r : process) :
  notLonger p q -> notLonger q r -> notLonger p r.
Proof. unfold notLonger. lia. Qed.

Lemma throughDelim_length (delim : ascii) (s l rest : string) :
  throughDelim delim s = Some (l, rest) ->
  String.length rest < String.length s.
Proof.
  revert l rest. induction s as [|c s IH]; intros l rest;
    cbn [throughDelim]; [discriminate|].
  destruct (Ascii.eqb c delim).
  - intros E. injection E as _ <-. cbn. lia.
  - destruct (throughDelim delim s) as [[l' r']|]; [|discriminate].
    intros E. injection E as _ <-. specialize (IH _ _ eq_refl). cbn. lia.
Qed.

Lemma notLonger_writeOut (msg : string) : preserves notLonger (writeOut msg).
Proof. run_access; unfold notLonger, unread; cbn; lia. Qed.

Lemma notLonger_writeStderr (msg : string) :
  preserves notLonger (writeStderr msg).
Proof. run_access; unfold notLonger, unread; cbn; lia. Qed.

Lemma notLonger_readLine (delim : ascii) :
  preserves notLonger (readLine delim).
Proof.
  intros p. open_process p. unfold readLine, ReadString, notLonger, unread.
  cbn [self reader]. destruct reader0 as [rb re]. cbn [rbuf rerr].
  destruct (throughDelim delim rb) as [[l rest]|] eqn:E; cbn.
  - apply throughDelim_length in E. lia.
  - lia.
Qed.

Lemma notLonger_backend A (f : World -> A * World) :
  preserves notLonger (backend f).
Proof. run_access; unfold notLonger, unread; cbn; lia. Qed.

Lemma notLonger_assign (d : configField) (v : string) :
  preserves notLonger (modifyServer (assign d v)).
Proof. intros p. destruct d; unfold notLonger, unread; cbn; lia. Qed.

Lemma notLonger_done :
  preserves notLonger (modifyServer (set_configsDone true)).
Proof. intros p. unfold notLonger, unread; cbn; lia. Qed.

Lemma notLonger_note (extension : string) :
  preserves notLonger (modifyServer (noteExtension extension)).
Proof.
  intros p. unfold notLonger, unread, noteExtension, modifyServer.
  cbn [snd self].
  repeat match goal with
    | |- context [if ?b then _ else _] => destruct b
    end; cbn; lia.
Qed.

(** No command puts bytes back on the inbound stream. *)
Lemma notLonger_dispatch (command : string) (message : messageParser) :
  preserves notLonger (dispatch command message).
Proof.
  apply frame_dispatch with (Q := fun _ : string => True);
    first
      [ exact notLonger_refl | exact notLonger_trans
      | exact notLonger_writeStderr | exact notLonger_readLine
      | exact notLonger_backend | exact notLonger_assign
      | exact notLonger_done | exact notLonger_note
      | intros ? _; apply notLonger_writeOut
      | exact (fun _ : string => I) ].
Qed.

(** A message that is read takes at least one byte from the stream. *)
Lemma getMsg_consumes (p p1 : process) (message : messageParser) :
  getMsg p = (Val (Some message, None), p1) ->
  String.length (unread p1) < String.length (unread p).
Proof.
  open_process p. destruct reader0 as [rb re].
  unfold getMsg, bind, readLine, ReadString, getServer, writeStderr,
    WriteString, ret, unread.
  cbn [self reader rbuf rerr].
  destruct (throughDelim LF rb) as [[l rest]|] eqn:E.
  - apply throughDelim_length in E. cbn.
    destruct verbose0; cbn.
    + destruct (werr e); cbn; intros H; inversion H; subst; cbn; lia.
    + intros H; inversion H; subst; cbn; lia.
  - cbn. destruct (isEmpty rb); intros H; inversion H.
Qed.

(** The loop of [run] ends before a bound above the number of bytes left
    to read is used up, and what it yields does not depend on the
    bound. *)
Lemma runLoop_fuel (fuel : nat) :
  forall (fuel' : nat) (p : process),
    String.length (unread p) < fuel ->
    String.length (unread p) < fuel' ->
    runLoop fuel p = runLoop fuel' p
    /\ fst (runLoop fuel p) <> Val OutOfFuel.
Proof.
  induction fuel as [|fuel IH]; intros fuel' p Hf Hf'; [lia|].
  destruct fuel' as [|fuel']; [lia|].
  cbn [runLoop]. unfold bind at 1 3 5.
  destruct (getMsg p) as [[[[message|] [e|]]|v] p1] eqn:G; cbn [fst];
    try (split; [reflexivity | discriminate]).
  apply getMsg_consumes in G.
  destruct (nextSpaceDelimitedParameter message) as [[command [e|]] message'];
    try (split; [reflexivity | discriminate]).
  unfold bind.
  pose proof (notLonger_dispatch command message' p1) as D.
  unfold notLonger in D.
  destruct (dispatch command message' p1) as [[[e|]|v] p2]; cbn [snd fst] in *;
    try (split; [reflexivity | discriminate]).
  apply IH; lia.
Qed.

(** [run] returns, or panics: its loop never stops for want of rounds. *)
Lemma run_returns (p : process) : fst (run p) <> Val OutOfFuel.
Proof.
  unfold run. unfold bind at 1.
  destruct (sendMsg "VERSION 1" p) as [[[]|v] p1]; [|discriminate].
  unfold bind, getServer.
  apply (runLoop_fuel _ (S (String.length (unread p1))) p1);
    unfold unread; lia.
Qed.

(** *** The loop over the extensions *)

Lemma TrimRight_length (s cs : string) :
  String.length (TrimRight s cs) <= String.length s.
Proof.
  induction s as [|c s IH]; cbn [TrimRight]; [cbn; lia|].
  destruct (TrimRight s cs) as [|d t].
  - destruct (inCutset c cs); cbn; lia.
  - cbn in *. lia.
Qed.

Lemma Cut_found_length (s before after : string) :
  Cut s " " = (before, after, true) ->
  String.length after < String.length s.
Proof.
  revert before after. induction s as [|c s IH]; intros before after.
  - cbn. discriminate.
  - rewrite Cut_space_cons. destruct (Ascii.eqb " " c).
    + intros E. injection E as _ <-. cbn. lia.
    + destruct (Cut s " ") as [[b a] [|]]; [|discriminate].
      intros E. injection E as _ <-. specialize (IH _ _ eq_refl). cbn. lia.
Qed.

(** A parameter that is consumed shortens the line. *)
Lemma next_shortens (m m' : messageParser) (param : string) :
  nextSpaceDelimitedParameter m = ((param, None), m') ->
  String.length (line m') < String.length (line m).
Proof.
  unfold nextSpaceDelimitedParameter. cbn [line].
  pose proof (TrimRight_length (line m) crlf) as L.
  destruct (TrimRight (line m) crlf) as [|c t] eqn:E; cbn [isEmpty];
    [discriminate|].
  destruct (Cut (String c t) " ") as [[before after] [|]] eqn:C.
  - apply Cut_found_length in C.
    destruct (isEmpty before); [discriminate|].
    intros H. injection H as _ <-. cbn [line]. lia.
  - intros H. injection H as _ <-. cbn in *. lia.
Qed.

(** The bound [handleExtensions] gives the loop is never used up: any
    bound above the length of the line gives the same. *)
Lemma eachExtension_fuel (fuel : nat) :
  forall (fuel' : nat) (message : messageParser) (p : process),
    String.length (line message) < fuel ->
    String.length (line message) < fuel' ->
    eachExtension fuel message p = eachExtension fuel' message p.
Proof.
  induction fuel as [|fuel IH]; intros fuel' message p Hf Hf'; [lia|].
  destruct fuel' as [|fuel']; [lia|].
  cbn [eachExtension].
  destruct (nextSpaceDelimitedParameter message)
    as [[extension [e|]] message'] eqn:N; [reflexivity|].
  apply next_shortens in N. unfold bind, modifyServer.
  apply IH; lia.
Qed.

(** ** Config negotiation *)

Lemma queryConfigs_when_done (p : process) :
  configsDone (self p) = true -> queryConfigs p = (Val None, p).
Proof.
  intros Hd. unfold queryConfigs, bind, getServer. now rewrite Hd.
Qed.

Lemma queryConfigs_success_sets_flag (p p1 : process) :
  queryConfigs p = (Val None, p1) -> configsDone (self p1) = true.
Proof.
  unfold queryConfigs, bind, getServer.
  destruct (configsDone (self p)) eqn:Hd.
  - unfold ret. intros E. inversion E. now subst.
  - destruct (queryEach getRequiredConfigs p) as [[[e|]|v] p2];
      unfold ret, modifyServer; intros E; inversion E. reflexivity.
Qed.

(** C2. With the configs-resolved flag set, [queryConfigs] returns no
    error and leaves the whole process as it is: nothing is sent,
    nothing is read, no config field changes. An invocation that
    succeeded leaves the flag set, so the next one is of that kind. *)
Theorem queryConfigs_idempotent (p : process) :
  (configsDone (self p) = true -> queryConfigs p = (Val None, p))
  /\ (forall p1, queryConfigs p = (Val None, p1) ->
        queryConfigs p1 = (Val None, p1)).
Proof.
  split.
  - apply queryConfigs_when_done.
  - intros p1 H. apply queryConfigs_when_done.
    exact (queryConfigs_success_sets_flag _ _ H).
Qed.

(** ** The handlers of the keyed commands *)

Lemma healthy_inWorld (w : World) (p : process) :
  healthy (inWorld w p) = healthy p.
Proof. reflexivity. Qed.

Lemma isUnknown_false (layout : layoutMode) :
  layout <> layoutModeUnknown -> isUnknown layout = false.
Proof.
  intros H. unfold isUnknown.
  destruct (layoutMode_eq_dec layout layoutModeUnknown); [contradiction|].
  reflexivity.
Qed.

Lemma isUnknown_true (layout : layoutMode) :
  layout = layoutModeUnknown -> isUnknown layout = true.
Proof.
  intros H. unfold isUnknown.
  destruct (layoutMode_eq_dec layout layoutModeUnknown); [|contradiction].
  reflexivity.
Qed.

Lemma eqb_empty_false (s : string) : s <> "" -> (s =? "") = false.
Proof. intros H. now apply String.eqb_neq. Qed.

(** C4. Once the key is parsed, the configs are resolved, the layout is
    known, the locator is built and the remote file system is obtained,
    CHECKPRESENT answers by the outcome of the lookup alone: SUCCESS and
    no error when the object is found, FAILURE and no error when the
    lookup reports [fs.ErrorObjectNotFound], UNKNOWN and the error for
    any other error. *)
Theorem handleCheckPresent_outcomes
    (message message' : messageParser) (key : string) (p p1 p2 : process)
    (remoteFsString : string) (remoteFs : Fs) (w3 w4 : World)
    (obj : Object) (err : error) :
  healthy p = true ->
  finalParameter message = (key, message') ->
  key <> "" ->
  queryConfigs p = (Val None, p1) ->
  parseLayoutMode (configRcloneLayout (self p1)) <> layoutModeUnknown ->
  runPlan (buildFsString (parseLayoutMode (configRcloneLayout (self p1)))
             key (configRcloneRemoteName (self p1)) (configPrefix (self p1)))
    p1 = (Val (remoteFsString, None), p2) ->
  cacheGet remoteFsString (world p2) = ((remoteFs, None), w3) ->
  NewObject remoteFs key w3 = ((obj, err), w4) ->
  handleCheckPresent message p =
  match err with
  | None =>
      (Val None, emit ("CHECKPRESENT-SUCCESS " ++ key) (inWorld w4 p2))
  | Some ErrorObjectNotFound =>
      (Val None, emit ("CHECKPRESENT-FAILURE " ++ key) (inWorld w4 p2))
  | Some e =>
      (Val (Some e),
       emit ("CHECKPRESENT-UNKNOWN " ++ key ++ " error finding file")
         (inWorld w4 p2))
  end.
Proof.
  intros Hh Hkey Hne Hq Hlayout Hplan Hfs Hobj.
  assert (Hh1 : healthy p1 = true).
  { pose proof (healthy_queryConfigs p) as E. rewrite Hq in E.
    cbn [snd] in E. congruence. }
  assert (Hh2 : healthy (inWorld w4 p2) = true).
  { pose proof (healthy_runPlan
      (buildFsString (parseLayoutMode (configRcloneLayout (self p1)))
         key (configRcloneRemoteName (self p1)) (configPrefix (self p1)))
      p1) as E.
    rewrite Hplan in E. cbn [snd] in E. rewrite healthy_inWorld. congruence. }
  unfold handleCheckPresent. rewrite Hkey, (eqb_empty_false _ Hne).
  unfold bind at 1. rewrite Hq.
  unfold bind at 1, getServer. rewrite (isUnknown_false _ Hlayout).
  unfold bind at 1. rewrite Hplan.
  unfold bind at 1, backend at 1. rewrite Hfs.
  unfold bind at 1, backend at 1. cbn [world]. rewrite Hobj.
  change {| self := self {| self := self p2; Stderr := Stderr p2; world := w3 |};
            Stderr := Stderr {| self := self p2; Stderr := Stderr p2; world := w3 |};
            world := w4 |} with (inWorld w4 p2).
  destruct err as [[| | msg | msg inner]|]; cbn [isErrorObjectNotFound];
    unfold bind; rewrite (sendMsg_emit _ _ Hh2); reflexivity.
Qed.

(** C5. Once the key is parsed, the layout is known, the locator is
    built and the remote file system is obtained, REMOVE answers SUCCESS
    and returns no error when the lookup reports
    [fs.ErrorObjectNotFound], without deleting anything. When the
    object is found, it is handed to [operations.DeleteFile]; SUCCESS
    follows a deletion that worked, and a deletion that failed is
    answered by a FAILURE that names the key, and returns an error. *)
Theorem handleRemove_outcomes
    (message message' : messageParser) (key : string) (p p2 : process)
    (remoteFsString : string) (remoteFs : Fs) (w3 w4 : World)
    (fileObj : Object) (err : error) :
  healthy p = true ->
  finalParameter message = (key, message') ->
  key <> "" ->
  parseLayoutMode (configRcloneLayout (self p)) <> layoutModeUnknown ->
  runPlan (buildFsString (parseLayoutMode (configRcloneLayout (self p)))
             key (configRcloneRemoteName (self p)) (configPrefix (self p)))
    p = (Val (remoteFsString, None), p2) ->
  cacheGet remoteFsString (world p2) = ((remoteFs, None), w3) ->
  NewObject remoteFs key w3 = ((fileObj, err), w4) ->
  handleRemove message p =
  if errorsIsObjectNotFound err then
    (Val None, emit ("REMOVE-SUCCESS " ++ key) (inWorld w4 p2))
  else
    match err with
    | Some e =>
        (Val (Some (wrapError ("error getting new fs object: " ++ Error e) e)),
         emit ("REMOVE-FAILURE " ++ key ++ " error getting new fs object: "
                 ++ Error e) (inWorld w4 p2))
    | None =>
        match DeleteFile fileObj w4 with
        | (None, w5) =>
            (Val None, emit ("REMOVE-SUCCESS " ++ key) (inWorld w5 p2))
        | (Some _, w5) =>
            (Val (Some (errorString ("error deleting file: " ++ quote key))),
             emit ("REMOVE-FAILURE " ++ key ++ " error deleting file")
               (inWorld w5 p2))
        end
    end.
Proof.
  intros Hh Hkey Hne Hlayout Hplan Hfs Hobj.
  assert (Hh2 : forall w, healthy (inWorld w p2) = true).
  { intros w.
    pose proof (healthy_runPlan
      (buildFsString (parseLayoutMode (configRcloneLayout (self p)))
         key (configRcloneRemoteName (self p)) (configPrefix (self p)))
      p) as E.
    rewrite Hplan in E. cbn [snd] in E. rewrite healthy_inWorld. congruence. }
  unfold handleRemove. rewrite Hkey, (eqb_empty_false _ Hne).
  unfold bind at 1, getServer. rewrite (isUnknown_false _ Hlayout).
  unfold bind at 1. rewrite Hplan.
  unfold bind at 1, backend at 1. rewrite Hfs.
  unfold bind at 1, backend at 1. cbn [world]. rewrite Hobj.
  change {| self := self {| self := self p2; Stderr := Stderr p2; world := w3 |};
            Stderr := Stderr {| self := self p2; Stderr := Stderr p2; world := w3 |};
            world := w4 |} with (inWorld w4 p2).
  destruct (errorsIsObjectNotFound err).
  - unfold bind. now rewrite (sendMsg_emit _ _ (Hh2 w4)).
  - destruct err as [e|].
    + unfold bind. now rewrite (sendMsg_emit _ _ (Hh2 w4)).
    + unfold bind at 1, backend at 1. cbn [world inWorld].
      destruct (DeleteFile fileObj w4) as [[e|] w5];
        change {| self := self {| self := self p2; Stderr := Stderr p2; world := w4 |};
                  Stderr := Stderr {| self := self p2; Stderr := Stderr p2; world := w4 |};
                  world := w5 |} with (inWorld w5 p2);
        unfold bind; now rewrite (sendMsg_emit _ _ (Hh2 w5)).
Qed.

(** C6. Once the three arguments of a TRANSFER RETRIEVE are parsed, the
    configs are resolved, the layout is known, the locator is built and
    both file systems are obtained, the answer follows the outcome of
    the copy from the remote to the local file: TRANSFER-SUCCESS
    RETRIEVE with the key and no error when it worked, TRANSFER-FAILURE
    and no error when it reports [fs.ErrorObjectNotFound],
    TRANSFER-FAILURE and the error for any other error. *)
Theorem handleTransfer_retrieve_outcomes
    (message m1 m2 m3 : messageParser) (key file : string)
    (p p1 p2 : process) (remoteFsString : string) (remoteFs localFs : Fs)
    (w3 w4 w5 : World) (err : error) :
  healthy p = true ->
  nextSpaceDelimitedParameter message = (("RETRIEVE", None), m1) ->
  nextSpaceDelimitedParameter m1 = ((key, None), m2) ->
  finalParameter m2 = (file, m3) ->
  file <> "" ->
  queryConfigs p = (Val None, p1) ->
  parseLayoutMode (configRcloneLayout (self p1)) <> layoutModeUnknown ->
  runPlan (buildFsString (parseLayoutMode (configRcloneLayout (self p1)))
             key (configRcloneRemoteName (self p1)) (configPrefix (self p1)))
    p1 = (Val (remoteFsString, None), p2) ->
  cacheGet remoteFsString (world p2) = ((remoteFs, None), w3) ->
  cacheGet (filepathDir file) w3 = ((localFs, None), w4) ->
  CopyFile localFs remoteFs (filepathBase file) key w4 = (err, w5) ->
  handleTransfer message p =
  match err with
  | None =>
      (Val None, emit ("TRANSFER-SUCCESS RETRIEVE " ++ key) (inWorld w5 p2))
  | Some ErrorObjectNotFound =>
      (Val None,
       emit ("TRANSFER-FAILURE RETRIEVE " ++ key ++ " not found")
         (inWorld w5 p2))
  | Some e =>
      (Val (Some e),
       emit ("TRANSFER-FAILURE RETRIEVE " ++ key ++ " failed to copy file: "
               ++ Error e) (inWorld w5 p2))
  end.
Proof.
  intros Hh Hmode Hk Hfile Hne Hq Hlayout Hplan Hfs Hlocal Hcopy.
  assert (Hh2 : healthy (inWorld w5 p2) = true).
  { pose proof (healthy_queryConfigs p) as E1. rewrite Hq in E1.
    pose proof (healthy_runPlan
      (buildFsString (parseLayoutMode (configRcloneLayout (self p1)))
         key (configRcloneRemoteName (self p1)) (configPrefix (self p1)))
      p1) as E2.
    rewrite Hplan in E2. cbn [snd] in E1, E2. rewrite healthy_inWorld.
    congruence. }
  unfold handleTransfer. rewrite Hmode, Hk, Hfile, (eqb_empty_false _ Hne).
  unfold bind at 1. rewrite Hq.
  unfold bind at 1, getServer. rewrite (isUnknown_false _ Hlayout).
  unfold bind at 1. rewrite Hplan.
  unfold bind at 1, backend at 1. rewrite Hfs.
  unfold bind at 1, backend at 1. cbn [world]. rewrite Hlocal.
  cbn [String.eqb Ascii.eqb Bool.eqb].
  unfold bind at 1, backend at 1. cbn [world]. rewrite Hcopy.
  cbn [self Stderr].
  change {| self := self p2; Stderr := Stderr p2; world := w5 |}
    with (inWorld w5 p2).
  destruct err as [[| | msg | msg inner]|]; cbn [isErrorObjectNotFound];
    unfold bind; rewrite (sendMsg_emit _ _ Hh2); reflexivity.
Qed.

(** ** One config definition

    What the tokenizer finds in an answer [VALUE v]: the keyword, then
    [v] trimmed. *)

Lemma TrimRight_newline_end (v : string) :
  TrimRight (v ++ newline) crlf = TrimRight v crlf.
Proof. rewrite TrimRight_app. reflexivity. Qed.

Lemma next_of_reply (v : string) :
  nextSpaceDelimitedParameter {| line := reply v |}
  = (("VALUE", None), {| line := TrimRight v crlf |}).
Proof.
  unfold nextSpaceDelimitedParameter, reply. cbn [line].
  change ("VALUE " ++ v ++ newline) with ("VALUE" ++ " " ++ (v ++ newline)).
  rewrite (TrimRight_app "VALUE" (" " ++ (v ++ newline))).
  change (TrimRight (" " ++ (v ++ newline)) crlf) with
    (match TrimRight (v ++ newline) crlf with
     | EmptyString => " "
     | String _ _ as t => String " " t
     end).
  rewrite TrimRight_newline_end.
  destruct (TrimRight v crlf) as [|c t]; reflexivity.
Qed.

Lemma final_of_trimmed (v : string) :
  finalParameter {| line := TrimRight v crlf |}
  = (TrimRight v crlf, {| line := "" |}).
Proof.
  unfold finalParameter. cbn [line]. rewrite TrimRight_idempotent.
  destruct (TrimRight v crlf); reflexivity.
Qed.

Lemma replies_app (vs ws : list string) :
  replies (vs ++ ws) = replies vs ++ replies ws.
Proof.
  induction vs as [|v vs IH]; cbn [replies app]; [reflexivity|].
  now rewrite IH, append_assoc.
Qed.

(** One question and its answer. *)
Lemma queryNames_step (config : configDefinition) (name : string)
    (others : list string) (v rest : string) (p : process) :
  healthy p = true ->
  noneOf newline v = true ->
  unread p = reply v ++ rest ->
  queryNames config (name :: others) p =
  let p1 := taken (reply v) rest (emit ("GETCONFIG " ++ name) p) in
  if isEmpty (TrimRight v crlf) then queryNames config others p1
  else (Val (true, None),
        withServer (assign (destination config) (TrimRight v crlf)) p1).
Proof.
  intros Hh Hv Hu. cbn [queryNames].
  unfold bind at 1. rewrite (sendMsg_emit _ _ Hh).
  unfold bind at 1.
  assert (Hline : noneOf newline ("VALUE " ++ v) = true) by exact Hv.
  assert (Hu1 : unread (emit ("GETCONFIG " ++ name) p)
                = ("VALUE " ++ v) ++ newline ++ rest).
  { rewrite unread_emit, Hu. unfold reply.
    now rewrite !append_assoc. }
  assert (Hh1 : healthy (emit ("GETCONFIG " ++ name) p) = true)
    by now rewrite healthy_emit.
  rewrite (getMsg_line _ _ _ Hh1 Hu1 Hline).
  change (("VALUE " ++ v) ++ newline) with (reply v).
  rewrite next_of_reply. cbn [notNil orb String.eqb Ascii.eqb Bool.eqb negb].
  rewrite final_of_trimmed.
  cbv zeta.
  destruct (TrimRight v crlf) as [|c t]; cbn [String.eqb negb isEmpty].
  - reflexivity.
  - reflexivity.
Qed.

Lemma healthy_withServer_assign (d : configField) (v : string)
    (p : process) :
  healthy (withServer (assign d v) p) = healthy p.
Proof. destruct d; reflexivity. Qed.

(** A run of questions that are all answered with an empty value. *)
Lemma queryNames_skips (config : configDefinition)
    (skipped others : list string) :
  forall (empties : list string) (rest : string) (p : process),
    healthy p = true ->
    forallb emptyValue empties = true ->
    List.length empties = List.length skipped ->
    unread p = replies empties ++ rest ->
    queryNames config (skipped ++ others) p
    = queryNames config others (exchanges skipped empties rest p)
    /\ healthy (exchanges skipped empties rest p) = true
    /\ unread (exchanges skipped empties rest p) = rest
    /\ sent (exchanges skipped empties rest p)
       = (sent p ++ map getConfigChunk skipped)%list
    /\ world (exchanges skipped empties rest p) = world p
    /\ sameConfig p (exchanges skipped empties rest p).
Proof.
  induction skipped as [|name skipped IH]; intros empties rest p Hh He Hl Hu.
  - destruct empties; [|discriminate]. cbn [exchanges app map].
    rewrite app_nil_r.
    refine (conj eq_refl (conj Hh (conj Hu (conj eq_refl (conj eq_refl _))))).
    apply sameConfig_refl.
  - destruct empties as [|v empties]; [discriminate|].
    cbn [forallb] in He. apply andb_true_iff in He as [Hv He].
    unfold emptyValue in Hv. apply andb_true_iff in Hv as [Hv1 Hv2].
    cbn [replies] in Hu. rewrite append_assoc in Hu.
    cbn [app exchanges].
    rewrite (queryNames_step config name (skipped ++ others) v _ p Hh Hv1 Hu).
    cbv zeta. rewrite Hv2.
    set (p1 := taken (reply v) (replies empties ++ rest)
                 (emit ("GETCONFIG " ++ name) p)).
    assert (Hh1 : healthy p1 = true)
      by (unfold p1; now rewrite healthy_taken, healthy_emit).
    assert (Hu1 : unread p1 = replies empties ++ rest)
      by (unfold p1; now rewrite unread_taken).
    injection Hl as Hl.
    destruct (IH empties rest p1 Hh1 He Hl Hu1)
      as (E1 & E2 & E3 & E4 & E5 & E6).
    refine (conj E1 (conj E2 (conj E3 (conj _ (conj _ _))))).
    + rewrite E4. unfold p1. rewrite sent_taken, sent_emit.
      cbn [map]. now rewrite <- app_assoc.
    + rewrite E5. unfold p1. now rewrite world_taken, world_emit.
    + apply (sameConfig_trans _ p1); [|exact E6].
      unfold p1, sameConfig. rewrite self_taken, self_emit. cbn. auto.
Qed.

Lemma fieldOf_assign_same (d : configField) (v : string) (s : server) :
  fieldOf d (assign d v s) = v.
Proof. destruct d; reflexivity. Qed.

Lemma fieldOf_assign_other (d d' : configField) (v : string) (s : server) :
  d' <> d -> fieldOf d' (assign d v s) = fieldOf d' s.
Proof. destruct d, d'; intros H; try reflexivity; now contradiction H. Qed.

Lemma sameConfig_fieldOf (p p' : process) (d : configField) :
  sameConfig p p' -> fieldOf d (self p') = fieldOf d (self p).
Proof. intros (_ & A & B & C). destruct d; assumption. Qed.

(** The first name with a non-empty answer wins. *)
Lemma queryConfig_winner (config : configDefinition)
    (skipped : list string) (winner : string) (remaining : list string)
    (empties : list string) (v rest : string) (p : process) :
  healthy p = true ->
  names config = (skipped ++ winner :: remaining)%list ->
  forallb emptyValue empties = true ->
  List.length empties = List.length skipped ->
  nonEmptyValue v = true ->
  unread p = replies empties ++ reply v ++ rest ->
  queryConfig config p =
  (Val None,
   withServer (assign (destination config) (TrimRight v crlf))
     (taken (reply v) rest
        (emit ("GETCONFIG " ++ winner)
           (exchanges skipped empties (reply v ++ rest) p)))).
Proof.
  intros Hh Hn He Hl Hv Hu.
  unfold nonEmptyValue in Hv. apply andb_true_iff in Hv as [Hv1 Hv2].
  apply negb_true_iff in Hv2.
  destruct (queryNames_skips config skipped (winner :: remaining)
              empties (reply v ++ rest) p Hh He Hl Hu)
    as (E1 & E2 & E3 & _).
  unfold queryConfig. rewrite Hn. unfold bind at 1. rewrite E1.
  rewrite (queryNames_step config winner remaining v rest _ E2 Hv1 E3).
  cbv zeta. rewrite Hv2. reflexivity.
Qed.

(** No name has a non-empty answer: the default, when there is one. *)
Lemma queryConfig_default (config : configDefinition)
    (empties : list string) (default rest : string) (p : process) :
  healthy p = true ->
  defaultValue config = Some default ->
  forallb emptyValue empties = true ->
  List.length empties = List.length (names config) ->
  unread p = replies empties ++ rest ->
  queryConfig config p =
  (Val None,
   withServer (assign (destination config) default)
     (exchanges (names config) empties rest p)).
Proof.
  intros Hh Hd He Hl Hu.
  destruct (queryNames_skips config (names config) [] empties rest p
              Hh He Hl Hu) as (E1 & _).
  rewrite app_nil_r in E1.
  unfold queryConfig. unfold bind at 1. rewrite E1. cbn [queryNames].
  unfold ret at 1. cbn [negb]. rewrite Hd. reflexivity.
Qed.

(** No name has a non-empty answer and there is no default. *)
Lemma queryConfig_missing (config : configDefinition)
    (empties : list string) (canonical : string) (synonyms : list string)
    (rest : string) (p : process) :
  healthy p = true ->
  defaultValue config = None ->
  names config = canonical :: synonyms ->
  forallb emptyValue empties = true ->
  List.length empties = List.length (names config) ->
  unread p = replies empties ++ rest ->
  queryConfig config p =
  (Val (Some (errorString
     ("did not receive a non-empty config value for " ++ quote canonical))),
   exchanges (names config) empties rest p).
Proof.
  intros Hh Hd Hn He Hl Hu.
  destruct (queryNames_skips config (names config) [] empties rest p
              Hh He Hl Hu) as (E1 & _).
  rewrite app_nil_r in E1.
  unfold queryConfig. unfold bind at 1. rewrite E1. cbn [queryNames].
  unfold ret at 1. cbn [negb]. rewrite Hd.
  unfold getCanonicalName, getCanonicalNameOf. rewrite Hn. reflexivity.
Qed.

Lemma negotiated_exchanges (asked empties : list string) (rest : string)
    (p : process) :
  healthy p = true ->
  forallb emptyValue empties = true ->
  List.length empties = List.length asked ->
  unread p = replies empties ++ rest ->
  negotiated asked rest p (exchanges asked empties rest p)
  /\ sameConfig p (exchanges asked empties rest p).
Proof.
  intros Hh He Hl Hu.
  destruct (queryNames_skips {| names := []; description := "";
                                destination := destPrefix;
                                defaultValue := None |}
              asked [] empties rest p Hh He Hl Hu)
    as (_ & _ & E3 & E4 & E5 & E6).
  split; [|exact E6]. unfold negotiated.
  destruct E6 as (F & _). auto.
Qed.

Lemma negotiated_assign (asked : list string) (rest : string)
    (d : configField) (v : string) (p p' : process) :
  negotiated asked rest p p' ->
  negotiated asked rest p (withServer (assign d v) p').
Proof.
  unfold negotiated, sent, unread. intros (A & B & C & D).
  destruct d; cbn; auto.
Qed.

(** The first name with a non-empty answer wins: what the process did. *)
Lemma queryConfig_takes_first_answer (config : configDefinition)
    (skipped : list string) (winner : string) (remaining : list string)
    (empties : list string) (v rest : string) (p : process) :
  healthy p = true ->
  names config = (skipped ++ winner :: remaining)%list ->
  forallb emptyValue empties = true ->
  List.length empties = List.length skipped ->
  nonEmptyValue v = true ->
  unread p = replies empties ++ reply v ++ rest ->
  fst (queryConfig config p) = Val None
  /\ negotiated (skipped ++ [winner]) rest p (snd (queryConfig config p))
  /\ fieldOf (destination config) (self (snd (queryConfig config p)))
     = TrimRight v crlf
  /\ forall d, d <> destination config ->
       fieldOf d (self (snd (queryConfig config p))) = fieldOf d (self p).
Proof.
  intros Hh Hn He Hl Hv Hu.
  rewrite (queryConfig_winner config skipped winner remaining empties v
             rest p Hh Hn He Hl Hv Hu).
  cbn [fst snd].
  destruct (negotiated_exchanges skipped empties (reply v ++ rest) p
              Hh He Hl Hu) as ((A & B & C & D) & F).
  set (px := exchanges skipped empties (reply v ++ rest) p) in *.
  split; [reflexivity|]. split; [|split].
  - apply negotiated_assign. unfold negotiated.
    rewrite sent_taken, sent_emit, unread_taken, world_taken, world_emit,
      self_taken, self_emit, A, map_app, <- app_assoc.
    cbn. auto.
  - cbn [withServer self]. apply fieldOf_assign_same.
  - intros d Hd. cbn [withServer self].
    rewrite (fieldOf_assign_other _ _ _ _ Hd), self_taken, self_emit.
    rewrite <- (sameConfig_fieldOf _ _ d F). destruct d; reflexivity.
Qed.

(** Every name has an empty answer and there is a default. *)
Lemma queryConfig_takes_default (config : configDefinition)
    (empties : list string) (default rest : string) (p : process) :
  healthy p = true ->
  defaultValue config = Some default ->
  forallb emptyValue empties = true ->
  List.length empties = List.length (names config) ->
  unread p = replies empties ++ rest ->
  fst (queryConfig config p) = Val None
  /\ negotiated (names config) rest p (snd (queryConfig config p))
  /\ fieldOf (destination config) (self (snd (queryConfig config p)))
     = default
  /\ forall d, d <> destination config ->
       fieldOf d (self (snd (queryConfig config p))) = fieldOf d (self p).
Proof.
  intros Hh Hd He Hl Hu.
  rewrite (queryConfig_default config empties default rest p Hh Hd He Hl Hu).
  cbn [fst snd].
  destruct (negotiated_exchanges (names config) empties rest p Hh He Hl Hu)
    as (N & F).
  split; [reflexivity|]. split; [|split].
  - now apply negotiated_assign.
  - cbn [withServer self]. apply fieldOf_assign_same.
  - intros d Hdd. cbn [withServer self].
    rewrite (fieldOf_assign_other _ _ _ _ Hdd).
    apply (sameConfig_fieldOf _ _ d F).
Qed.

(** Every name has an empty answer and there is no default. *)
Lemma queryConfig_reports_missing (config : configDefinition)
    (empties : list string) (canonical : string) (synonyms : list string)
    (rest : string) (p : process) :
  healthy p = true ->
  defaultValue config = None ->
  names config = canonical :: synonyms ->
  forallb emptyValue empties = true ->
  List.length empties = List.length (names config) ->
  unread p = replies empties ++ rest ->
  fst (queryConfig config p)
  = Val (Some (errorString
      ("did not receive a non-empty config value for " ++ quote canonical)))
  /\ negotiated (names config) rest p (snd (queryConfig config p))
  /\ forall d,
       fieldOf d (self (snd (queryConfig config p))) = fieldOf d (self p).
Proof.
  intros Hh Hd Hn He Hl Hu.
  rewrite (queryConfig_missing config empties canonical synonyms rest p
             Hh Hd Hn He Hl Hu).
  cbn [fst snd].
  destruct (negotiated_exchanges (names config) empties rest p Hh He Hl Hu)
    as (N & F).
  split; [reflexivity|]. split; [exact N|].
  intros d. apply (sameConfig_fieldOf _ _ d F).
Qed.

(** *** The whole negotiation *)

Lemma healthy_queryConfig (config : configDefinition) (p : process) :
  healthy (snd (queryConfig config p)) = healthy p.
Proof.
  apply sameStreams_healthy.
  apply frame_queryConfig with (Q := fun _ : string => True); streams_side.
Qed.

Lemma queryEach_cons (config : configDefinition)
    (rest : list configDefinition) (p : process) :
  queryEach (config :: rest) p =
  match fst (queryConfig config p) with
  | Val None => queryEach rest (snd (queryConfig config p))
  | Val (Some e) => (Val (Some e), snd (queryConfig config p))
  | Panic v => (Panic v, snd (queryConfig config p))
  end.
Proof.
  cbn [queryEach]. unfold bind.
  destruct (queryConfig config p) as [[[e|]|v] p1]; reflexivity.
Qed.

(** A controller that gives the remote name under its synonym and sets
    neither prefix nor layout: six questions, the three fields filled,
    the flag set. *)
Lemma queryConfigs_negotiation (p : process) (v rest : string) :
  healthy p = true ->
  configsDone (self p) = false ->
  nonEmptyValue v = true ->
  unread p = replies [""; v; ""; ""; ""; ""] ++ rest ->
  fst (queryConfigs p) = Val None
  /\ sent (snd (queryConfigs p))
     = (sent p ++ map getConfigChunk
          ["rcloneremotename"; "target"; "rcloneprefix"; "prefix";
           "rclonelayout"; "rclone_layout"])%list
  /\ unread (snd (queryConfigs p)) = rest
  /\ configRcloneRemoteName (self (snd (queryConfigs p))) = TrimRight v crlf
  /\ configPrefix (self (snd (queryConfigs p))) = "git-annex-rclone"
  /\ configRcloneLayout (self (snd (queryConfigs p))) = "nodir"
  /\ configsDone (self (snd (queryConfigs p))) = true.
Proof.
  intros Hh Hd Hv Hu.
  set (c1 := nth 0 getRequiredConfigs
               {| names := []; description := ""; destination := destPrefix;
                  defaultValue := None |}).
  set (c2 := nth 1 getRequiredConfigs c1).
  set (c3 := nth 2 getRequiredConfigs c1).
  assert (Hu1 : unread p
                = replies [""] ++ reply v ++ (replies [""; ""; ""; ""] ++ rest)).
  { rewrite Hu. cbn [replies]. now rewrite !append_assoc. }
  destruct (queryConfig_takes_first_answer c1 ["rcloneremotename"] "target" []
              [""] v _ p Hh eq_refl eq_refl eq_refl Hv Hu1)
    as (R1 & (S1 & U1 & _ & _) & F1 & _).
  pose proof (healthy_queryConfig c1 p) as Hh1. rewrite Hh in Hh1.
  set (p1 := snd (queryConfig c1 p)) in *.
  assert (Hu2 : unread p1 = replies [""; ""] ++ (replies [""; ""] ++ rest)).
  { rewrite U1. cbn [replies]. now rewrite !append_assoc. }
  destruct (queryConfig_takes_default c2 [""; ""] "git-annex-rclone" _ p1
              Hh1 eq_refl eq_refl eq_refl Hu2)
    as (R2 & (S2 & U2 & _ & _) & F2 & O2).
  pose proof (healthy_queryConfig c2 p1) as Hh2. rewrite Hh1 in Hh2.
  set (p2 := snd (queryConfig c2 p1)) in *.
  destruct (queryConfig_takes_default c3 [""; ""] "nodir" _ p2
              Hh2 eq_refl eq_refl eq_refl U2)
    as (R3 & (S3 & U3 & _ & _) & F3 & O3).
  set (p3 := snd (queryConfig c3 p2)) in *.
  assert (E : queryConfigs p = (Val None, withServer (set_configsDone true) p3)).
  { unfold queryConfigs. unfold bind at 1, getServer. rewrite Hd.
    unfold bind at 1.
    change getRequiredConfigs with [c1; c2; c3].
    rewrite queryEach_cons. fold p1. rewrite R1.
    rewrite queryEach_cons. fold p2. rewrite R2.
    rewrite queryEach_cons. fold p3. rewrite R3.
    reflexivity. }
  rewrite E. cbn [fst snd].
  split; [reflexivity|].
  split.
  { change (sent (withServer (set_configsDone true) p3)) with (sent p3).
    rewrite S3, S2, S1. rewrite <- !app_assoc. reflexivity. }
  split; [exact U3|].
  split.
  { pose proof (O3 destRcloneRemoteName ltac:(discriminate)) as E3.
    pose proof (O2 destRcloneRemoteName ltac:(discriminate)) as E2.
    change (configRcloneRemoteName (self p3) = TrimRight v crlf).
    cbn [fieldOf] in E3, E2. rewrite E3, E2. exact F1. }
  split.
  { pose proof (O3 destPrefix ltac:(discriminate)) as E3.
    change (configPrefix (self p3) = "git-annex-rclone").
    cbn [fieldOf] in E3. rewrite E3. exact F2. }
  split; [exact F3 | reflexivity].
Qed.

(** ** The end of the inbound stream *)

(** C8. At the head of the command loop, a read that finds the stream
    at its end with nothing pending ends the loop with no error, and
    leaves the process as it is. A read that fails within a line, after
    bytes that no newline follows, ends the loop with an error, whatever
    the error of the read is. So [run], which returns what the loop
    returns, sends the version line and returns no error on a stream
    that is closed from the start, and returns an error on a stream that
    is closed within its first line. *)
Theorem run_at_end_of_stream (fuel : nat) (p : process) :
  (unread p = "" -> runLoop (S fuel) p = (Val (Returned None), p))
  /\ (isEmpty (unread p) = false -> noneOf newline (unread p) = true ->
      runLoop (S fuel) p =
      (Val (Returned (Some (wrapError
         ("error receiving message: expected message to end with newline: "
            ++ quote (unread p))
         (errorString ("expected message to end with newline: "
                         ++ quote (unread p)))))),
       drained p))
  /\ (healthy p = true -> unread p = "" ->
      run p = (Val (Returned None), emit "VERSION 1" p))
  /\ (healthy p = true ->
      isEmpty (unread p) = false -> noneOf newline (unread p) = true ->
      run p =
      (Val (Returned (Some (wrapError
         ("error receiving message: expected message to end with newline: "
            ++ quote (unread p))
         (errorString ("expected message to end with newline: "
                         ++ quote (unread p)))))),
       drained (emit "VERSION 1" p))).
Proof.
  assert (L1 : forall n q, unread q = "" ->
                 runLoop (S n) q = (Val (Returned None), q)).
  { intros n q Hu. cbn [runLoop]. unfold bind at 1.
    now rewrite (getMsg_end _ Hu). }
  assert (L2 : forall n q, isEmpty (unread q) = false ->
                 noneOf newline (unread q) = true ->
                 runLoop (S n) q =
                 (Val (Returned (Some (wrapError
                    ("error receiving message: expected message to end with newline: "
                       ++ quote (unread q))
                    (errorString ("expected message to end with newline: "
                                    ++ quote (unread q)))))),
                  drained q)).
  { intros n q Hne Hl. cbn [runLoop]. unfold bind at 1.
    now rewrite (getMsg_partial _ Hne Hl). }
  split; [exact (L1 fuel p) | split; [exact (L2 fuel p) | split]].
  - intros Hh Hu. unfold run. unfold bind at 1.
    rewrite (sendMsg_emit _ _ Hh). unfold bind at 1, getServer.
    apply L1. now rewrite unread_emit.
  - intros Hh Hne Hl. unfold run. unfold bind at 1.
    rewrite (sendMsg_emit _ _ Hh). unfold bind at 1, getServer.
    rewrite <- (unread_emit "VERSION 1" p) at 1 2.
    apply L2; now rewrite unread_emit.
Qed.

(** ** The first chunk a computation sends *)

Lemma grows_refl (p : process) : grows p p.
Proof. apply sentOnly_refl. Qed.

Lemma grows_trans (p q r : process) : grows p q -> grows q r -> grows p r.
Proof. apply sentOnly_trans. Qed.

Lemma sentFirst_grows (chunk : string) (p q r : process) :
  sentFirst chunk p q -> grows q r -> sentFirst chunk p r.
Proof.
  intros (m1 & E1) (m2 & E2 & _). exists (m1 ++ m2)%list.
  rewrite E2, E1, <- app_assoc. reflexivity.
Qed.

Ltac grows_side :=
  first
    [ exact grows_refl | exact grows_trans
    | exact (sentOnly_writeStderr _) | exact (sentOnly_readLine _)
    | exact (sentOnly_backend _) | exact (sentOnly_assign _)
    | exact (sentOnly_done _) | exact (sentOnly_note _)
    | intros ? _; apply sentOnly_writeOut; exact I
    | exact (fun _ : string => I) ].

Lemma grows_sendMsg (msg : string) : preserves grows (sendMsg msg).
Proof.
  apply frame_sendMsg with (Q := fun _ : string => True);
    try grows_side. exact I.
Qed.

Lemma grows_getMsg : preserves grows getMsg.
Proof. apply frame_getMsg; grows_side. Qed.

Lemma grows_runPlan (plan : fsStringPlan) : preserves grows (runPlan plan).
Proof.
  apply frame_runPlan with (Q := fun _ : string => True); try grows_side.
  apply planAsks_all. exact (fun _ => I).
Qed.

Lemma grows_queryNames (config : configDefinition) (ns : list string) :
  preserves grows (queryNames config ns).
Proof.
  apply frame_queryNames with (Q := fun _ : string => True); grows_side.
Qed.

Lemma grows_queryConfig (config : configDefinition) :
  preserves grows (queryConfig config).
Proof.
  apply frame_queryConfig with (Q := fun _ : string => True); grows_side.
Qed.

Lemma grows_queryConfigs : preserves grows queryConfigs.
Proof.
  apply frame_queryConfigs with (Q := fun _ : string => True); grows_side.
Qed.

Lemma grows_queryEach (configs : list configDefinition) :
  preserves grows (queryEach configs).
Proof.
  apply frame_queryEach with (Q := fun _ : string => True); grows_side.
Qed.

Lemma grows_bind {A B} (m : M A) (f : A -> M B) :
  preserves grows m -> (forall a, preserves grows (f a)) ->
  preserves grows (bind m f).
Proof. apply preserves_bind. exact grows_trans. Qed.

Lemma grows_ret {A} (a : A) : preserves grows (ret a).
Proof. apply preserves_ret. exact grows_refl. Qed.

(** The rest of a computation cannot take back what was sent. *)
Ltac grows_tac :=
  repeat
    match goal with
    | |- preserves _ (sendMsg _) => apply grows_sendMsg
    | |- preserves _ getMsg => apply grows_getMsg
    | |- preserves _ (runPlan _) => apply grows_runPlan
    | |- preserves _ (queryNames _ _) => apply grows_queryNames
    | |- preserves _ (queryConfig _) => apply grows_queryConfig
    | |- preserves _ (queryEach _) => apply grows_queryEach
    | |- preserves _ queryConfigs => apply grows_queryConfigs
    | |- preserves _ (backend _) => apply sentOnly_backend
    | |- preserves _ (modifyServer (assign _ _)) => apply sentOnly_assign
    | |- preserves _ (modifyServer (set_configsDone _)) =>
        apply sentOnly_done
    | |- preserves _ (ret _) => apply grows_ret
    | |- preserves _ (panic _) => apply (preserves_panic grows grows_refl)
    | |- preserves _ getServer =>
        apply (preserves_getServer grows grows_refl)
    | |- preserves _ (getCanonicalName _) =>
        apply (preserves_liftResult grows grows_refl)
    | |- preserves _ (bind _ _) => apply grows_bind; [|intro]
    | |- preserves _ (match ?x with _ => _ end) => destruct x
    end.

Lemma sentFirst_bind {A B} (m : M A) (f : A -> M B) (chunk : string)
    (p : process) :
  sentFirst chunk p (snd (m p)) ->
  (forall a, preserves grows (f a)) ->
  sentFirst chunk p (snd (bind m f p)).
Proof.
  intros Hm Hf. unfold bind.
  destruct (m p) as [[a|v] p1]; cbn [snd] in *; [|exact Hm].
  exact (sentFirst_grows _ _ _ _ Hm (Hf a p1)).
Qed.

Lemma sentFirst_sendMsg (msg : string) (p : process) :
  healthy p = true -> sentFirst (msg ++ newline) p (snd (sendMsg msg p)).
Proof.
  intros Hh. rewrite (sendMsg_emit _ _ Hh). cbn [snd].
  exists []. apply sent_emit.
Qed.

(** With the flag not set, [queryConfigs] starts by asking for the
    canonical name of the first definition. *)
Lemma queryConfigs_first_query (p : process) :
  healthy p = true ->
  configsDone (self p) = false ->
  sentFirst (getConfigChunk "rcloneremotename") p (snd (queryConfigs p)).
Proof.
  intros Hh Hd. unfold queryConfigs. unfold bind at 1, getServer.
  rewrite Hd.
  apply sentFirst_bind; [|intro; grows_tac].
  cbn [getRequiredConfigs queryEach].
  apply sentFirst_bind; [|intro; grows_tac].
  unfold queryConfig. cbn [names].
  apply sentFirst_bind; [|intro; grows_tac].
  cbn [queryNames].
  apply sentFirst_bind; [|intro; grows_tac].
  exact (sentFirst_sendMsg "GETCONFIG rcloneremotename" p Hh).
Qed.

(** ** The configs-resolved flag *)

Lemma sameDone_queryEach (configs : list configDefinition) (p : process) :
  configsDone (self (snd (queryEach configs p))) = configsDone (self p).
Proof.
  apply (frame_queryEach sameDone (fun _ : string => True)
           sameDone_refl sameDone_trans
           (fun msg _ => sameDone_writeOut msg)
           sameDone_writeStderr sameDone_readLine
           (fun _ => I) sameDone_assign).
Qed.

Lemma queryConfigs_flag (p : process) :
  configsDone (self p) = false ->
  configsDone (self (snd (queryConfigs p)))
  = match fst (queryConfigs p) with
    | Val None => true
    | _ => false
    end.
Proof.
  intros Hd. unfold queryConfigs, bind, getServer. rewrite Hd.
  pose proof (sameDone_queryEach getRequiredConfigs p) as E.
  destruct (queryEach getRequiredConfigs p) as [[[e|]|v] p2];
    unfold ret, modifyServer;
    cbn [fst snd self configsDone set_configsDone] in *; congruence.
Qed.

(** *** Every definition in turn *)

Lemma names_split (l : list string) :
  forall k : nat,
    k < List.length l ->
    l = (firstn k l ++ nth k l "" :: skipn (S k) l)%list
    /\ firstn (S k) l = (firstn k l ++ [nth k l ""])%list
    /\ List.length (firstn k l) = k.
Proof.
  induction l as [|x l IH]; intros k Hk; cbn [List.length] in Hk; [lia|].
  destruct k as [|k].
  - cbn. repeat split.
  - destruct (IH k ltac:(lia)) as (A & B & C).
    split; [|split].
    + change (x :: l
              = x :: (firstn k l ++ nth k l "" :: skipn (S k) l)%list).
      now rewrite <- A.
    + change (x :: firstn (S k) l = x :: (firstn k l ++ [nth k l ""])%list).
      now rewrite <- B.
    + cbn [firstn List.length]. now rewrite C.
Qed.

Lemma fieldOf_assign (d d' : configField) (v : string) (s s' : server) :
  (forall x, fieldOf x s = fieldOf x s') ->
  fieldOf d (assign d' v s) = fieldOf d (assign d' v s').
Proof.
  intros H. destruct (configField_eq_dec d d') as [->|Hne].
  - now rewrite !fieldOf_assign_same.
  - now rewrite !(fieldOf_assign_other _ _ _ _ Hne).
Qed.

Lemma fieldOf_assignAll (stores : list (configField * string)) :
  forall s s' : server,
    (forall x, fieldOf x s = fieldOf x s') ->
    forall d, fieldOf d (assignAll stores s) = fieldOf d (assignAll stores s').
Proof.
  induction stores as [|[d' v] stores IH]; intros s s' H d; [apply H|].
  unfold assignAll. cbn [fold_left fst snd].
  apply (IH (assign d' v s) (assign d' v s')).
  intros x. now apply fieldOf_assign.
Qed.

Lemma fieldOf_stored (d dest : configField) (v : string) (s s' : server) :
  fieldOf dest s' = v ->
  (forall x, x <> dest -> fieldOf x s' = fieldOf x s) ->
  fieldOf d s' = fieldOf d (assign dest v s).
Proof.
  intros F O. destruct (configField_eq_dec d dest) as [->|Hne].
  - now rewrite fieldOf_assign_same.
  - rewrite (fieldOf_assign_other _ _ _ _ Hne). now apply O.
Qed.

(** The loop over the definitions does what the resolution says, for
    any definitions that have a name. *)
Lemma queryEach_resolves (configs : list configDefinition) :
  forall (given : list held) (rest : string) (p : process),
    healthy p = true ->
    forallb named configs = true ->
    fitsAll configs given = true ->
    unread p = allReplies given ++ rest ->
    sent (snd (queryEach configs p))
    = (sent p ++ map getConfigChunk (queried (resolve configs given)))%list
    /\ unread (snd (queryEach configs p))
       = allReplies (pending (resolve configs given)) ++ rest
    /\ world (snd (queryEach configs p)) = world p
    /\ (forall d,
          fieldOf d (self (snd (queryEach configs p)))
          = fieldOf d (assignAll (assigned (resolve configs given)) (self p)))
    /\ fst (queryEach configs p)
       = match missing (resolve configs given) with
         | None => Val None
         | Some canonical =>
             Val (Some (errorString
               ("did not receive a non-empty config value for "
                  ++ quote canonical)))
         end.
Proof.
  induction configs as [|c configs IH]; intros given rest p Hh Hn Hf Hu.
  - destruct given as [|h given]; [|discriminate].
    cbn. rewrite app_nil_r. cbn in Hu. auto.
  - destruct given as [|h given]; [discriminate|].
    cbn [forallb] in Hn. apply andb_prop in Hn as [Hc Hn].
    cbn [fitsAll] in Hf. apply andb_prop in Hf as [Hfit Hf].
    cbn [allReplies] in Hu. rewrite append_assoc in Hu.
    pose proof (healthy_queryConfig c p) as Hh1. rewrite Hh in Hh1.
    rewrite queryEach_cons. cbn [resolve].
    destruct h as [empties value | empties]; cbn [fits] in Hfit;
      cbn [heldReplies] in Hu; cbn [chosen tried].
    + apply andb_prop in Hfit as [Hfit Hv].
      apply andb_prop in Hfit as [He Hk]. apply Nat.ltb_lt in Hk.
      destruct (names_split (names c) (List.length empties) Hk)
        as (Hsplit & Hfirst & Hlen).
      rewrite append_assoc in Hu.
      destruct (queryConfig_takes_first_answer c
                  (firstn (List.length empties) (names c))
                  (nth (List.length empties) (names c) "")
                  (skipn (S (List.length empties)) (names c))
                  empties value (allReplies given ++ rest) p
                  Hh Hsplit He (eq_sym Hlen) Hv Hu)
        as (R & (S1 & U1 & W1 & _) & F & O).
      rewrite R.
      destruct (IH given rest (snd (queryConfig c p)) Hh1 Hn Hf U1)
        as (S2 & U2 & W2 & F2 & R2).
      cbn [queried assigned missing pending].
      refine (conj _ (conj U2 (conj _ (conj _ R2)))).
      * rewrite S2, S1, Hfirst, !map_app, <- !app_assoc. reflexivity.
      * now rewrite W2.
      * intros d. rewrite F2. unfold assignAll at 2.
        cbn [fold_left fst snd].
        apply fieldOf_assignAll. intros x.
        now apply fieldOf_stored.
    + apply andb_prop in Hfit as [He Hk]. apply Nat.eqb_eq in Hk.
      destruct (defaultValue c) as [default|] eqn:Hd.
      * destruct (queryConfig_takes_default c empties default
                    (allReplies given ++ rest) p Hh Hd He Hk Hu)
          as (R & (S1 & U1 & W1 & _) & F & O).
        rewrite R.
        destruct (IH given rest (snd (queryConfig c p)) Hh1 Hn Hf U1)
          as (S2 & U2 & W2 & F2 & R2).
        cbn [queried assigned missing pending].
        refine (conj _ (conj U2 (conj _ (conj _ R2)))).
        -- rewrite S2, S1, !map_app, <- !app_assoc. reflexivity.
        -- now rewrite W2.
        -- intros d. rewrite F2. unfold assignAll at 2.
           cbn [fold_left fst snd].
           apply fieldOf_assignAll. intros x.
           now apply fieldOf_stored.
      * unfold named in Hc.
        destruct (names c) as [|canonical synonyms] eqn:Hnames;
          [discriminate|].
        destruct (queryConfig_reports_missing c empties canonical synonyms
                    (allReplies given ++ rest) p Hh Hd Hnames He)
          as (R & (S1 & U1 & W1 & _) & F).
        { now rewrite Hnames. }
        { exact Hu. }
        rewrite R. cbn [queried assigned missing pending fst snd hd].
        rewrite Hnames in S1.
        refine (conj S1 (conj U1 (conj W1 (conj _ eq_refl)))).
        intros d. apply F.
Qed.


(** C10. From a process whose flag is not set: the flag is set when
    [queryConfigs] is done if and only if it returns no error; when it
    returns an error the flag is still not set, so that the next
    invocation starts again by asking for the first name of the first
    definition. The fields of the definitions resolved before the
    failure keep what was stored in them: a session in which the first
    definition is answered and the second answer is not a VALUE line
    ends with the remote name stored and the flag not set. *)
Theorem configsDone_only_after_success (p : process) :
  configsDone (self p) = false ->
  (configsDone (self (snd (queryConfigs p))) = true
     <-> fst (queryConfigs p) = Val None)
  /\ (forall e, fst (queryConfigs p) = Val (Some e) ->
        configsDone (self (snd (queryConfigs p))) = false)
  /\ (healthy p = true -> fst (queryConfigs p) <> Val None ->
        sentFirst (getConfigChunk "rcloneremotename")
          (snd (queryConfigs p))
          (snd (queryConfigs (snd (queryConfigs p)))))
  /\ (let q := start (unlines ["VALUE myremote"; "bogus"]) (world p) in
      fst (queryConfigs q)
      = Val (Some (errorString "failed to parse config value: bogus "))
      /\ configRcloneRemoteName (self q) = ""
      /\ configRcloneRemoteName (self (snd (queryConfigs q))) = "myremote"
      /\ configsDone (self (snd (queryConfigs q))) = false).
Proof.
  intros Hd. pose proof (queryConfigs_flag p Hd) as F.
  split; [|split; [|split]].
  - rewrite F. destruct (fst (queryConfigs p)) as [[e|]|v];
      split; intros H; first [reflexivity | discriminate].
  - intros e He. rewrite F, He. reflexivity.
  - intros Hh Hne. apply queryConfigs_first_query.
    + now rewrite healthy_queryConfigs.
    + rewrite F. destruct (fst (queryConfigs p)) as [[e|]|v];
        first [reflexivity | now contradiction Hne].
  - cbv zeta. repeat split.
Qed.

(** ** REMOVE and the configs *)

Lemma remove_chunk_not_getconfig (chunk : string) :
  HasPrefix chunk "REMOVE-" = true -> isGetConfig chunk = false.
Proof.
  unfold HasPrefix, isGetConfig. destruct chunk as [|c rest];
    [discriminate|].
  cbn [afterPrefix]. destruct (Ascii.eqb "R" c) eqn:E; [|discriminate].
  apply Ascii.eqb_eq in E. subst c. reflexivity.
Qed.

Lemma handleRemove_sameConfig (message : messageParser) (p : process) :
  sameConfig p (snd (handleRemove message p)).
Proof.
  apply (frame_handleRemove sameConfig (fun _ : string => True)
           sameConfig_refl sameConfig_trans
           (fun msg _ => sameConfig_writeOut msg)
           sameConfig_writeStderr sameConfig_readLine sameConfig_backend).
  - intros. apply planAsks_all. exact (fun _ => I).
  - intros. exact I.
Qed.

Lemma handleRemove_sentOnly (message : messageParser) (p : process) :
  (forall layout key remoteName prefix,
      planAsks (fun chunk => isGetConfig chunk = false)
        (buildFsString layout key remoteName prefix)) ->
  sentOnly (fun chunk => isGetConfig chunk = false) p
    (snd (handleRemove message p)).
Proof.
  intros Hplan.
  apply (frame_handleRemove
           (sentOnly (fun chunk => isGetConfig chunk = false))
           (fun chunk => isGetConfig chunk = false)
           (sentOnly_refl _) (sentOnly_trans _)
           (sentOnly_writeOut _)
           (sentOnly_writeStderr _) (sentOnly_readLine _)
           (sentOnly_backend _)).
  - exact Hplan.
  - exact remove_chunk_not_getconfig.
Qed.

(** C9. REMOVE leaves the configs-resolved flag and the three config
    fields as they are, whatever the message and however it ends.
    Provided the questions of [buildFsString] are not GETCONFIG queries
    (they ask for a directory hash), nothing that REMOVE sends is a
    GETCONFIG query. It works on the layout string the session holds:
    when that string does not parse, REMOVE fails at once, having read
    nothing. CHECKPRESENT, PREPARE, INITREMOTE and TRANSFER, on a
    session whose flag is not set, start by asking for the first
    config. *)
Theorem handleRemove_never_resolves (message : messageParser)
    (p : process) :
  sameConfig p (snd (handleRemove message p))
  /\ ((forall layout key remoteName prefix,
          planAsks (fun chunk => isGetConfig chunk = false)
            (buildFsString layout key remoteName prefix)) ->
      sentOnly (fun chunk => isGetConfig chunk = false) p
        (snd (handleRemove message p)))
  /\ (forall key message',
        healthy p = true ->
        finalParameter message = (key, message') -> key <> "" ->
        parseLayoutMode (configRcloneLayout (self p)) = layoutModeUnknown ->
        handleRemove message p =
        (Val (Some (errorString
           ("error parsing layout mode: "
              ++ quote (configRcloneLayout (self p))))),
         emit ("REMOVE-FAILURE " ++ key) p))
  /\ (healthy p = true -> configsDone (self p) = false ->
      (forall key message',
          finalParameter message = (key, message') -> key <> "" ->
          sentFirst (getConfigChunk "rcloneremotename") p
            (snd (handleCheckPresent message p)))
      /\ (forall mode key file m1 m2 m3,
          nextSpaceDelimitedParameter message = ((mode, None), m1) ->
          nextSpaceDelimitedParameter m1 = ((key, None), m2) ->
          finalParameter m2 = (file, m3) -> file <> "" ->
          sentFirst (getConfigChunk "rcloneremotename") p
            (snd (handleTransfer message p)))
      /\ sentFirst (getConfigChunk "rcloneremotename") p
           (snd (handlePrepare p))
      /\ sentFirst (getConfigChunk "rcloneremotename") p
           (snd (handleInitRemote p))).
Proof.
  split; [apply handleRemove_sameConfig|].
  split; [apply handleRemove_sentOnly|].
  split.
  - intros key message' Hh Hkey Hne Hlayout.
    unfold handleRemove. rewrite Hkey, (eqb_empty_false _ Hne).
    unfold bind at 1, getServer. rewrite (isUnknown_true _ Hlayout).
    unfold bind. now rewrite (sendMsg_emit _ _ Hh).
  - intros Hh Hd.
    pose proof (queryConfigs_first_query p Hh Hd) as First.
    split; [|split; [|split]].
    + intros key message' Hkey Hne.
      unfold handleCheckPresent. rewrite Hkey, (eqb_empty_false _ Hne).
      apply sentFirst_bind; [exact First | intro; grows_tac].
    + intros mode key file m1 m2 m3 H1 H2 H3 Hne.
      unfold handleTransfer. rewrite H1, H2, H3, (eqb_empty_false _ Hne).
      apply sentFirst_bind; [exact First | intro; grows_tac].
    + unfold handlePrepare.
      apply sentFirst_bind; [exact First | intro; grows_tac].
    + unfold handleInitRemote.
      apply sentFirst_bind; [exact First | intro; grows_tac].
Qed.

(** ** The failure lines of TRANSFER *)

(** C7, on the code. With the mode and the key of a TRANSFER parsed:
    when the configs cannot be resolved the failure line carries mode and
    key; but when the layout string does not parse, or the locator cannot
    be built, the line is TRANSFER-FAILURE followed by the key alone; and
    when the file path is missing it carries neither. *)
Theorem handleTransfer_failure_lines
    (message m1 m2 m3 : messageParser) (mode key file : string)
    (p : process) :
  healthy p = true ->
  nextSpaceDelimitedParameter message = ((mode, None), m1) ->
  nextSpaceDelimitedParameter m1 = ((key, None), m2) ->
  finalParameter m2 = (file, m3) ->
  (file = "" ->
   handleTransfer message p =
   (Val (Some (errorString "failed to parse file path")),
    emit "TRANSFER-FAILURE failed to parse file path" p))
  /\ (file <> "" ->
      (forall e p1,
          queryConfigs p = (Val (Some e), p1) ->
          handleTransfer message p =
          (Val (Some (wrapError ("error getting configs: " ++ Error e) e)),
           emit ("TRANSFER-FAILURE " ++ mode ++ " " ++ key
                   ++ " failed to get configs") p1))
      /\ (forall p1,
          queryConfigs p = (Val None, p1) ->
          parseLayoutMode (configRcloneLayout (self p1)) = layoutModeUnknown ->
          handleTransfer message p =
          (Val (Some (errorString
             ("error parsing layout mode: "
                ++ quote (configRcloneLayout (self p1))))),
           emit ("TRANSFER-FAILURE " ++ key) p1))
      /\ (forall p1 fsString e p2,
          queryConfigs p = (Val None, p1) ->
          parseLayoutMode (configRcloneLayout (self p1)) <> layoutModeUnknown ->
          runPlan (buildFsString
                     (parseLayoutMode (configRcloneLayout (self p1)))
                     key (configRcloneRemoteName (self p1))
                     (configPrefix (self p1)))
            p1 = (Val (fsString, Some e), p2) ->
          handleTransfer message p =
          (Val (Some (wrapError ("error building fs string: " ++ Error e) e)),
           emit ("TRANSFER-FAILURE " ++ key) p2))).
Proof.
  intros Hh H1 H2 H3.
  assert (Hq : forall r p1, queryConfigs p = (r, p1) -> healthy p1 = true).
  { intros r p1 E. pose proof (healthy_queryConfigs p) as F.
    rewrite E in F. cbn [snd] in F. congruence. }
  split.
  { intros ->. unfold handleTransfer. rewrite H1, H2, H3.
    cbn [String.eqb]. unfold bind. now rewrite (sendMsg_emit _ _ Hh). }
  intros Hne. split; [|split].
  - intros e p1 E. unfold handleTransfer.
    rewrite H1, H2, H3, (eqb_empty_false _ Hne).
    unfold bind at 1. rewrite E. unfold bind.
    now rewrite (sendMsg_emit _ _ (Hq _ _ E)).
  - intros p1 E Hlayout. unfold handleTransfer.
    rewrite H1, H2, H3, (eqb_empty_false _ Hne).
    unfold bind at 1. rewrite E.
    unfold bind at 1, getServer. rewrite (isUnknown_true _ Hlayout).
    unfold bind. now rewrite (sendMsg_emit _ _ (Hq _ _ E)).
  - intros p1 fsString e p2 E Hlayout Hplan. unfold handleTransfer.
    rewrite H1, H2, H3, (eqb_empty_false _ Hne).
    unfold bind at 1. rewrite E.
    unfold bind at 1, getServer. rewrite (isUnknown_false _ Hlayout).
    unfold bind at 1. rewrite Hplan. unfold bind.
    rewrite sendMsg_emit; [reflexivity|].
    pose proof (healthy_runPlan
      (buildFsString (parseLayoutMode (configRcloneLayout (self p1)))
         key (configRcloneRemoteName (self p1)) (configPrefix (self p1)))
      p1) as F.
    rewrite Hplan in F. cbn [snd] in F. rewrite F. exact (Hq _ _ E).
Qed.

(** ** More on the tokenizer *)

Lemma Cut_found_spec (s before after : string) :
  Cut s " " = (before, after, true) ->
  s = before ++ " " ++ after /\ noneOf " " before = true.
Proof.
  revert before after. induction s as [|c s IH]; intros before after.
  - cbn. discriminate.
  - rewrite Cut_space_cons. destruct (Ascii.eqb " " c) eqn:E.
    + intros H. injection H as <- <-. apply Ascii.eqb_eq in E. subst c.
      split; reflexivity.
    + destruct (Cut s " ") as [[b a] [|]]; [|discriminate].
      intros H. injection H as <- <-.
      destruct (IH _ _ eq_refl) as [-> Hb]. split; [reflexivity|].
      cbn [noneOf inCutset]. rewrite Ascii.eqb_sym, E. exact Hb.
Qed.

Lemma Cut_missing_spec (s before after : string) :
  Cut s " " = (before, after, false) ->
  before = s /\ after = "" /\ noneOf " " s = true.
Proof.
  revert before after. induction s as [|c s IH]; intros before after.
  - cbn. intros H. injection H as <- <-. auto.
  - rewrite Cut_space_cons. destruct (Ascii.eqb " " c) eqn:E; [discriminate|].
    destruct (Cut s " ") as [[b a] [|]] eqn:C; [discriminate|].
    intros H. injection H as <- <-.
    destruct (IH _ _ eq_refl) as (_ & _ & Hs). repeat split.
    cbn [noneOf inCutset]. rewrite Ascii.eqb_sym, E. exact Hs.
Qed.

(** X1. A parameter that [nextSpaceDelimitedParameter] returns without
    an error is not empty and holds no space; the line that is left is
    strictly shorter; and nothing is lost: the trimmed line is the
    parameter, one space and the line that is left, or the parameter
    alone with nothing left. *)
Theorem nextSpaceDelimitedParameter_success (m m' : messageParser)
    (param : string) :
  nextSpaceDelimitedParameter m = ((param, None), m') ->
  isEmpty param = false
  /\ noneOf " " param = true
  /\ String.length (line m') < String.length (line m)
  /\ (TrimRight (line m) crlf = param ++ " " ++ line m'
      \/ (TrimRight (line m) crlf = param /\ line m' = "")).
Proof.
  intros H. pose proof (next_shortens _ _ _ H) as L.
  unfold nextSpaceDelimitedParameter in H. cbn [line] in H.
  destruct (TrimRight (line m) crlf) as [|c t] eqn:E; cbn [isEmpty] in H;
    [discriminate|].
  destruct (Cut (String c t) " ") as [[before after] [|]] eqn:C.
  - destruct (Cut_found_spec _ _ _ C) as [Hs Hb].
    destruct (isEmpty before) eqn:Hne; [discriminate|].
    injection H as <- <-. cbn [line] in *.
    split; [exact Hne|]. split; [exact Hb|]. split; [exact L|].
    left. exact Hs.
  - destruct (Cut_missing_spec _ _ _ C) as (_ & _ & Hs).
    injection H as <- <-. cbn [line isEmpty] in *.
    split; [reflexivity|]. split; [exact Hs|]. split; [exact L|].
    right. split; reflexivity.
Qed.

(** X2. When [nextSpaceDelimitedParameter] returns an error, the
    parameter is empty and nothing is consumed: the parser is left with
    the trimmed line, which is empty (nothing remains to parse) or starts
    with a space (an empty parameter, reported with the quoted line). *)
Theorem nextSpaceDelimitedParameter_failure (m m' : messageParser)
    (param : string) (e : goerror) :
  nextSpaceDelimitedParameter m = ((param, Some e), m') ->
  param = ""
  /\ line m' = TrimRight (line m) crlf
  /\ ((line m' = "" /\ e = errorString "nothing remains to parse")
      \/ (exists rest, line m' = " " ++ rest
          /\ e = errorString
                 ("found an empty space-delimited parameter in line: "
                    ++ quote (line m')))).
Proof.
  unfold nextSpaceDelimitedParameter. cbn [line].
  destruct (TrimRight (line m) crlf) as [|c t] eqn:E; cbn [isEmpty].
  - intros H. injection H as <- <- <-. cbn [line]. auto.
  - destruct (Cut (String c t) " ") as [[before after] [|]] eqn:C;
      [|discriminate].
    destruct (isEmpty before) eqn:Hb; [|discriminate].
    destruct before; [|discriminate].
    destruct (Cut_found_spec _ _ _ C) as [Hs _]. cbn in Hs.
    intros H. injection H as <- <- <-. cbn [line].
    split; [reflexivity|]. split; [reflexivity|]. right.
    exists after. rewrite Hs. split; reflexivity.
Qed.

(** X3. [finalParameter] takes all that is left: it returns the trimmed
    line, which has no line ending of its own, and leaves the line
    empty, so that a further [nextSpaceDelimitedParameter] finds nothing
    to parse and a further [finalParameter] returns the empty string. *)
Theorem finalParameter_takes_all (m : messageParser) :
  fst (finalParameter m) = TrimRight (line m) crlf
  /\ TrimRight (fst (finalParameter m)) crlf = fst (finalParameter m)
  /\ line (snd (finalParameter m)) = ""
  /\ fst (nextSpaceDelimitedParameter (snd (finalParameter m)))
     = ("", Some (errorString "nothing remains to parse"))
  /\ fst (finalParameter (snd (finalParameter m))) = "".
Proof.
  unfold finalParameter at 1 2 3 4. cbn [line].
  pose proof (TrimRight_idempotent (line m) crlf) as I.
  destruct (TrimRight (line m) crlf) as [|c t] eqn:E; cbn [isEmpty fst snd line].
  - unfold finalParameter, nextSpaceDelimitedParameter. cbn [line].
    rewrite E. cbn. auto.
  - unfold finalParameter. cbn [line]. rewrite E. cbn [isEmpty fst snd].
    repeat split. exact I.
Qed.

(** ** The extensions *)

Lemma Join_cons2 (w w2 : string) (ws : list string) (sep : string) :
  Join (w :: w2 :: ws) sep = w ++ sep ++ Join (w2 :: ws) sep.
Proof. reflexivity. Qed.

Lemma TrimRight_Join (ws : list string) (t : string) :
  ws <> [] -> forallb isWord ws = true -> allOf crlf t = true ->
  TrimRight (Join ws " " ++ t) crlf = Join ws " "
  /\ isEmpty (Join ws " ") = false.
Proof.
  induction ws as [|w ws IH]; intros Hne Hw Ht; [contradiction|].
  cbn [forallb] in Hw. apply andb_true_iff in Hw as [Hw Hws].
  destruct (isWord_parts _ Hw) as (Hwne & _).
  destruct ws as [|w2 ws].
  - cbn [Join]. split; [|exact Hwne].
    exact (TrimRight_ends_with_word "" w t Hw Ht).
  - rewrite Join_cons2.
    destruct (IH ltac:(discriminate) Hws Ht) as [E1 E2].
    split; [|now apply isEmpty_app_word].
    rewrite !append_assoc.
    rewrite TrimRight_skip_word; rewrite E1; [reflexivity | exact E2].
Qed.

Lemma withServer_id (p : process) : withServer (fun s => s) p = p.
Proof. destruct p; reflexivity. Qed.

(** The loop of [handleExtensions] on a line of words notes each of
    them. *)
Lemma eachExtension_words (ws : list string) :
  forall (t : string) (fuel : nat) (p : process),
    forallb isWord ws = true -> allOf crlf t = true ->
    String.length (Join ws " " ++ t) < fuel ->
    eachExtension fuel {| line := Join ws " " ++ t |} p
    = (Val tt, withServer (noteAll ws) p).
Proof.
  induction ws as [|w ws IH]; intros t fuel p Hw Ht Hf;
    (destruct fuel as [|fuel]; [lia|]); cbn [eachExtension].
  - unfold nextSpaceDelimitedParameter. cbn [line Join append].
    rewrite (TrimRight_allOf _ _ Ht). cbn [isEmpty].
    unfold ret, noteAll. cbn [fold_left]. now rewrite withServer_id.
  - cbn [forallb] in Hw. apply andb_true_iff in Hw as [Hw Hws].
    assert (N : nextSpaceDelimitedParameter {| line := Join (w :: ws) " " ++ t |}
                = ((w, None), {| line := Join ws " " ++ "" |})).
    { destruct ws as [|w2 ws].
      - cbn [Join]. now apply next_last_word.
      - rewrite Join_cons2, !append_assoc.
        destruct (TrimRight_Join (w2 :: ws) t ltac:(discriminate) Hws Ht)
          as [E1 E2].
        rewrite next_word_then_more; rewrite ?E1, ?append_empty_r;
          [reflexivity | exact Hw | exact E2]. }
    rewrite N. pose proof (next_shortens _ _ _ N) as L. cbn [line] in L.
    unfold bind at 1, modifyServer at 1.
    rewrite (IH "" fuel _ Hws eq_refl ltac:(lia)).
    unfold withServer, noteAll. cbn [self Stderr world fold_left].
    reflexivity.
Qed.

Lemma noteExtension_frame (extension : string) (s : server) :
  reader (noteExtension extension s) = reader s
  /\ writer (noteExtension extension s) = writer s
  /\ verbose (noteExtension extension s) = verbose s
  /\ configsDone (noteExtension extension s) = configsDone s
  /\ configPrefix (noteExtension extension s) = configPrefix s
  /\ configRcloneRemoteName (noteExtension extension s)
     = configRcloneRemoteName s
  /\ configRcloneLayout (noteExtension extension s) = configRcloneLayout s.
Proof.
  unfold noteExtension.
  repeat match goal with
    | |- context [if ?b then _ else _] => destruct b
    end; cbn; repeat split.
Qed.

Lemma noteExtension_flags (extension : string) (s : server) :
  extensionInfo (noteExtension extension s)
  = extensionInfo s || (extension =? "INFO")
  /\ extensionAsync (noteExtension extension s)
     = extensionAsync s || (extension =? "ASYNC")
  /\ extensionGetGitRemoteName (noteExtension extension s)
     = extensionGetGitRemoteName s || (extension =? "GETGITREMOTENAME")
  /\ extensionUnavailableResponse (noteExtension extension s)
     = extensionUnavailableResponse s || (extension =? "UNAVAILABLERESPONSE").
Proof.
  unfold noteExtension.
  destruct (extension =? "INFO") eqn:E1.
  { apply String.eqb_eq in E1. subst. cbn.
    rewrite !orb_false_r, orb_true_r. auto. }
  destruct (extension =? "ASYNC") eqn:E2.
  { apply String.eqb_eq in E2. subst. cbn.
    rewrite !orb_false_r, orb_true_r. auto. }
  destruct (extension =? "GETGITREMOTENAME") eqn:E3.
  { apply String.eqb_eq in E3. subst. cbn.
    rewrite !orb_false_r, orb_true_r. auto. }
  destruct (extension =? "UNAVAILABLERESPONSE") eqn:E4.
  { cbn. rewrite !orb_false_r, orb_true_r. auto. }
  rewrite !orb_false_r. auto.
Qed.

Lemma noteAll_spec (extensions : list string) :
  forall s : server,
    ( extensionInfo (noteAll extensions s)
      = extensionInfo s || Contains extensions "INFO"
      /\ extensionAsync (noteAll extensions s)
         = extensionAsync s || Contains extensions "ASYNC"
      /\ extensionGetGitRemoteName (noteAll extensions s)
         = extensionGetGitRemoteName s || Contains extensions "GETGITREMOTENAME"
      /\ extensionUnavailableResponse (noteAll extensions s)
         = extensionUnavailableResponse s
           || Contains extensions "UNAVAILABLERESPONSE" )
    /\ ( reader (noteAll extensions s) = reader s
         /\ writer (noteAll extensions s) = writer s
         /\ verbose (noteAll extensions s) = verbose s
         /\ configsDone (noteAll extensions s) = configsDone s
         /\ configPrefix (noteAll extensions s) = configPrefix s
         /\ configRcloneRemoteName (noteAll extensions s)
            = configRcloneRemoteName s
         /\ configRcloneLayout (noteAll extensions s) = configRcloneLayout s ).
Proof.
  induction extensions as [|e es IH]; intros s.
  - unfold noteAll, Contains. cbn. rewrite !orb_false_r. repeat split.
  - unfold noteAll in *. cbn [fold_left].
    destruct (IH (noteExtension e s))
      as ((A1 & A2 & A3 & A4) & (B1 & B2 & B3 & B4 & B5 & B6 & B7)).
    destruct (noteExtension_flags e s) as (F1 & F2 & F3 & F4).
    destruct (noteExtension_frame e s) as (G1 & G2 & G3 & G4 & G5 & G6 & G7).
    unfold Contains in *. cbn [existsb].
    rewrite A1, A2, A3, A4, F1, F2, F3, F4, B1, B2, B3, B4, B5, B6, B7.
    rewrite (String.eqb_sym "INFO" e), (String.eqb_sym "ASYNC" e),
      (String.eqb_sym "GETGITREMOTENAME" e),
      (String.eqb_sym "UNAVAILABLERESPONSE" e), !orb_assoc.
    repeat split; assumption.
Qed.

(** X4. On a line of words, with or without its line ending,
    [handleExtensions] returns no error and sends the one line
    EXTENSIONS; each of the four flags is set when it was set before or
    its name is among the words, names it does not know are passed
    over, and the streams, the configs-resolved flag and the config
    fields of the server are as before. *)
Theorem handleExtensions_words (ws : list string) (t : string)
    (p : process) :
  healthy p = true ->
  forallb isWord ws = true ->
  allOf crlf t = true ->
  handleExtensions {| line := Join ws " " ++ t |} p
  = (Val None, emit "EXTENSIONS" (withServer (noteAll ws) p))
  /\ ( extensionInfo (noteAll ws (self p))
       = extensionInfo (self p) || Contains ws "INFO"
       /\ extensionAsync (noteAll ws (self p))
          = extensionAsync (self p) || Contains ws "ASYNC"
       /\ extensionGetGitRemoteName (noteAll ws (self p))
          = extensionGetGitRemoteName (self p)
            || Contains ws "GETGITREMOTENAME"
       /\ extensionUnavailableResponse (noteAll ws (self p))
          = extensionUnavailableResponse (self p)
            || Contains ws "UNAVAILABLERESPONSE" )
  /\ ( reader (noteAll ws (self p)) = reader (self p)
       /\ writer (noteAll ws (self p)) = writer (self p)
       /\ verbose (noteAll ws (self p)) = verbose (self p)
       /\ configsDone (noteAll ws (self p)) = configsDone (self p)
       /\ configPrefix (noteAll ws (self p)) = configPrefix (self p)
       /\ configRcloneRemoteName (noteAll ws (self p))
          = configRcloneRemoteName (self p)
       /\ configRcloneLayout (noteAll ws (self p))
          = configRcloneLayout (self p) ).
Proof.
  intros Hh Hw Ht.
  destruct (noteAll_spec ws (self p)) as (Flags & Frame).
  split; [|split; assumption].
  unfold handleExtensions. cbn [line]. unfold bind at 1.
  rewrite (eachExtension_words ws t _ p Hw Ht (Nat.lt_succ_diag_r _)).
  unfold bind. rewrite sendMsg_emit; [reflexivity|].
  destruct Frame as (_ & B2 & B3 & _).
  unfold healthy in *. cbn [withServer self Stderr].
  now rewrite B2, B3.
Qed.

(** ** More on sending and receiving *)

Lemma process_eta (p : process) :
  {| self := self p; Stderr := Stderr p; world := world p |} = p.
Proof. destruct p; reflexivity. Qed.

Lemma set_writer_same (s : server) : set_writer (writer s) s = s.
Proof. destruct s; reflexivity. Qed.

(** X5. [sendMsg] returns exactly when the streams it writes to accept
    the write. When [s.writer] refuses it, [sendMsg] panics with the
    error of the write and nothing is changed; when a verbose server
    cannot write its transcript, the message has been sent and
    [sendMsg] panics with the wrapped error. *)
Theorem sendMsg_outcome (msg : string) (p : process) :
  (fst (sendMsg msg p) = Val tt <-> healthy p = true)
  /\ (forall e, werr (writer (self p)) = Some e ->
        sendMsg msg p = (Panic e, p))
  /\ (forall e, werr (writer (self p)) = None ->
        verbose (self p) = true -> werr (Stderr p) = Some e ->
        fst (sendMsg msg p)
        = Panic (wrapError
            ("failed to write verbose message to stderr: " ++ Error e) e)
        /\ sent (snd (sendMsg msg p))
           = (sent p ++ [(msg ++ newline)%string])%list
        /\ Stderr (snd (sendMsg msg p)) = Stderr p).
Proof.
  split; [|split].
  - split.
    + destruct p as [s e w]. destruct s; destruct writer0 as [wc we];
        destruct e as [ec ee].
      unfold healthy, sendMsg, bind, writeOut, writeStderr, getServer,
        WriteString, ret, panic. cbn.
      destruct we; cbn; [discriminate|].
      destruct verbose0; cbn; [|reflexivity].
      destruct ee; cbn; [discriminate | reflexivity].
    + intros Hh. now rewrite (sendMsg_emit _ _ Hh).
  - intros e He. unfold sendMsg, bind, writeOut, WriteString, panic.
    rewrite He. now rewrite set_writer_same, process_eta.
  - intros e Hw Hv He.
    destruct p as [s se w]. destruct s; destruct writer0 as [wc we];
      destruct se as [ec ee]. cbn in Hw, Hv, He. subst.
    unfold sendMsg, bind, writeOut, writeStderr, getServer, WriteString,
      panic, sent. cbn. repeat split.
Qed.

Lemma throughDelim_spec (s l rest : string) :
  throughDelim LF s = Some (l, rest) ->
  s = l ++ rest
  /\ exists l0, l = l0 ++ newline /\ noneOf newline l0 = true.
Proof.
  revert l rest. induction s as [|c s IH]; intros l rest;
    cbn [throughDelim]; [discriminate|].
  destruct (Ascii.eqb c LF) eqn:E.
  - intros H. injection H as <- <-. apply Ascii.eqb_eq in E. subst c.
    split; [reflexivity|]. exists "". split; reflexivity.
  - destruct (throughDelim LF s) as [[l' r']|]; [|discriminate].
    intros H. injection H as <- <-.
    destruct (IH _ _ eq_refl) as (-> & l0 & -> & Hl0).
    split; [reflexivity|]. exists (String c l0). split; [reflexivity|].
    cbn [noneOf inCutset newline]. unfold newline in Hl0 |- *.
    cbn [inCutset]. now rewrite E.
Qed.

(** X6. [getMsg] never panics, sends nothing and leaves the world as it
    is. A parser it yields holds one whole line: what was to be read is
    that line followed by what is left to read, and the line ends with
    its only newline. It yields [(nil, nil)] exactly when nothing is
    left to read. *)
Theorem getMsg_outcomes (p : process) :
  (forall m p1,
      getMsg p = (Val (Some m, None), p1) ->
      unread p = line m ++ unread p1
      /\ exists l, line m = l ++ newline /\ noneOf newline l = true)
  /\ (fst (getMsg p) = Val (None, None) <-> unread p = "")
  /\ (exists r, fst (getMsg p) = Val r)
  /\ sent (snd (getMsg p)) = sent p
  /\ world (snd (getMsg p)) = world p.
Proof.
  destruct p as [s e w]. destruct s; destruct reader0 as [rb re];
    destruct e as [ec ee].
  unfold getMsg, bind, readLine, ReadString, getServer, writeStderr,
    WriteString, ret, unread, sent.
  cbn [self reader rbuf rerr Stderr world].
  destruct (throughDelim LF rb) as [[l rest]|] eqn:T.
  - destruct (throughDelim_spec _ _ _ T) as (Hs & l0 & Hl & Hl0).
    assert (Hrb : rb <> "").
    { rewrite Hs, Hl. destruct l0; discriminate. }
    cbn. destruct verbose0; cbn.
    + destruct ee as [err|]; cbn.
      * split; [intros m p1 H; discriminate|].
        split; [split; [discriminate | intros H; contradiction]|].
        split; [eexists; reflexivity|]. split; reflexivity.
      * split.
        { intros m p1 H. injection H as <- <-. cbn. split; [exact Hs|].
          exists l0. auto. }
        split; [split; [discriminate | intros H; contradiction]|].
        split; [eexists; reflexivity|]. split; reflexivity.
    + split.
      { intros m p1 H. injection H as <- <-. cbn. split; [exact Hs|].
        exists l0. auto. }
      split; [split; [discriminate | intros H; contradiction]|].
      split; [eexists; reflexivity|]. split; reflexivity.
  - cbn. destruct rb as [|c rb]; cbn.
    + split; [intros m p1 H; discriminate|].
      split; [split; reflexivity|].
      split; [eexists; reflexivity|]. split; reflexivity.
    + split; [intros m p1 H; discriminate|].
      split; [split; discriminate|].
      split; [eexists; reflexivity|]. split; reflexivity.
Qed.

(** ** More on the config negotiation *)

Lemma queryEach_stops (config : configDefinition)
    (rest : list configDefinition) (p p1 : process) :
  (forall b e, queryNames config (names config) p = (Val (b, Some e), p1) ->
     queryEach (config :: rest) p = (Val (Some e), p1))
  /\ (forall v, queryNames config (names config) p = (Panic v, p1) ->
        queryEach (config :: rest) p = (Panic v, p1)).
Proof.
  split; intros; cbn [queryEach]; unfold queryConfig, bind; now rewrite H.
Qed.

Lemma queryConfigs_stops (p p1 : process) (config : configDefinition) :
  configsDone (self p) = false ->
  config = hd config getRequiredConfigs ->
  (forall b e, queryNames config (names config) p = (Val (b, Some e), p1) ->
     queryConfigs p = (Val (Some e), p1))
  /\ (forall v, queryNames config (names config) p = (Panic v, p1) ->
        queryConfigs p = (Panic v, p1)).
Proof.
  intros Hd Hc.
  assert (E : forall q, queryConfigs q
              = (if configsDone (self q) then ret None
                 else bind (queryEach (config :: tl getRequiredConfigs))
                        (fun err => match err with
                                    | Some e => ret (Some e)
                                    | None =>
                                        bind (modifyServer (set_configsDone true))
                                          (fun _ => ret None)
                                    end)) q).
  { intros q. unfold queryConfigs. unfold bind at 1, getServer.
    rewrite Hc. reflexivity. }
  rewrite E, Hd. split.
  - intros b e H. unfold bind at 1.
    now rewrite (proj1 (queryEach_stops config _ p p1) b e H).
  - intros v H. unfold bind at 1.
    now rewrite (proj2 (queryEach_stops config _ p p1) v H).
Qed.

(** The stream is at its end when the answer is awaited. *)
Lemma queryNames_no_answer (config : configDefinition) (name : string)
    (others : list string) (p : process) :
  healthy p = true -> unread p = "" ->
  queryNames config (name :: others) p
  = (Panic nilDereference, emit ("GETCONFIG " ++ name) p).
Proof.
  intros Hh Hu. cbn [queryNames]. unfold bind at 1.
  rewrite (sendMsg_emit _ _ Hh). unfold bind at 1.
  rewrite getMsg_end; [reflexivity|]. now rewrite unread_emit.
Qed.

(** The answer is not a VALUE line. *)
Lemma queryNames_rejects (config : configDefinition) (name : string)
    (others : list string) (l rest keyword : string) (err : error)
    (m' : messageParser) (p : process) :
  healthy p = true ->
  unread p = l ++ newline ++ rest ->
  noneOf newline l = true ->
  nextSpaceDelimitedParameter {| line := l ++ newline |}
  = ((keyword, err), m') ->
  notNil err || negb (keyword =? "VALUE") = true ->
  queryNames config (name :: others) p
  = (Val (false, Some (errorString
       ("failed to parse config value: " ++ keyword ++ " " ++ line m'))),
     taken (l ++ newline) rest (emit ("GETCONFIG " ++ name) p)).
Proof.
  intros Hh Hu Hl Hn Hbad. cbn [queryNames]. unfold bind at 1.
  rewrite (sendMsg_emit _ _ Hh). unfold bind at 1.
  assert (Hh1 : healthy (emit ("GETCONFIG " ++ name) p) = true)
    by now rewrite healthy_emit.
  assert (Hu1 : unread (emit ("GETCONFIG " ++ name) p) = l ++ newline ++ rest)
    by now rewrite unread_emit.
  rewrite (getMsg_line _ _ _ Hh1 Hu1 Hl), Hn, Hbad. reflexivity.
Qed.

(** X7. When the inbound stream is at its end while an answer is
    awaited, the nil parser that [getMsg] yields is dereferenced: both
    [queryDirhash] and, with the flag not set, [queryConfigs] panic once
    their question is sent. *)
Theorem awaited_answer_missing (p : process) :
  healthy p = true ->
  unread p = "" ->
  (forall msg, queryDirhash msg p = (Panic nilDereference, emit msg p))
  /\ (configsDone (self p) = false ->
      queryConfigs p
      = (Panic nilDereference, emit "GETCONFIG rcloneremotename" p)).
Proof.
  intros Hh Hu. split.
  - intros msg. unfold queryDirhash. unfold bind at 1.
    rewrite (sendMsg_emit _ _ Hh). unfold bind at 1.
    rewrite getMsg_end; [reflexivity|]. now rewrite unread_emit.
  - intros Hd.
    set (config := hd {| names := []; description := "";
                         destination := destPrefix; defaultValue := None |}
                     getRequiredConfigs).
    destruct (queryConfigs_stops p (emit "GETCONFIG rcloneremotename" p)
                config Hd eq_refl) as [_ B].
    apply B. exact (queryNames_no_answer config _ _ p Hh Hu).
Qed.

(** X8. With the flag not set, when the first answer the controller
    gives is a line whose first parameter cannot be parsed or is not
    VALUE, [queryConfigs] returns an error that shows the keyword and
    the rest of the line; one question was sent, that line was read, and
    nothing else happened. *)
Theorem queryConfigs_rejects_answer (l rest keyword : string) (err : error)
    (m' : messageParser) (p : process) :
  healthy p = true ->
  configsDone (self p) = false ->
  unread p = l ++ newline ++ rest ->
  noneOf newline l = true ->
  nextSpaceDelimitedParameter {| line := l ++ newline |}
  = ((keyword, err), m') ->
  notNil err || negb (keyword =? "VALUE") = true ->
  queryConfigs p
  = (Val (Some (errorString
       ("failed to parse config value: " ++ keyword ++ " " ++ line m'))),
     taken (l ++ newline) rest (emit "GETCONFIG rcloneremotename" p)).
Proof.
  intros Hh Hd Hu Hl Hn Hbad.
  set (config := hd {| names := []; description := "";
                       destination := destPrefix; defaultValue := None |}
                   getRequiredConfigs).
  destruct (queryConfigs_stops p
              (taken (l ++ newline) rest (emit "GETCONFIG rcloneremotename" p))
              config Hd eq_refl) as [A _].
  apply (A false).
  exact (queryNames_rejects config _ _ l rest keyword err m' p
           Hh Hu Hl Hn Hbad).
Qed.

Lemma sameConfig_sendMsg (msg : string) (p : process) :
  sameConfig p (snd (sendMsg msg p)).
Proof.
  apply (frame_sendMsg sameConfig (fun _ : string => True)
           sameConfig_refl sameConfig_trans
           (fun m _ => sameConfig_writeOut m) sameConfig_writeStderr).
  exact I.
Qed.

Lemma sameConfig_getMsg (p : process) : sameConfig p (snd (getMsg p)).
Proof.
  apply (frame_getMsg sameConfig sameConfig_refl sameConfig_trans
           sameConfig_writeStderr sameConfig_readLine).
Qed.

Lemma filled_sameConfig (d : configField) (p p' : process) :
  sameConfig p p' -> filled d p' = filled d p.
Proof.
  intros H. unfold filled. now rewrite (sameConfig_fieldOf _ _ d H).
Qed.

(** What the loop over the names of a config leaves in the fields: a
    value that was received is not empty and fills the destination;
    fields that were filled stay filled. *)
Ltac absurd_eq :=
  intros; match goal with H : _ = _ |- _ => discriminate H end.

Lemma queryNames_fills (config : configDefinition) (ns : list string) :
  forall p : process,
    (forall d, filled d p = true ->
       filled d (snd (queryNames config ns p)) = true)
    /\ (forall e, fst (queryNames config ns p) = Val (true, e) ->
          filled (destination config) (snd (queryNames config ns p)) = true).
Proof.
  induction ns as [|n ns IH]; intros p; cbn [queryNames].
  - unfold ret. cbn [fst snd]. split; [auto | absurd_eq].
  - unfold bind.
    pose proof (sameConfig_sendMsg ("GETCONFIG " ++ n) p) as S1.
    destruct (sendMsg ("GETCONFIG " ++ n) p) as [[[]|v] p1]; cbn [snd] in S1.
    2:{ cbn [fst snd]. split; [|absurd_eq].
        intros d Hd. now rewrite (filled_sameConfig d _ _ S1). }
    pose proof (sameConfig_getMsg p1) as S2.
    destruct (getMsg p1) as [[[message [e|]]|v] p2]; cbn [snd] in S2.
    2:{ destruct message as [message|].
        2:{ unfold panic. cbn [fst snd]. split; [|absurd_eq].
            intros d Hd.
            now rewrite (filled_sameConfig d _ _ S2),
              (filled_sameConfig d _ _ S1). }
        destruct (nextSpaceDelimitedParameter message)
          as [[keyword err] message'].
        destruct (notNil err || negb (keyword =? "VALUE")).
        { unfold ret. cbn [fst snd]. split; [|absurd_eq].
          intros d Hd.
          now rewrite (filled_sameConfig d _ _ S2),
            (filled_sameConfig d _ _ S1). }
        destruct (finalParameter message') as [value message''].
        destruct (value =? "") eqn:Ev; cbn [negb].
        - destruct (IH p2) as [A B]. split.
          + intros d Hd. apply A.
            now rewrite (filled_sameConfig d _ _ S2),
              (filled_sameConfig d _ _ S1).
          + exact B.
        - unfold bind, modifyServer, ret. cbn [fst snd].
          assert (Hv : isEmpty value = false).
          { destruct value; [discriminate | reflexivity]. }
          split.
          + intros d Hd. unfold filled. cbn [self].
            destruct (configField_eq_dec d (destination config)) as [->|Hne].
            * now rewrite fieldOf_assign_same, Hv.
            * rewrite (fieldOf_assign_other _ _ _ _ Hne).
              rewrite <- (filled_sameConfig d _ _ S1),
                <- (filled_sameConfig d _ _ S2) in Hd. exact Hd.
          + intros ? _. unfold filled. cbn [self].
            now rewrite fieldOf_assign_same, Hv. }
    1,2: unfold ret, panic; cbn [fst snd]; split; [|absurd_eq];
      intros d Hd;
      now rewrite (filled_sameConfig d _ _ S2), (filled_sameConfig d _ _ S1).
Qed.

Lemma queryConfig_fills (config : configDefinition) (p : process) :
  usableDefault config = true ->
  (forall d, filled d p = true ->
     filled d (snd (queryConfig config p)) = true)
  /\ (fst (queryConfig config p) = Val None ->
        filled (destination config) (snd (queryConfig config p)) = true).
Proof.
  intros Hu. unfold queryConfig, bind.
  destruct (queryNames_fills config (names config) p) as [A B].
  destruct (queryNames config (names config) p) as [[[received [e|]]|v] p1];
    cbn [fst snd] in A, B.
  1,3: unfold ret; cbn [fst snd]; split; [exact A | absurd_eq].
  destruct received; cbn [negb].
  { unfold ret. cbn [fst snd]. split; [exact A | intros _; now apply (B None)]. }
  unfold usableDefault in Hu.
  destruct (defaultValue config) as [default|].
  - unfold modifyServer, ret. cbn [fst snd]. unfold filled. cbn [self]. split.
    + intros d Hd.
      destruct (configField_eq_dec d (destination config)) as [->|Hne].
      * now rewrite fieldOf_assign_same.
      * rewrite (fieldOf_assign_other _ _ _ _ Hne). exact (A d Hd).
    + intros _. now rewrite fieldOf_assign_same.
  - unfold getCanonicalName, liftResult.
    destruct (getCanonicalNameOf config) as [name|v];
      unfold ret; cbn [fst snd]; split; [exact A | absurd_eq | exact A | absurd_eq].
Qed.

Lemma queryEach_fills (configs : list configDefinition) :
  forallb usableDefault configs = true ->
  forall p : process,
    (forall d, filled d p = true ->
       filled d (snd (queryEach configs p)) = true)
    /\ (fst (queryEach configs p) = Val None ->
          forall config, In config configs ->
            filled (destination config) (snd (queryEach configs p)) = true).
Proof.
  induction configs as [|config configs IH]; intros Hu p.
  - cbn. split; [auto | intros _ c []].
  - cbn [forallb] in Hu. apply andb_prop in Hu as [Hc Hcs].
    cbn [queryEach]. unfold bind.
    destruct (queryConfig_fills config p Hc) as [A B].
    destruct (queryConfig config p) as [[[e|]|v] p1]; cbn [fst snd] in A, B.
    1,3: unfold ret; cbn [fst snd]; split; [exact A | absurd_eq].
    destruct (IH Hcs p1) as [A1 B1]. split.
    + intros d Hd. apply A1, A, Hd.
    + intros Hok c [<-|Hin].
      * apply A1, B. reflexivity.
      * now apply B1.
Qed.

(** X9. A negotiation that starts with the flag unset and returns no
    error leaves no config field empty: the remote name, the prefix and
    the layout each hold a value that is not the empty string, and the
    configs-resolved flag is set. *)
Theorem queryConfigs_success_fills_fields (p : process) :
  configsDone (self p) = false ->
  fst (queryConfigs p) = Val None ->
  isEmpty (configRcloneRemoteName (self (snd (queryConfigs p)))) = false
  /\ isEmpty (configPrefix (self (snd (queryConfigs p)))) = false
  /\ isEmpty (configRcloneLayout (self (snd (queryConfigs p)))) = false
  /\ configsDone (self (snd (queryConfigs p))) = true.
Proof.
  intros Hd Hok.
  pose proof (queryConfigs_flag p Hd) as Hflag. rewrite Hok in Hflag.
  revert Hok. unfold queryConfigs, bind, getServer. rewrite Hd.
  destruct (queryEach_fills getRequiredConfigs eq_refl p) as [_ B].
  destruct (queryEach getRequiredConfigs p) as [[[e|]|v] p1];
    unfold ret, modifyServer; cbn [fst snd self] in *; try absurd_eq.
  intros _.
  assert (F : forall d, fieldOf d (self p1) = fieldOf d (set_configsDone true (self p1)))
    by (intros []; reflexivity).
  pose proof (fun c H => B eq_refl c H) as B'.
  unfold filled in B'.
  assert (G : forall d, In d (map destination getRequiredConfigs) ->
                isEmpty (fieldOf d (set_configsDone true (self p1))) = false).
  { intros d Hin. apply in_map_iff in Hin as [c [<- Hc]].
    rewrite <- F. apply negb_true_iff. exact (B' c Hc). }
  refine (conj (G destRcloneRemoteName _)
            (conj (G destPrefix _) (conj (G destRcloneLayout _) eq_refl)));
    cbn; auto.
Qed.


(** ** Lines as the controller writes them *)

Lemma allOf_app (set a b : string) :
  allOf set a = true -> allOf set b = true -> allOf set (a ++ b) = true.
Proof.
  induction a as [|c a IH]; cbn [allOf append]; [auto|].
  intros H Hb. apply andb_true_iff in H as [Hc Ha].
  now rewrite Hc, (IH Ha Hb).
Qed.

Lemma allOf_crlf_newline (t : string) :
  allOf crlf t = true -> allOf crlf (t ++ newline) = true.
Proof. intros H. now apply allOf_app. Qed.

(** A line that is one word. *)
Lemma next_of_word_line (w t : string) :
  isWord w = true -> allOf crlf t = true ->
  nextSpaceDelimitedParameter {| line := (w ++ t) ++ newline |}
  = ((w, None), {| line := "" |}).
Proof.
  intros Hw Ht. rewrite append_assoc.
  apply next_last_word; [exact Hw | now apply allOf_crlf_newline].
Qed.

(** A line that is empty but for its ending. *)
Lemma next_of_blank_line (t : string) :
  allOf crlf t = true ->
  nextSpaceDelimitedParameter {| line := t ++ newline |}
  = (("", Some (errorString "nothing remains to parse")), {| line := "" |}).
Proof.
  intros Ht. unfold nextSpaceDelimitedParameter. cbn [line].
  now rewrite (TrimRight_allOf _ _ (allOf_crlf_newline _ Ht)).
Qed.

(** A line of a word and more. *)
Lemma next_of_longer_line (w more : string) :
  isWord w = true -> isEmpty (TrimRight more crlf) = false ->
  nextSpaceDelimitedParameter {| line := (w ++ " " ++ more) ++ newline |}
  = ((w, None), {| line := TrimRight more crlf |}).
Proof.
  intros Hw Hm. rewrite !append_assoc.
  rewrite <- (TrimRight_newline_end more).
  apply next_word_then_more; [exact Hw | now rewrite TrimRight_newline_end].
Qed.

Lemma TrimRight_word (w t : string) :
  isWord w = true -> allOf crlf t = true -> TrimRight (w ++ t) crlf = w.
Proof. intros Hw Ht. exact (TrimRight_ends_with_word "" w t Hw Ht). Qed.

Lemma isWord_not_empty (w : string) : isWord w = true -> isEmpty w = false.
Proof. intros H. now destruct (isWord_parts _ H). Qed.

(** X10. [queryDirhash] sends its question, reads one line, and takes
    the directory hash from an answer [VALUE <dirhash>]; words after the
    hash are ignored. Any other keyword is an error that quotes the
    keyword, a missing hash is an error that wraps the one of the
    tokenizer, and a blank line yields the error of the tokenizer as it
    is. In each case exactly the question is sent and exactly the line
    is read. *)
Theorem queryDirhash_outcomes (msg l rest : string) (p : process) :
  healthy p = true ->
  unread p = l ++ newline ++ rest ->
  noneOf newline l = true ->
  (forall dirhash t, isWord dirhash = true -> allOf crlf t = true ->
     l = "VALUE" ++ " " ++ dirhash ++ t ->
     queryDirhash msg p
     = (Val (dirhash, None), taken (l ++ newline) rest (emit msg p)))
  /\ (forall dirhash more, isWord dirhash = true ->
        isEmpty (TrimRight more crlf) = false ->
        l = "VALUE" ++ " " ++ dirhash ++ " " ++ more ->
        queryDirhash msg p
        = (Val (dirhash, None), taken (l ++ newline) rest (emit msg p)))
  /\ (forall keyword t, isWord keyword = true -> allOf crlf t = true ->
        keyword <> "VALUE" -> l = keyword ++ t ->
        queryDirhash msg p
        = (Val ("", Some (errorString
                  ("expected VALUE keyword, but got " ++ quote keyword))),
           taken (l ++ newline) rest (emit msg p)))
  /\ (forall t, allOf crlf t = true -> l = "VALUE" ++ t ->
        queryDirhash msg p
        = (Val ("", Some (wrapError
                  "failed to parse dirhash: nothing remains to parse"
                  (errorString "nothing remains to parse"))),
           taken (l ++ newline) rest (emit msg p)))
  /\ (forall t, allOf crlf t = true -> l = t ->
        queryDirhash msg p
        = (Val ("", Some (errorString "nothing remains to parse")),
           taken (l ++ newline) rest (emit msg p))).
Proof.
  intros Hh Hu Hl.
  assert (E : forall q, q = taken (l ++ newline) rest (emit msg p) ->
            queryDirhash msg p
            = (let '((keyword, err), parser) :=
                 nextSpaceDelimitedParameter {| line := l ++ newline |} in
               match err with
               | Some e => ret ("", Some e)
               | None =>
                   if negb (keyword =? "VALUE") then
                     ret ("", Some (errorString
                       ("expected VALUE keyword, but got " ++ quote keyword)))
                   else
                     let '((dirhash, err), parser) :=
                       nextSpaceDelimitedParameter parser in
                     match err with
                     | Some e =>
                         ret ("", Some (wrapError
                           ("failed to parse dirhash: " ++ Error e) e))
                     | None => ret (dirhash, None)
                     end
               end) q).
  { intros q ->. unfold queryDirhash. unfold bind at 1.
    rewrite (sendMsg_emit _ _ Hh). unfold bind at 1.
    rewrite (getMsg_line l rest (emit msg p));
      [reflexivity | now rewrite healthy_emit
      | now rewrite unread_emit | exact Hl]. }
  rewrite (E _ eq_refl). clear E.
  repeat split.
  - intros dirhash t Hw Ht ->.
    assert (Hd : TrimRight (dirhash ++ t) crlf = dirhash)
      by now apply TrimRight_word.
    rewrite (next_of_longer_line "VALUE" (dirhash ++ t) eq_refl);
      rewrite Hd; [|now apply isWord_not_empty].
    cbn [String.eqb Ascii.eqb Bool.eqb negb].
    pose proof (next_last_word dirhash "" Hw eq_refl) as N.
    rewrite append_empty_r in N. now rewrite N.
  - intros dirhash more Hw Hm ->.
    assert (Hd : TrimRight (dirhash ++ " " ++ more) crlf
                 = dirhash ++ " " ++ TrimRight more crlf)
      by now apply TrimRight_skip_word.
    rewrite (next_of_longer_line "VALUE" (dirhash ++ " " ++ more) eq_refl);
      rewrite Hd; [|now apply isEmpty_app_word, isWord_not_empty].
    cbn [String.eqb Ascii.eqb Bool.eqb negb].
    rewrite (next_word_then_more dirhash (TrimRight more crlf) Hw);
      [reflexivity | now rewrite TrimRight_idempotent].
  - intros keyword t Hw Ht Hne ->.
    rewrite (next_of_word_line keyword t Hw Ht).
    apply String.eqb_neq in Hne. now rewrite Hne.
  - intros t Ht ->.
    rewrite (next_of_word_line "VALUE" t eq_refl Ht).
    cbn [String.eqb Ascii.eqb Bool.eqb negb].
    reflexivity.
  - intros t Ht ->.
    now rewrite (next_of_blank_line t Ht).
Qed.


(** ** TRANSFER: the remaining ways through the handler *)

Lemma healthy_after (p p1 p2 : process) (r : result error)
    (plan : fsStringPlan) (out : result (string * error)) (w : World) :
  healthy p = true ->
  queryConfigs p = (r, p1) ->
  runPlan plan p1 = (out, p2) ->
  healthy (inWorld w p2) = true.
Proof.
  intros Hh Hq Hplan.
  pose proof (healthy_queryConfigs p) as E1. rewrite Hq in E1.
  pose proof (healthy_runPlan plan p1) as E2. rewrite Hplan in E2.
  cbn [snd] in E1, E2. rewrite healthy_inWorld. congruence.
Qed.

(** The handler up to the locator of the remote: arguments parsed,
    configs resolved, layout known, locator built. *)
Ltac transfer_to_locator Hmode Hk Hfile Hne Hq Hlayout Hplan :=
  unfold handleTransfer;
  rewrite Hmode, Hk, Hfile, (eqb_empty_false _ Hne);
  unfold bind at 1; rewrite Hq;
  unfold bind at 1, getServer; rewrite (isUnknown_false _ Hlayout);
  unfold bind at 1; rewrite Hplan.

(** X11. A TRANSFER whose direction or key cannot be parsed is answered
    at once by a TRANSFER-FAILURE that names the missing part, and the
    error that is returned wraps the one of the tokenizer. Nothing is
    read and no config is asked for, whatever the configs-resolved flag:
    the process is as it was, but for the one line it sent. *)
Theorem handleTransfer_malformed (message : messageParser) (p : process) :
  healthy p = true ->
  (forall mode e m1,
      nextSpaceDelimitedParameter message = ((mode, Some e), m1) ->
      handleTransfer message p
      = (Val (Some (wrapError
                ("malformed arguments for TRANSFER: " ++ Error e) e)),
         emit "TRANSFER-FAILURE failed to parse direction" p))
  /\ (forall mode m1 key e m2,
        nextSpaceDelimitedParameter message = ((mode, None), m1) ->
        nextSpaceDelimitedParameter m1 = ((key, Some e), m2) ->
        handleTransfer message p
        = (Val (Some (wrapError
                  ("malformed arguments for TRANSFER: " ++ Error e) e)),
           emit "TRANSFER-FAILURE failed to parse key" p))
  /\ (forall t, allOf crlf t = true -> line message = t ->
        fst (handleTransfer message p)
        = Val (Some (wrapError
            "malformed arguments for TRANSFER: nothing remains to parse"
            (errorString "nothing remains to parse"))))
  /\ (forall mode t, isWord mode = true -> allOf crlf t = true ->
        line message = mode ++ t ->
        sent (snd (handleTransfer message p))
        = (sent p ++ [("TRANSFER-FAILURE failed to parse key" ++ newline)%string])%list).
Proof.
  intros Hh.
  assert (A : forall mode e m1,
      nextSpaceDelimitedParameter message = ((mode, Some e), m1) ->
      handleTransfer message p
      = (Val (Some (wrapError
                ("malformed arguments for TRANSFER: " ++ Error e) e)),
         emit "TRANSFER-FAILURE failed to parse direction" p)).
  { intros mode e m1 H1. unfold handleTransfer. rewrite H1.
    unfold bind. now rewrite (sendMsg_emit _ _ Hh). }
  assert (B : forall mode m1 key e m2,
        nextSpaceDelimitedParameter message = ((mode, None), m1) ->
        nextSpaceDelimitedParameter m1 = ((key, Some e), m2) ->
        handleTransfer message p
        = (Val (Some (wrapError
                  ("malformed arguments for TRANSFER: " ++ Error e) e)),
           emit "TRANSFER-FAILURE failed to parse key" p)).
  { intros mode m1 key e m2 H1 H2. unfold handleTransfer. rewrite H1, H2.
    unfold bind. now rewrite (sendMsg_emit _ _ Hh). }
  refine (conj A (conj B (conj _ _))).
  - intros t Ht Hline. destruct message as [l]. cbn [line] in Hline. subst l.
    rewrite (A "" (errorString "nothing remains to parse") {| line := "" |});
      [reflexivity|].
    unfold nextSpaceDelimitedParameter. cbn [line].
    now rewrite (TrimRight_allOf _ _ Ht).
  - intros mode t Hw Ht Hline. destruct message as [l]. cbn [line] in Hline.
    subst l.
    rewrite (B mode {| line := "" |} ""
               (errorString "nothing remains to parse") {| line := "" |}
               (next_last_word mode t Hw Ht) next_exhausted).
    cbn [snd]. apply sent_emit.
Qed.

(** X12. Once the three arguments of a TRANSFER are parsed, the configs
    are resolved, the layout is known and the locator is built, a
    remote file system that cannot be obtained is answered by a
    TRANSFER-FAILURE with mode and key, and its error is returned as it
    is; the local file system is then not asked for. A local file
    system that cannot be obtained is answered likewise, and its error
    is returned wrapped. Neither way copies anything. *)
Theorem handleTransfer_fs_failures
    (message m1 m2 m3 : messageParser) (mode key file : string)
    (p p1 p2 : process) (remoteFsString : string) :
  healthy p = true ->
  nextSpaceDelimitedParameter message = ((mode, None), m1) ->
  nextSpaceDelimitedParameter m1 = ((key, None), m2) ->
  finalParameter m2 = (file, m3) ->
  file <> "" ->
  queryConfigs p = (Val None, p1) ->
  parseLayoutMode (configRcloneLayout (self p1)) <> layoutModeUnknown ->
  runPlan (buildFsString (parseLayoutMode (configRcloneLayout (self p1)))
             key (configRcloneRemoteName (self p1)) (configPrefix (self p1)))
    p1 = (Val (remoteFsString, None), p2) ->
  (forall remoteFs e w3,
      cacheGet remoteFsString (world p2) = ((remoteFs, Some e), w3) ->
      handleTransfer message p
      = (Val (Some e),
         emit ("TRANSFER-FAILURE " ++ mode ++ " " ++ key
                 ++ " failed to get remote fs") (inWorld w3 p2)))
  /\ (forall remoteFs w3 localFs e w4,
        cacheGet remoteFsString (world p2) = ((remoteFs, None), w3) ->
        cacheGet (filepathDir file) w3 = ((localFs, Some e), w4) ->
        handleTransfer message p
        = (Val (Some (wrapError ("failed to get local fs: " ++ Error e) e)),
           emit ("TRANSFER-FAILURE " ++ mode ++ " " ++ key
                   ++ " failed to get local fs") (inWorld w4 p2))).
Proof.
  intros Hh Hmode Hk Hfile Hne Hq Hlayout Hplan.
  pose proof (fun w => healthy_after p p1 p2 _ _ _ w Hh Hq Hplan) as Hh2.
  split.
  - intros remoteFs e w3 Hfs.
    transfer_to_locator Hmode Hk Hfile Hne Hq Hlayout Hplan.
    unfold bind at 1, backend at 1. rewrite Hfs.
    change {| self := self p2; Stderr := Stderr p2; world := w3 |}
      with (inWorld w3 p2).
    unfold bind. now rewrite (sendMsg_emit _ _ (Hh2 w3)).
  - intros remoteFs w3 localFs e w4 Hfs Hlocal.
    transfer_to_locator Hmode Hk Hfile Hne Hq Hlayout Hplan.
    unfold bind at 1, backend at 1. rewrite Hfs.
    unfold bind at 1, backend at 1. cbn [world]. rewrite Hlocal.
    cbn [self Stderr].
    change {| self := self p2; Stderr := Stderr p2; world := w4 |}
      with (inWorld w4 p2).
    unfold bind. now rewrite (sendMsg_emit _ _ (Hh2 w4)).
Qed.

(** X13. Once the three arguments of a TRANSFER STORE are parsed, the
    configs are resolved, the layout is known, the locator is built and
    both file systems are obtained, the file is copied from the local
    directory to the remote under the name of the key. A copy that
    worked is answered by TRANSFER-SUCCESS STORE with the key and no
    error; a copy that failed by a TRANSFER-FAILURE that carries the
    text of the error, and the error is returned, also when it is
    [fs.ErrorObjectNotFound]. *)
Theorem handleTransfer_store_outcomes
    (message m1 m2 m3 : messageParser) (key file : string)
    (p p1 p2 : process) (remoteFsString : string) (remoteFs localFs : Fs)
    (w3 w4 w5 : World) (err : error) :
  healthy p = true ->
  nextSpaceDelimitedParameter message = (("STORE", None), m1) ->
  nextSpaceDelimitedParameter m1 = ((key, None), m2) ->
  finalParameter m2 = (file, m3) ->
  file <> "" ->
  queryConfigs p = (Val None, p1) ->
  parseLayoutMode (configRcloneLayout (self p1)) <> layoutModeUnknown ->
  runPlan (buildFsString (parseLayoutMode (configRcloneLayout (self p1)))
             key (configRcloneRemoteName (self p1)) (configPrefix (self p1)))
    p1 = (Val (remoteFsString, None), p2) ->
  cacheGet remoteFsString (world p2) = ((remoteFs, None), w3) ->
  cacheGet (filepathDir file) w3 = ((localFs, None), w4) ->
  CopyFile remoteFs localFs key (filepathBase file) w4 = (err, w5) ->
  handleTransfer message p =
  match err with
  | None =>
      (Val None, emit ("TRANSFER-SUCCESS STORE " ++ key) (inWorld w5 p2))
  | Some e =>
      (Val (Some e),
       emit ("TRANSFER-FAILURE STORE " ++ key ++ " failed to copy file: "
               ++ Error e) (inWorld w5 p2))
  end.
Proof.
  intros Hh Hmode Hk Hfile Hne Hq Hlayout Hplan Hfs Hlocal Hcopy.
  pose proof (healthy_after p p1 p2 _ _ _ w5 Hh Hq Hplan) as Hh2.
  transfer_to_locator Hmode Hk Hfile Hne Hq Hlayout Hplan.
  unfold bind at 1, backend at 1. rewrite Hfs.
  unfold bind at 1, backend at 1. cbn [world]. rewrite Hlocal.
  cbn [String.eqb Ascii.eqb Bool.eqb].
  unfold bind at 1, backend at 1. cbn [world]. rewrite Hcopy.
  cbn [self Stderr].
  change {| self := self p2; Stderr := Stderr p2; world := w5 |}
    with (inWorld w5 p2).
  destruct err as [e|]; unfold bind; rewrite (sendMsg_emit _ _ Hh2);
    reflexivity.
Qed.

(** X14. A TRANSFER whose mode is neither STORE nor RETRIEVE is found
    out late: the configs are resolved, the locator is built and both
    file systems are obtained before the mode is looked at. It is then
    answered by a TRANSFER-FAILURE with mode and key, an error is
    returned, and nothing is copied: the world is the one the second
    file system was obtained in. *)
Theorem handleTransfer_unrecognized_mode
    (message m1 m2 m3 : messageParser) (mode key file : string)
    (p p1 p2 : process) (remoteFsString : string) (remoteFs localFs : Fs)
    (w3 w4 : World) :
  healthy p = true ->
  nextSpaceDelimitedParameter message = ((mode, None), m1) ->
  mode <> "STORE" -> mode <> "RETRIEVE" ->
  nextSpaceDelimitedParameter m1 = ((key, None), m2) ->
  finalParameter m2 = (file, m3) ->
  file <> "" ->
  queryConfigs p = (Val None, p1) ->
  parseLayoutMode (configRcloneLayout (self p1)) <> layoutModeUnknown ->
  runPlan (buildFsString (parseLayoutMode (configRcloneLayout (self p1)))
             key (configRcloneRemoteName (self p1)) (configPrefix (self p1)))
    p1 = (Val (remoteFsString, None), p2) ->
  cacheGet remoteFsString (world p2) = ((remoteFs, None), w3) ->
  cacheGet (filepathDir file) w3 = ((localFs, None), w4) ->
  handleTransfer message p
  = (Val (Some (errorString ("received malformed TRANSFER mode: " ++ mode))),
     emit ("TRANSFER-FAILURE " ++ mode ++ " " ++ key ++ " unrecognized mode")
       (inWorld w4 p2)).
Proof.
  intros Hh Hmode Hs Hr Hk Hfile Hne Hq Hlayout Hplan Hfs Hlocal.
  pose proof (healthy_after p p1 p2 _ _ _ w4 Hh Hq Hplan) as Hh2.
  transfer_to_locator Hmode Hk Hfile Hne Hq Hlayout Hplan.
  unfold bind at 1, backend at 1. rewrite Hfs.
  unfold bind at 1, backend at 1. cbn [world]. rewrite Hlocal.
  apply String.eqb_neq in Hs, Hr. rewrite Hs, Hr.
  cbn [self Stderr].
  change {| self := self p2; Stderr := Stderr p2; world := w4 |}
    with (inWorld w4 p2).
  unfold bind. now rewrite (sendMsg_emit _ _ Hh2).
Qed.


(** ** CHECKPRESENT and REMOVE: the ways out before the lookup *)

Lemma healthy_after_queryConfigs (p p1 : process) (r : result error) :
  healthy p = true -> queryConfigs p = (r, p1) -> healthy p1 = true.
Proof.
  intros Hh E. pose proof (healthy_queryConfigs p) as F.
  rewrite E in F. cbn [snd] in F. congruence.
Qed.

Lemma healthy_after_runPlan (plan : fsStringPlan) (p p2 : process)
    (out : result (string * error)) (w : World) :
  healthy p = true -> runPlan plan p = (out, p2) ->
  healthy (inWorld w p2) = true.
Proof.
  intros Hh E. pose proof (healthy_runPlan plan p) as F.
  rewrite E in F. cbn [snd] in F. rewrite healthy_inWorld. congruence.
Qed.

(** X15. CHECKPRESENT before the lookup. Without a key it returns an
    error and sends nothing at all. With a key: configs that cannot be
    resolved, a layout that does not parse and a locator that cannot be
    built are each answered by CHECKPRESENT-FAILURE, the first with a
    reason after the key; a remote file system that cannot be obtained
    is answered by CHECKPRESENT-UNKNOWN. Each of them returns an
    error; the one of the configs is turned into text, the one of the
    locator is wrapped, the one of the file system is returned as it
    is. *)
Theorem handleCheckPresent_early_exits
    (message message' : messageParser) (key : string) (p : process) :
  healthy p = true ->
  finalParameter message = (key, message') ->
  (key = "" ->
   handleCheckPresent message p
   = (Val (Some (errorString "failed to parse response for CHECKPRESENT")),
      p))
  /\ (key <> "" ->
      (forall e p1,
          queryConfigs p = (Val (Some e), p1) ->
          handleCheckPresent message p
          = (Val (Some (errorString ("error getting configs: " ++ Error e))),
             emit ("CHECKPRESENT-FAILURE " ++ key ++ " failed to get configs")
               p1))
      /\ (forall p1,
          queryConfigs p = (Val None, p1) ->
          parseLayoutMode (configRcloneLayout (self p1)) = layoutModeUnknown ->
          handleCheckPresent message p
          = (Val (Some (errorString
                ("error parsing layout mode: "
                   ++ quote (configRcloneLayout (self p1))))),
             emit ("CHECKPRESENT-FAILURE " ++ key) p1))
      /\ (forall p1 fsString e p2,
          queryConfigs p = (Val None, p1) ->
          parseLayoutMode (configRcloneLayout (self p1)) <> layoutModeUnknown ->
          runPlan (buildFsString
                     (parseLayoutMode (configRcloneLayout (self p1)))
                     key (configRcloneRemoteName (self p1))
                     (configPrefix (self p1)))
            p1 = (Val (fsString, Some e), p2) ->
          handleCheckPresent message p
          = (Val (Some (wrapError ("error building fs string: " ++ Error e) e)),
             emit ("CHECKPRESENT-FAILURE " ++ key) p2))
      /\ (forall p1 fsString p2 remoteFs e w3,
          queryConfigs p = (Val None, p1) ->
          parseLayoutMode (configRcloneLayout (self p1)) <> layoutModeUnknown ->
          runPlan (buildFsString
                     (parseLayoutMode (configRcloneLayout (self p1)))
                     key (configRcloneRemoteName (self p1))
                     (configPrefix (self p1)))
            p1 = (Val (fsString, None), p2) ->
          cacheGet fsString (world p2) = ((remoteFs, Some e), w3) ->
          handleCheckPresent message p
          = (Val (Some e),
             emit ("CHECKPRESENT-UNKNOWN " ++ key ++ " failed to get remote fs")
               (inWorld w3 p2)))).
Proof.
  intros Hh Hkey. split.
  { intros ->. unfold handleCheckPresent. now rewrite Hkey. }
  intros Hne. repeat split.
  - intros e p1 Hq. unfold handleCheckPresent.
    rewrite Hkey, (eqb_empty_false _ Hne). unfold bind at 1. rewrite Hq.
    unfold bind.
    now rewrite (sendMsg_emit _ _ (healthy_after_queryConfigs _ _ _ Hh Hq)).
  - intros p1 Hq Hlayout. unfold handleCheckPresent.
    rewrite Hkey, (eqb_empty_false _ Hne). unfold bind at 1. rewrite Hq.
    unfold bind at 1, getServer. rewrite (isUnknown_true _ Hlayout).
    unfold bind.
    now rewrite (sendMsg_emit _ _ (healthy_after_queryConfigs _ _ _ Hh Hq)).
  - intros p1 fsString e p2 Hq Hlayout Hplan. unfold handleCheckPresent.
    rewrite Hkey, (eqb_empty_false _ Hne). unfold bind at 1. rewrite Hq.
    unfold bind at 1, getServer. rewrite (isUnknown_false _ Hlayout).
    unfold bind at 1. rewrite Hplan. unfold bind.
    pose proof (healthy_after p p1 p2 _ _ _ (world p2) Hh Hq Hplan) as Hh2.
    unfold inWorld in Hh2. rewrite process_eta in Hh2.
    now rewrite (sendMsg_emit _ _ Hh2).
  - intros p1 fsString p2 remoteFs e w3 Hq Hlayout Hplan Hfs.
    unfold handleCheckPresent.
    rewrite Hkey, (eqb_empty_false _ Hne). unfold bind at 1. rewrite Hq.
    unfold bind at 1, getServer. rewrite (isUnknown_false _ Hlayout).
    unfold bind at 1. rewrite Hplan.
    unfold bind at 1, backend at 1. rewrite Hfs.
    change {| self := self p2; Stderr := Stderr p2; world := w3 |}
      with (inWorld w3 p2).
    unfold bind.
    now rewrite (sendMsg_emit _ _ (healthy_after p p1 p2 _ _ _ w3 Hh Hq Hplan)).
Qed.

(** X16. REMOVE before the lookup. Without a key it returns an error
    and sends nothing at all. With a key and a layout that parses, a
    locator that cannot be built and a remote file system that cannot be
    obtained are both answered by REMOVE-FAILURE with the key alone,
    and the error that is returned wraps the cause. *)
Theorem handleRemove_early_exits
    (message message' : messageParser) (key : string) (p : process) :
  healthy p = true ->
  finalParameter message = (key, message') ->
  (key = "" ->
   handleRemove message p
   = (Val (Some (errorString "failed to parse key for REMOVE")), p))
  /\ (key <> "" ->
      parseLayoutMode (configRcloneLayout (self p)) <> layoutModeUnknown ->
      (forall fsString e p2,
          runPlan (buildFsString
                     (parseLayoutMode (configRcloneLayout (self p)))
                     key (configRcloneRemoteName (self p))
                     (configPrefix (self p)))
            p = (Val (fsString, Some e), p2) ->
          handleRemove message p
          = (Val (Some (wrapError ("error building fs string: " ++ Error e) e)),
             emit ("REMOVE-FAILURE " ++ key) p2))
      /\ (forall fsString p2 remoteFs e w3,
          runPlan (buildFsString
                     (parseLayoutMode (configRcloneLayout (self p)))
                     key (configRcloneRemoteName (self p))
                     (configPrefix (self p)))
            p = (Val (fsString, None), p2) ->
          cacheGet fsString (world p2) = ((remoteFs, Some e), w3) ->
          handleRemove message p
          = (Val (Some (wrapError ("error getting remote fs: " ++ Error e) e)),
             emit ("REMOVE-FAILURE " ++ key) (inWorld w3 p2)))).
Proof.
  intros Hh Hkey. split.
  { intros ->. unfold handleRemove. now rewrite Hkey. }
  intros Hne Hlayout. split.
  - intros fsString e p2 Hplan. unfold handleRemove.
    rewrite Hkey, (eqb_empty_false _ Hne).
    unfold bind at 1, getServer. rewrite (isUnknown_false _ Hlayout).
    unfold bind at 1. rewrite Hplan. unfold bind.
    pose proof (healthy_after_runPlan _ p p2 _ (world p2) Hh Hplan) as Hh2.
    unfold inWorld in Hh2. rewrite process_eta in Hh2.
    now rewrite (sendMsg_emit _ _ Hh2).
  - intros fsString p2 remoteFs e w3 Hplan Hfs. unfold handleRemove.
    rewrite Hkey, (eqb_empty_false _ Hne).
    unfold bind at 1, getServer. rewrite (isUnknown_false _ Hlayout).
    unfold bind at 1. rewrite Hplan.
    unfold bind at 1, backend at 1. rewrite Hfs.
    change {| self := self p2; Stderr := Stderr p2; world := w3 |}
      with (inWorld w3 p2).
    unfold bind.
    now rewrite (sendMsg_emit _ _ (healthy_after_runPlan _ p p2 _ w3 Hh Hplan)).
Qed.

(** ** PREPARE and INITREMOTE *)

(** X17. PREPARE answers by the outcome of the negotiation alone:
    PREPARE-SUCCESS and no error when the configs are resolved,
    PREPARE-FAILURE and the wrapped error when they are not; a panic of
    the negotiation goes through. On a session whose configs are
    resolved already it sends PREPARE-SUCCESS and nothing else. From a
    session whose flag is not set, the flag is set afterwards exactly
    when PREPARE returned no error. *)
Theorem handlePrepare_outcomes (p : process) :
  healthy p = true ->
  (forall p1, queryConfigs p = (Val None, p1) ->
     handlePrepare p = (Val None, emit "PREPARE-SUCCESS" p1))
  /\ (forall e p1, queryConfigs p = (Val (Some e), p1) ->
        handlePrepare p
        = (Val (Some (wrapError ("error getting configs: " ++ Error e) e)),
           emit "PREPARE-FAILURE Error getting configs" p1))
  /\ (forall v p1, queryConfigs p = (Panic v, p1) ->
        handlePrepare p = (Panic v, p1))
  /\ (configsDone (self p) = true ->
        handlePrepare p = (Val None, emit "PREPARE-SUCCESS" p))
  /\ (configsDone (self p) = false ->
        (configsDone (self (snd (handlePrepare p))) = true
         <-> fst (handlePrepare p) = Val None)).
Proof.
  intros Hh.
  assert (A : forall p1, queryConfigs p = (Val None, p1) ->
     handlePrepare p = (Val None, emit "PREPARE-SUCCESS" p1)).
  { intros p1 Hq. unfold handlePrepare. unfold bind at 1. rewrite Hq.
    unfold bind.
    now rewrite (sendMsg_emit _ _ (healthy_after_queryConfigs _ _ _ Hh Hq)). }
  assert (B : forall e p1, queryConfigs p = (Val (Some e), p1) ->
        handlePrepare p
        = (Val (Some (wrapError ("error getting configs: " ++ Error e) e)),
           emit "PREPARE-FAILURE Error getting configs" p1)).
  { intros e p1 Hq. unfold handlePrepare. unfold bind at 1. rewrite Hq.
    unfold bind.
    now rewrite (sendMsg_emit _ _ (healthy_after_queryConfigs _ _ _ Hh Hq)). }
  assert (C : forall v p1, queryConfigs p = (Panic v, p1) ->
        handlePrepare p = (Panic v, p1)).
  { intros v p1 Hq. unfold handlePrepare. unfold bind at 1.
    now rewrite Hq. }
  refine (conj A (conj B (conj C (conj _ _)))).
  - intros Hd. apply A. now apply queryConfigs_when_done.
  - intros Hd. pose proof (queryConfigs_flag p Hd) as F.
    destruct (queryConfigs p) as [[[e|]|v] p1] eqn:Hq; cbn [fst snd] in F.
    + rewrite (B e p1 eq_refl). cbn [fst snd]. rewrite self_emit.
      cbn [configsDone set_writer]. rewrite F.
      split; intros H; discriminate H.
    + rewrite (A p1 eq_refl). cbn [fst snd]. rewrite self_emit.
      cbn [configsDone set_writer]. rewrite F. split; reflexivity.
    + rewrite (C v p1 eq_refl). cbn [fst snd]. rewrite F.
      split; intros H; discriminate H.
Qed.

(** X18. INITREMOTE. When the configs cannot be resolved it returns the
    wrapped error without any INITREMOTE line: the process is as the
    negotiation left it. With the configs resolved it sends exactly one
    line. The remote name, without a colon at its end, is looked up among
    the names of the remotes; if it is one of them the answer is
    INITREMOTE-SUCCESS. Otherwise a name that does not start with a
    colon does not exist; one that starts with a colon must parse as a
    backend, have no path, and name a backend that is found, after which
    the answer is INITREMOTE-SUCCESS again. *)
Theorem handleInitRemote_outcomes (p p1 : process) :
  healthy p = true ->
  (forall e, queryConfigs p = (Val (Some e), p1) ->
     handleInitRemote p
     = (Val (Some (wrapError ("failed to get configs: " ++ Error e) e)), p1))
  /\ (queryConfigs p = (Val None, p1) ->
      (Contains (GetRemoteNames (world p1))
         (TrimSuffix (configRcloneRemoteName (self p1)) ":") = true ->
       handleInitRemote p = (Val None, emit "INITREMOTE-SUCCESS" p1))
      /\ (Contains (GetRemoteNames (world p1))
            (TrimSuffix (configRcloneRemoteName (self p1)) ":") = false ->
          (HasPrefix (configRcloneRemoteName (self p1)) ":" = false ->
           handleInitRemote p
           = (Val (Some (errorString
                 ("remote does not exist: "
                    ++ configRcloneRemoteName (self p1)))),
              emit ("INITREMOTE-FAILURE remote does not exist: "
                      ++ configRcloneRemoteName (self p1)) p1))
          /\ (HasPrefix (configRcloneRemoteName (self p1)) ":" = true ->
              forall parsed err,
                fspathParse (configRcloneRemoteName (self p1)) = (parsed, err) ->
                handleInitRemote p
                = match err with
                  | Some _ =>
                      (Val (Some (errorString
                         ("remote could not be parsed as a backend: "
                            ++ configRcloneRemoteName (self p1)))),
                       emit ("INITREMOTE-FAILURE remote could not be parsed as a backend: "
                               ++ configRcloneRemoteName (self p1)) p1)
                  | None =>
                      if negb (parsedPath parsed =? "") then
                        (Val (Some (errorString
                           ("backend must not have a path: "
                              ++ configRcloneRemoteName (self p1)))),
                         emit ("INITREMOTE-FAILURE backend must not have a path: "
                                 ++ configRcloneRemoteName (self p1)) p1)
                      else
                        match fsFind (TrimPrefix (parsedName parsed) ":") with
                        | Some _ =>
                            (Val (Some (errorString
                               ("backend does not exist: "
                                  ++ TrimPrefix (parsedName parsed) ":"))),
                             emit ("INITREMOTE-FAILURE backend does not exist: "
                                     ++ TrimPrefix (parsedName parsed) ":") p1)
                        | None =>
                            (Val None, emit "INITREMOTE-SUCCESS" p1)
                        end
                  end))).
Proof.
  intros Hh. split.
  { intros e Hq. unfold handleInitRemote. unfold bind at 1.
    now rewrite Hq. }
  intros Hq.
  pose proof (healthy_after_queryConfigs _ _ _ Hh Hq) as Hh1.
  assert (E : forall k : list string -> M error,
            bind (backend (fun w => (GetRemoteNames w, w))) k p1
            = k (GetRemoteNames (world p1)) p1).
  { intros k. unfold bind, backend. now rewrite process_eta. }
  split; [|intros Hin; split].
  - intros Hin. unfold handleInitRemote. unfold bind at 1. rewrite Hq.
    unfold bind at 1, getServer. rewrite E, Hin.
    unfold bind. now rewrite (sendMsg_emit _ _ Hh1).
  - intros Hpre. unfold handleInitRemote. unfold bind at 1. rewrite Hq.
    unfold bind at 1, getServer. rewrite E, Hin, Hpre. cbn [negb].
    unfold bind. now rewrite (sendMsg_emit _ _ Hh1).
  - intros Hpre parsed err Hparse.
    unfold handleInitRemote. unfold bind at 1. rewrite Hq.
    unfold bind at 1, getServer. rewrite E, Hin, Hpre, Hparse. cbn [negb].
    destruct err as [e|].
    + unfold bind. now rewrite (sendMsg_emit _ _ Hh1).
    + destruct (negb (parsedPath parsed =? "")).
      * unfold bind. now rewrite (sendMsg_emit _ _ Hh1).
      * destruct (fsFind (TrimPrefix (parsedName parsed) ":"));
          unfold bind; now rewrite (sendMsg_emit _ _ Hh1).
Qed.


(** ** LISTCONFIGS *)

Lemma healthy_emitAll (msgs : list string) :
  forall p : process, healthy (emitAll msgs p) = healthy p.
Proof.
  induction msgs as [|msg msgs IH]; intros p; [reflexivity|].
  unfold emitAll. cbn [fold_left]. fold (emitAll msgs (emit msg p)).
  now rewrite IH, healthy_emit.
Qed.

Lemma sent_emitAll (msgs : list string) :
  forall p : process,
    sent (emitAll msgs p)
    = (sent p ++ map (fun msg => (msg ++ newline)%string) msgs)%list.
Proof.
  induction msgs as [|msg msgs IH]; intros p.
  - cbn. now rewrite app_nil_r.
  - unfold emitAll. cbn [fold_left map]. fold (emitAll msgs (emit msg p)).
    now rewrite IH, sent_emit, <- app_assoc.
Qed.

Lemma unread_emitAll (msgs : list string) :
  forall p : process, unread (emitAll msgs p) = unread p.
Proof.
  induction msgs as [|msg msgs IH]; intros p; [reflexivity|].
  unfold emitAll. cbn [fold_left]. fold (emitAll msgs (emit msg p)).
  now rewrite IH, unread_emit.
Qed.

Lemma world_emitAll (msgs : list string) :
  forall p : process, world (emitAll msgs p) = world p.
Proof.
  induction msgs as [|msg msgs IH]; intros p; [reflexivity|].
  unfold emitAll. cbn [fold_left]. fold (emitAll msgs (emit msg p)).
  now rewrite IH, world_emit.
Qed.

Lemma listEach_lines (configs : list configDefinition) :
  forall p : process,
    healthy p = true ->
    forallb named configs = true ->
    listEach configs p = (Val tt, emitAll (map configLine configs) p).
Proof.
  induction configs as [|c configs IH]; intros p Hh Hn; [reflexivity|].
  cbn [forallb] in Hn. apply andb_prop in Hn as [Hc Hn].
  cbn [listEach map]. unfold bind at 1, getCanonicalName, liftResult,
    getCanonicalNameOf.
  unfold named in Hc. unfold configLine at 1.
  destruct (names c) as [|name more]; [discriminate|]. cbn [hd].
  unfold bind at 1. rewrite (sendMsg_emit _ _ Hh).
  rewrite (IH _ (eq_trans (healthy_emit _ _) Hh) Hn). reflexivity.
Qed.

(** X19. LISTCONFIGS sends one CONFIG line for each required config,
    in their order, made of the first name of the config and its full
    description, and then CONFIGEND. Every required config has a name,
    so the handler does not panic on a session whose streams accept
    writes. It reads nothing and leaves the world as it is. The names it
    lists are those the negotiation asks for first, and the synonyms are
    part of the description. *)
Theorem handleListConfigs_lines (p : process) :
  healthy p = true ->
  handleListConfigs p
  = (Val tt, emit "CONFIGEND" (emitAll (map configLine getRequiredConfigs) p))
  /\ sent (snd (handleListConfigs p))
     = (sent p
        ++ map (fun c => (configLine c ++ newline)%string) getRequiredConfigs
        ++ [("CONFIGEND" ++ newline)%string])%list
  /\ unread (snd (handleListConfigs p)) = unread p
  /\ world (snd (handleListConfigs p)) = world p
  /\ map (fun c => hd "" (names c)) getRequiredConfigs
     = ["rcloneremotename"; "rcloneprefix"; "rclonelayout"]
  /\ map fullDescription getRequiredConfigs
     = map (fun c => "(synonyms: " ++ Join (tl (names c)) ", " ++ ") "
                       ++ description c) getRequiredConfigs
  /\ map (fun c => Join (tl (names c)) ", ") getRequiredConfigs
     = ["target"; "prefix"; "rclone_layout"].
Proof.
  intros Hh.
  assert (E : handleListConfigs p
              = (Val tt, emit "CONFIGEND"
                           (emitAll (map configLine getRequiredConfigs) p))).
  { unfold handleListConfigs. unfold bind.
    rewrite (listEach_lines getRequiredConfigs p Hh eq_refl).
    rewrite sendMsg_emit; [reflexivity | now rewrite healthy_emitAll]. }
  rewrite E. cbn [snd].
  refine (conj eq_refl (conj _ (conj _ (conj _ (conj eq_refl
            (conj eq_refl eq_refl)))))).
  - rewrite sent_emit, sent_emitAll, map_map, <- app_assoc. reflexivity.
  - now rewrite unread_emit, unread_emitAll.
  - now rewrite world_emit, world_emitAll.
Qed.


(** ** The command loop, one line at a time *)

Lemma runLoop_step (fuel : nat) (l rest : string) (p : process) :
  healthy p = true ->
  unread p = l ++ newline ++ rest ->
  noneOf newline l = true ->
  runLoop (S fuel) p
  = (let '((command, err), message) :=
       nextSpaceDelimitedParameter {| line := l ++ newline |} in
     match err with
     | Some _ => ret (Returned (Some (errorString "failed to parse command")))
     | None =>
         bind (dispatch command message)
           (fun err => match err with
                       | Some e => ret (Returned (Some e))
                       | None => runLoop fuel
                       end)
     end) (taken (l ++ newline) rest p).
Proof.
  intros Hh Hu Hl. cbn [runLoop]. unfold bind at 1.
  now rewrite (getMsg_line l rest p Hh Hu Hl).
Qed.

Lemma runLoop_end (fuel : nat) (p : process) :
  unread p = "" -> runLoop (S fuel) p = (Val (Returned None), p).
Proof.
  intros Hu. cbn [runLoop]. unfold bind at 1. now rewrite (getMsg_end _ Hu).
Qed.

Lemma dispatch_simple (command answer : string) (message : messageParser)
    (p : process) :
  simpleAnswer command = Some answer ->
  healthy p = true ->
  dispatch command message p = (Val None, emit answer p).
Proof.
  unfold simpleAnswer. intros Ha Hh.
  assert (R : forall c, command = c ->
            (sendMsg answer ;; ret (None : error)) p = (Val None, emit answer p) ->
            dispatch c message = (sendMsg answer ;; ret (None : error)) ->
            dispatch command message p = (Val None, emit answer p)).
  { intros c -> E D. now rewrite D. }
  assert (E : (sendMsg answer ;; ret (None : error)) p = (Val None, emit answer p)).
  { unfold bind. now rewrite (sendMsg_emit _ _ Hh). }
  destruct (command =? "EXPORTSUPPORTED") eqn:E1.
  { apply String.eqb_eq in E1. injection Ha as <-.
    now apply (R _ E1 E). }
  destruct (command =? "GETCOST") eqn:E2.
  { apply String.eqb_eq in E2. injection Ha as <-.
    now apply (R _ E2 E). }
  destruct (command =? "GETAVAILABILITY") eqn:E3.
  { apply String.eqb_eq in E3. injection Ha as <-.
    now apply (R _ E3 E). }
  destruct (command =? "CLAIMURL") eqn:E4.
  { apply String.eqb_eq in E4. injection Ha as <-.
    now apply (R _ E4 E). }
  destruct (command =? "CHECKURL") eqn:E5.
  { apply String.eqb_eq in E5. injection Ha as <-.
    now apply (R _ E5 E). }
  destruct (command =? "WHEREIS") eqn:E6.
  { apply String.eqb_eq in E6. injection Ha as <-.
    now apply (R _ E6 E). }
  destruct (command =? "GETINFO") eqn:E7.
  { apply String.eqb_eq in E7. injection Ha as <-.
    now apply (R _ E7 E). }
  discriminate Ha.
Qed.

Lemma dispatch_unknown (command : string) (message : messageParser)
    (p : process) :
  Contains knownCommands command = false ->
  dispatch command message p
  = (Val (Some (errorString
       ("received unexpected message from git-annex: " ++ line message))),
     p).
Proof.
  unfold Contains, knownCommands. cbn [existsb]. intros H.
  repeat (apply orb_false_elim in H as [?E H]).
  unfold dispatch.
  repeat match goal with
    | E : (command =? _) = false |- _ => rewrite E; clear E
    end.
  reflexivity.
Qed.

Lemma length_app (a b : string) :
  String.length (a ++ b) = String.length a + String.length b.
Proof. induction a as [|c a IH]; cbn; [reflexivity | now rewrite IH]. Qed.

(** X20. A session of requests that need no state. Each line whose
    command is EXPORTSUPPORTED, GETCOST, GETAVAILABILITY, CLAIMURL,
    CHECKURL, WHEREIS or GETINFO, whatever follows the command on the
    line, is answered by the one line of that command, in the order of
    the requests; when the stream ends after them [run] returns no
    error. Nothing else is sent after the version line, everything is
    read, and the world is left as it is. *)
Theorem run_answers_queries (exchanged : list (string * string))
    (p : process) :
  healthy p = true ->
  Forall (fun la => noneOf newline (fst la) = true
                    /\ answerTo (fst la) = Some (snd la)) exchanged ->
  unread p = unlines (map fst exchanged) ->
  run p = (Val (Returned None), served exchanged (emit "VERSION 1" p))
  /\ sent (snd (run p))
     = (sent p ++ ("VERSION 1" ++ newline)%string
          :: map (fun la => (snd la ++ newline)%string) exchanged)%list
  /\ unread (snd (run p)) = ""
  /\ world (snd (run p)) = world p.
Proof.
  intros Hh Hall Hu.
  assert (L : forall (qs : list (string * string)) (fuel : nat) (q : process),
            healthy q = true ->
            Forall (fun la => noneOf newline (fst la) = true
                              /\ answerTo (fst la) = Some (snd la)) qs ->
            unread q = unlines (map fst qs) ->
            String.length (unread q) < fuel ->
            runLoop fuel q = (Val (Returned None), served qs q)
            /\ sent (served qs q)
               = (sent q ++ map (fun la => (snd la ++ newline)%string) qs)%list
            /\ unread (served qs q) = ""
            /\ world (served qs q) = world q).
  { induction qs as [|[l a] qs IH]; intros fuel q Hq Hf Huq Hlen.
    - destruct fuel as [|fuel]; [lia|]. cbn [served map].
      rewrite (runLoop_end _ _ Huq), app_nil_r. auto.
    - destruct fuel as [|fuel]; [lia|].
      inversion Hf as [|x xs [Hl Ha] Hrest]; subst. cbn [fst snd] in Hl, Ha.
      cbn [map fst unlines] in Huq.
      rewrite (runLoop_step fuel l _ q Hq Huq Hl).
      unfold answerTo, commandOf in Ha.
      destruct (nextSpaceDelimitedParameter {| line := l ++ newline |})
        as [[command [e|]] message]; [discriminate|].
      assert (Ht : healthy (taken (l ++ newline) (unlines (map fst qs)) q)
                   = true) by now rewrite healthy_taken.
      unfold bind. rewrite (dispatch_simple _ _ message _ Ha Ht).
      cbn [served].
      destruct (IH fuel
                  (emit a (taken (l ++ newline) (unlines (map fst qs)) q)))
        as (R1 & R2 & R3 & R4).
      + now rewrite healthy_emit.
      + exact Hrest.
      + now rewrite unread_emit, unread_taken.
      + rewrite unread_emit, unread_taken. rewrite Huq in Hlen.
        rewrite !length_app in Hlen. cbn in Hlen. lia.
      + rewrite R1, R2, R3, R4, sent_emit, sent_taken, world_emit,
          world_taken.
        cbn [map snd]. rewrite <- app_assoc. auto. }
  destruct (L exchanged
              (S (String.length (rbuf (reader (self (emit "VERSION 1" p))))))
              (emit "VERSION 1" p)) as (R1 & R2 & R3 & R4).
  - now rewrite healthy_emit.
  - exact Hall.
  - now rewrite unread_emit.
  - unfold unread. lia.
  - assert (E : run p
                = (Val (Returned None), served exchanged (emit "VERSION 1" p))).
    { unfold run. unfold bind at 1. rewrite (sendMsg_emit _ _ Hh).
      unfold bind at 1, getServer. exact R1. }
    rewrite E. cbn [snd].
    rewrite R2, R3, R4, sent_emit, world_emit, <- app_assoc. auto.
Qed.

(** X21. A line the loop of [run] cannot take a command from ends the
    loop with the error [failed to parse command], whatever the
    tokenizer reported; a blank line is such a line. An ERROR line ends
    the loop with an error that carries the rest of the line. In both
    cases the loop sends nothing, and what follows the line is left
    unread. *)
Theorem runLoop_rejects_line (fuel : nat) (l rest : string) (p : process) :
  healthy p = true ->
  unread p = l ++ newline ++ rest ->
  noneOf newline l = true ->
  (forall command e message,
      nextSpaceDelimitedParameter {| line := l ++ newline |}
      = ((command, Some e), message) ->
      runLoop (S fuel) p
      = (Val (Returned (Some (errorString "failed to parse command"))),
         taken (l ++ newline) rest p))
  /\ (allOf crlf l = true ->
      runLoop (S fuel) p
      = (Val (Returned (Some (errorString "failed to parse command"))),
         taken (l ++ newline) rest p))
  /\ (forall message text message',
      nextSpaceDelimitedParameter {| line := l ++ newline |}
      = (("ERROR", None), message) ->
      finalParameter message = (text, message') ->
      runLoop (S fuel) p
      = (Val (Returned (Some (errorString
           ("received error message from git-annex: " ++ text)))),
         taken (l ++ newline) rest p))
  /\ (forall text,
      TrimRight text crlf = text -> isEmpty text = false ->
      l = "ERROR" ++ " " ++ text ->
      runLoop (S fuel) p
      = (Val (Returned (Some (errorString
           ("received error message from git-annex: " ++ text)))),
         taken (l ++ newline) rest p)).
Proof.
  intros Hh Hu Hl.
  rewrite (runLoop_step fuel l rest p Hh Hu Hl).
  assert (A : forall command e message,
      nextSpaceDelimitedParameter {| line := l ++ newline |}
      = ((command, Some e), message) ->
      (let '((command, err), message) :=
         nextSpaceDelimitedParameter {| line := l ++ newline |} in
       match err with
       | Some _ => ret (Returned (Some (errorString "failed to parse command")))
       | None =>
           bind (dispatch command message)
             (fun err => match err with
                         | Some e => ret (Returned (Some e))
                         | None => runLoop fuel
                         end)
       end) (taken (l ++ newline) rest p)
      = (Val (Returned (Some (errorString "failed to parse command"))),
         taken (l ++ newline) rest p)).
  { intros command e message E. now rewrite E. }
  assert (B : forall message text message',
      nextSpaceDelimitedParameter {| line := l ++ newline |}
      = (("ERROR", None), message) ->
      finalParameter message = (text, message') ->
      (let '((command, err), message) :=
         nextSpaceDelimitedParameter {| line := l ++ newline |} in
       match err with
       | Some _ => ret (Returned (Some (errorString "failed to parse command")))
       | None =>
           bind (dispatch command message)
             (fun err => match err with
                         | Some e => ret (Returned (Some e))
                         | None => runLoop fuel
                         end)
       end) (taken (l ++ newline) rest p)
      = (Val (Returned (Some (errorString
           ("received error message from git-annex: " ++ text)))),
         taken (l ++ newline) rest p)).
  { intros message text message' E F. rewrite E.
    unfold bind, dispatch. cbn [String.eqb Ascii.eqb Bool.eqb].
    now rewrite F. }
  refine (conj A (conj _ (conj B _))).
  - intros Hb. exact (A _ _ _ (next_of_blank_line l Hb)).
  - intros text Ht Hne ->.
    apply (B {| line := text |} text {| line := "" |}).
    + rewrite <- Ht at 2.
      apply (next_of_longer_line "ERROR" text eq_refl). now rewrite Ht.
    + now apply finalParameter_trimmed.
Qed.

(** X22. A line whose command [run] has no case for ends the loop
    with an error, and nothing is sent. The text of the error carries
    what is left of the line after the command, not the command: for a
    line that is one unknown word the text ends after the colon. *)
Theorem runLoop_unexpected_command (fuel : nat) (l rest : string)
    (p : process) :
  healthy p = true ->
  unread p = l ++ newline ++ rest ->
  noneOf newline l = true ->
  (forall command message,
      nextSpaceDelimitedParameter {| line := l ++ newline |}
      = ((command, None), message) ->
      Contains knownCommands command = false ->
      runLoop (S fuel) p
      = (Val (Returned (Some (errorString
           ("received unexpected message from git-annex: "
              ++ line message)))),
         taken (l ++ newline) rest p))
  /\ (forall command t,
      isWord command = true -> allOf crlf t = true ->
      Contains knownCommands command = false ->
      l = command ++ t ->
      runLoop (S fuel) p
      = (Val (Returned (Some (errorString
           "received unexpected message from git-annex: "))),
         taken (l ++ newline) rest p))
  /\ (forall command more,
      isWord command = true -> isEmpty (TrimRight more crlf) = false ->
      Contains knownCommands command = false ->
      l = command ++ " " ++ more ->
      runLoop (S fuel) p
      = (Val (Returned (Some (errorString
           ("received unexpected message from git-annex: "
              ++ TrimRight more crlf)))),
         taken (l ++ newline) rest p)).
Proof.
  intros Hh Hu Hl.
  rewrite (runLoop_step fuel l rest p Hh Hu Hl).
  assert (A : forall command message,
      nextSpaceDelimitedParameter {| line := l ++ newline |}
      = ((command, None), message) ->
      Contains knownCommands command = false ->
      (let '((command, err), message) :=
         nextSpaceDelimitedParameter {| line := l ++ newline |} in
       match err with
       | Some _ => ret (Returned (Some (errorString "failed to parse command")))
       | None =>
           bind (dispatch command message)
             (fun err => match err with
                         | Some e => ret (Returned (Some e))
                         | None => runLoop fuel
                         end)
       end) (taken (l ++ newline) rest p)
      = (Val (Returned (Some (errorString
           ("received unexpected message from git-annex: "
              ++ line message)))),
         taken (l ++ newline) rest p)).
  { intros command message E Hc. rewrite E. unfold bind.
    now rewrite (dispatch_unknown _ _ _ Hc). }
  refine (conj A (conj _ _)).
  - intros command t Hw Ht Hc ->.
    exact (A command {| line := "" |} (next_of_word_line command t Hw Ht) Hc).
  - intros command more Hw Hm Hc ->.
    exact (A command {| line := TrimRight more crlf |}
             (next_of_longer_line command more Hw Hm) Hc).
Qed.

(** ** The command *)

Lemma sameStreams_runLoop (fuel : nat) (p : process) :
  sameStreams p (snd (runLoop fuel p)).
Proof.
  apply frame_runLoop with (Q := fun _ : string => True); streams_side.
Qed.

Lemma healthy_run (p : process) : healthy (snd (run p)) = healthy p.
Proof.
  unfold run. unfold bind at 1.
  pose proof (frame_sendMsg sameStreams (fun _ : string => True)
                sameStreams_refl sameStreams_trans
                (fun m _ => sameStreams_writeOut m) sameStreams_writeStderr
                "VERSION 1" I p) as S1.
  destruct (sendMsg "VERSION 1" p) as [[[]|v] p1]; cbn [snd] in *.
  - unfold bind, getServer.
    rewrite (sameStreams_healthy _ _ (sameStreams_runLoop _ p1)).
    now apply sameStreams_healthy.
  - now apply sameStreams_healthy.
Qed.

(** X23. The command reports the error of [run] before it gives up: an
    error that [run] returns is sent to git-annex as an ERROR line with
    the text of the error, after which the process panics with that
    error. When [run] returns no error nothing more is sent. So the
    command either ends without error or panics; it never ends for
    want of rounds in the loop. *)
Theorem commandRun_reports (p : process) :
  healthy p = true ->
  (forall e p1, run p = (Val (Returned (Some e)), p1) ->
     commandRun p = (Panic e, emit ("ERROR " ++ Error e) p1))
  /\ (forall p1, run p = (Val (Returned None), p1) ->
        commandRun p = (Val (Returned None), p1))
  /\ (forall v p1, run p = (Panic v, p1) -> commandRun p = (Panic v, p1))
  /\ (fst (commandRun p) = Val (Returned None)
      \/ exists v, fst (commandRun p) = Panic v).
Proof.
  intros Hh.
  pose proof (healthy_run p) as Hr. pose proof (run_returns p) as Hf.
  assert (A : forall e p1, run p = (Val (Returned (Some e)), p1) ->
     commandRun p = (Panic e, emit ("ERROR " ++ Error e) p1)).
  { intros e p1 E. rewrite E in Hr. cbn [snd] in Hr.
    unfold commandRun. unfold bind at 1. rewrite E. unfold bind.
    now rewrite (sendMsg_emit _ _ (eq_trans Hr Hh)). }
  assert (B : forall p1, run p = (Val (Returned None), p1) ->
        commandRun p = (Val (Returned None), p1)).
  { intros p1 E. unfold commandRun. unfold bind at 1. now rewrite E. }
  assert (C : forall v p1, run p = (Panic v, p1) ->
        commandRun p = (Panic v, p1)).
  { intros v p1 E. unfold commandRun. unfold bind at 1. now rewrite E. }
  refine (conj A (conj B (conj C _))).
  destruct (run p) as [[[[e|]|]|v] p1] eqn:E; cbn [fst] in Hf.
  - rewrite (A e p1 eq_refl). right. now exists e.
  - rewrite (B p1 eq_refl). now left.
  - now contradiction Hf.
  - rewrite (C v p1 eq_refl). right. now exists v.
Qed.


(** ** What holds of a session from some point on

    For a property [Inv] of the process and a reflexive and transitive
    [R]: when sending, receiving, the calls into the backends and the
    negotiation keep [Inv] and stay within [R] from where [Inv] holds,
    so does everything [run] does. *)

Section Guarded.

Variable Inv : process -> Prop.
Variable R : process -> process -> Prop.
Variable Q : string -> Prop.
Hypothesis R_refl : forall p, R p p.
Hypothesis R_trans : forall p q r, R p q -> R q r -> R p r.
Hypothesis G_sendMsg :
  forall msg, Q (msg ++ newline) -> guarded Inv R (sendMsg msg).
Hypothesis G_getMsg : guarded Inv R getMsg.
Hypothesis G_backend :
  forall A (f : World -> A * World), guarded Inv R (backend f).

Lemma guarded_ret {A} (a : A) : guarded Inv R (ret a).
Proof. intros p H. split; [exact H | apply R_refl]. Qed.

Lemma guarded_panic {A} (v : goerror) : guarded Inv R (@panic A v).
Proof. intros p H. split; [exact H | apply R_refl]. Qed.

Lemma guarded_getServer : guarded Inv R getServer.
Proof. intros p H. split; [exact H | apply R_refl]. Qed.

Lemma guarded_liftResult {A} (r : result A) : guarded Inv R (liftResult r).
Proof. intros p H. split; [exact H | apply R_refl]. Qed.

Lemma guarded_bind {A B} (m : M A) (f : A -> M B) :
  guarded Inv R m -> (forall a, guarded Inv R (f a)) ->
  guarded Inv R (bind m f).
Proof.
  intros Hm Hf p H. unfold bind. destruct (Hm p H) as [I1 R1].
  destruct (m p) as [[a|v] p1]; cbn [snd] in *; [|auto].
  destruct (Hf a p1 I1) as [I2 R2]. split; [exact I2|].
  exact (R_trans _ _ _ R1 R2).
Qed.

Ltac guarded_step :=
  match goal with
  | |- guarded _ _ (bind _ _) => apply guarded_bind; [|intro]
  | |- guarded _ _ (ret _) => apply guarded_ret
  | |- guarded _ _ (panic _) => apply guarded_panic
  | |- guarded _ _ getServer => apply guarded_getServer
  | |- guarded _ _ (liftResult _) => apply guarded_liftResult
  | |- guarded _ _ (backend _) => apply G_backend
  | |- guarded _ _ getMsg => apply G_getMsg
  | |- guarded _ _ (match ?x with _ => _ end) => destruct x
  end.

Lemma guarded_queryDirhash (msg : string) :
  Q (msg ++ newline) -> guarded Inv R (queryDirhash msg).
Proof.
  intros HQ. unfold queryDirhash.
  apply guarded_bind; [now apply G_sendMsg | intro].
  repeat guarded_step.
Qed.

Lemma guarded_runPlan (plan : fsStringPlan) :
  planAsks Q plan -> guarded Inv R (runPlan plan).
Proof.
  induction plan as [fsString err | msg next IH]; cbn [runPlan planAsks].
  - intros _. apply guarded_ret.
  - intros [HQ Hnext].
    apply guarded_bind; [now apply guarded_queryDirhash | intros [d e]].
    apply IH, Hnext.
Qed.

(** The negotiation, when every chunk may be sent and the updates of the
    config fields are within [R]. *)
Section Negotiation.

Hypothesis Q_all : forall chunk, Q chunk.
Hypothesis G_assign :
  forall d v, guarded Inv R (modifyServer (assign d v)).
Hypothesis G_done : guarded Inv R (modifyServer (set_configsDone true)).

Lemma guarded_queryNames (config : configDefinition)
    (configNames : list string) :
  guarded Inv R (queryNames config configNames).
Proof.
  induction configNames as [|configName rest IH]; cbn [queryNames].
  - apply guarded_ret.
  - repeat first
      [ exact IH | apply G_sendMsg; apply Q_all | apply G_assign
      | guarded_step ].
Qed.

Lemma guarded_queryEach (configs : list configDefinition) :
  guarded Inv R (queryEach configs).
Proof.
  induction configs as [|config rest IH]; cbn [queryEach].
  - apply guarded_ret.
  - unfold queryConfig, getCanonicalName.
    repeat first
      [ exact IH | apply guarded_queryNames | apply G_assign | guarded_step ].
Qed.

Lemma guarded_negotiation : guarded Inv R queryConfigs.
Proof.
  unfold queryConfigs.
  repeat first [ apply guarded_queryEach | exact G_done | guarded_step ].
Qed.

End Negotiation.

(** The handlers and the loop, when the negotiation is within [R]. *)
Hypothesis G_queryConfigs : guarded Inv R queryConfigs.
Hypothesis G_note :
  forall extension, guarded Inv R (modifyServer (noteExtension extension)).
Hypothesis Q_answers : forall chunk, isGetConfig chunk = false -> Q chunk.
Hypothesis Q_plan :
  forall layout key remoteName prefix,
    planAsks Q (buildFsString layout key remoteName prefix).

Ltac guarded_more :=
  first
    [ guarded_step
    | apply G_queryConfigs
    | apply G_sendMsg; apply Q_answers; reflexivity
    | apply guarded_runPlan; apply Q_plan ].

Lemma guarded_handlePrepare : guarded Inv R handlePrepare.
Proof. unfold handlePrepare. repeat guarded_more. Qed.

Lemma guarded_handleInitRemote : guarded Inv R handleInitRemote.
Proof. unfold handleInitRemote. repeat guarded_more. Qed.

Lemma guarded_handleTransfer (message : messageParser) :
  guarded Inv R (handleTransfer message).
Proof. unfold handleTransfer. repeat guarded_more. Qed.

Lemma guarded_handleCheckPresent (message : messageParser) :
  guarded Inv R (handleCheckPresent message).
Proof. unfold handleCheckPresent. repeat guarded_more. Qed.

Lemma guarded_handleRemove (message : messageParser) :
  guarded Inv R (handleRemove message).
Proof. unfold handleRemove. repeat guarded_more. Qed.

Lemma guarded_listEach (configs : list configDefinition) :
  guarded Inv R (listEach configs).
Proof.
  induction configs as [|config rest IH]; cbn [listEach].
  - apply guarded_ret.
  - unfold getCanonicalName. repeat first [ exact IH | guarded_more ].
Qed.

Lemma guarded_handleListConfigs : guarded Inv R handleListConfigs.
Proof.
  unfold handleListConfigs.
  repeat first [ apply guarded_listEach | guarded_more ].
Qed.

Lemma guarded_eachExtension (fuel : nat) (message : messageParser) :
  guarded Inv R (eachExtension fuel message).
Proof.
  revert message. induction fuel as [|fuel IH]; intros message;
    cbn [eachExtension].
  - apply guarded_ret.
  - repeat first [ apply IH | apply G_note | guarded_more ].
Qed.

Lemma guarded_handleExtensions (message : messageParser) :
  guarded Inv R (handleExtensions message).
Proof.
  unfold handleExtensions.
  repeat first [ apply guarded_eachExtension | guarded_more ].
Qed.

Lemma guarded_dispatch (command : string) (message : messageParser) :
  guarded Inv R (dispatch command message).
Proof.
  unfold dispatch.
  repeat first
    [ apply guarded_handleInitRemote | apply guarded_handlePrepare
    | apply guarded_handleTransfer | apply guarded_handleCheckPresent
    | apply guarded_handleRemove | apply guarded_handleExtensions
    | apply guarded_handleListConfigs | guarded_more ].
Qed.

Lemma guarded_runLoop (fuel : nat) : guarded Inv R (runLoop fuel).
Proof.
  induction fuel as [|fuel IH]; cbn [runLoop].
  - apply guarded_ret.
  - repeat first [ exact IH | apply guarded_dispatch | guarded_more ].
Qed.

Lemma guarded_run : guarded Inv R run.
Proof.
  unfold run. repeat first [ apply guarded_runLoop | guarded_more ].
Qed.

End Guarded.


(** *** Once the configs are resolved *)

Lemma settled_of_frames {A} (R : process -> process -> Prop) (m : M A) :
  preserves sameDone m -> preserves R m -> guarded settled R m.
Proof.
  intros D F p H. split; [|apply F].
  unfold settled. rewrite <- H. apply D.
Qed.

Lemma sameDone_backend A (f : World -> A * World) :
  preserves sameDone (backend f).
Proof. run_access; reflexivity. Qed.

Lemma sameDone_note (extension : string) :
  preserves sameDone (modifyServer (noteExtension extension)).
Proof.
  intros p. unfold sameDone, modifyServer. cbn [snd self].
  apply (noteExtension_frame extension (self p)).
Qed.

Lemma sameConfig_note (extension : string) :
  preserves sameConfig (modifyServer (noteExtension extension)).
Proof.
  intros p. unfold sameConfig, modifyServer. cbn [snd self].
  destruct (noteExtension_frame extension (self p))
    as (_ & _ & _ & H1 & H2 & H3 & H4). auto.
Qed.

Lemma sameDone_sendMsg (msg : string) : preserves sameDone (sendMsg msg).
Proof.
  apply (frame_sendMsg sameDone (fun _ : string => True)
           sameDone_refl sameDone_trans
           (fun m _ => sameDone_writeOut m) sameDone_writeStderr).
  exact I.
Qed.

Lemma sameDone_getMsg : preserves sameDone getMsg.
Proof.
  apply (frame_getMsg sameDone sameDone_refl sameDone_trans
           sameDone_writeStderr sameDone_readLine).
Qed.

Lemma settled_queryConfigs (R : process -> process -> Prop) :
  (forall p, R p p) -> guarded settled R queryConfigs.
Proof.
  intros R_refl p H. rewrite (queryConfigs_when_done p H).
  split; [exact H | apply R_refl].
Qed.

(** X24. From a point of the session where the configs are resolved,
    whatever git-annex sends: no command changes the remote name, the
    prefix, the layout or the flag, neither one command nor the loop
    over all that follow. And, provided the questions of
    [buildFsString] are not GETCONFIG queries, no GETCONFIG query is
    sent any more. *)
Theorem settled_session (fuel : nat) (p : process) :
  settled p ->
  sameConfig p (snd (runLoop fuel p))
  /\ (forall command message,
        sameConfig p (snd (dispatch command message p)))
  /\ ((forall layout key remoteName prefix,
          planAsks (fun chunk => isGetConfig chunk = false)
            (buildFsString layout key remoteName prefix)) ->
      sentOnly (fun chunk => isGetConfig chunk = false) p
        (snd (runLoop fuel p))).
Proof.
  intros H.
  assert (S1 : forall msg, guarded settled sameConfig (sendMsg msg)).
  { intros msg. apply settled_of_frames; intros q;
      [apply sameDone_sendMsg | apply sameConfig_sendMsg]. }
  assert (S2 : guarded settled sameConfig getMsg).
  { apply settled_of_frames; intros q;
      [apply sameDone_getMsg | apply sameConfig_getMsg]. }
  assert (S3 : forall A (f : World -> A * World),
             guarded settled sameConfig (backend f)).
  { intros A f. apply settled_of_frames;
      [apply sameDone_backend | apply sameConfig_backend]. }
  assert (S4 : forall extension,
             guarded settled sameConfig
               (modifyServer (noteExtension extension))).
  { intros extension. apply settled_of_frames;
      [apply sameDone_note | apply sameConfig_note]. }
  split; [|split].
  - apply (guarded_runLoop settled sameConfig (fun _ : string => True)
             sameConfig_refl sameConfig_trans (fun msg _ => S1 msg) S2 S3
             (settled_queryConfigs _ sameConfig_refl) S4
             (fun _ _ => I)
             (fun _ _ _ _ => planAsks_all _ _ (fun _ => I)) fuel p H).
  - intros command message.
    apply (guarded_dispatch settled sameConfig (fun _ : string => True)
             sameConfig_refl sameConfig_trans (fun msg _ => S1 msg) S2 S3
             (settled_queryConfigs _ sameConfig_refl) S4
             (fun _ _ => I)
             (fun _ _ _ _ => planAsks_all _ _ (fun _ => I))
             command message p H).
  - intros Hplan.
    apply (guarded_runLoop settled
             (sentOnly (fun chunk => isGetConfig chunk = false))
             (fun chunk => isGetConfig chunk = false)
             (sentOnly_refl _) (sentOnly_trans _)); try exact H.
    + intros msg HQ. apply settled_of_frames; [apply sameDone_sendMsg|].
      apply (frame_sendMsg (sentOnly (fun chunk => isGetConfig chunk = false))
               (fun chunk => isGetConfig chunk = false)
               (sentOnly_refl _) (sentOnly_trans _)
               (sentOnly_writeOut _) (sentOnly_writeStderr _)).
      exact HQ.
    + apply settled_of_frames; [apply sameDone_getMsg|].
      apply (frame_getMsg (sentOnly (fun chunk => isGetConfig chunk = false))
               (sentOnly_refl _) (sentOnly_trans _)
               (sentOnly_writeStderr _) (sentOnly_readLine _)).
    + intros A f. apply settled_of_frames;
        [apply sameDone_backend | apply sentOnly_backend].
    + apply settled_queryConfigs, sentOnly_refl.
    + intros extension. apply settled_of_frames;
        [apply sameDone_note | apply sentOnly_note].
    + auto.
    + exact Hplan.
Qed.


(** *** A server that is not verbose *)

Lemma quiet_sendMsg (msg : string) : guarded quiet sameStderr (sendMsg msg).
Proof.
  intros p H. open_process p. unfold quiet in *. cbn [self verbose] in H.
  subst verbose0.
  unfold sendMsg, bind, writeOut, WriteString, getServer, ret, panic,
    sameStderr.
  cbn [self writer]. destruct (werr writer0); cbn; auto.
Qed.

Lemma quiet_getMsg : guarded quiet sameStderr getMsg.
Proof.
  intros p H. open_process p. unfold quiet in *. cbn [self verbose] in H.
  subst verbose0.
  unfold getMsg, bind, readLine, ReadString, getServer, ret, sameStderr.
  cbn [self reader].
  destruct (throughDelim LF (rbuf reader0)) as [[l rest]|]; cbn; auto.
  destruct (isEmpty (rbuf reader0)); cbn; auto.
Qed.

Lemma quiet_backend A (f : World -> A * World) :
  guarded quiet sameStderr (backend f).
Proof.
  intros p H. unfold backend, quiet, sameStderr in *.
  destruct (f (world p)); cbn; auto.
Qed.

Lemma quiet_assign (d : configField) (v : string) :
  guarded quiet sameStderr (modifyServer (assign d v)).
Proof.
  intros p H. unfold quiet, sameStderr in *. destruct d; cbn; auto.
Qed.

Lemma quiet_done :
  guarded quiet sameStderr (modifyServer (set_configsDone true)).
Proof. intros p H. unfold quiet, sameStderr in *. cbn; auto. Qed.

Lemma quiet_note (extension : string) :
  guarded quiet sameStderr (modifyServer (noteExtension extension)).
Proof.
  intros p H. unfold quiet, sameStderr, modifyServer in *. cbn [snd self Stderr].
  destruct (noteExtension_frame extension (self p)) as (_ & _ & Hv & _).
  split; [congruence | reflexivity].
Qed.

(** X25. A server that is not verbose writes nothing to standard
    error, whatever it reads and however the session ends, and it does
    not become verbose. The server the command starts is not verbose,
    so its session leaves standard error empty. *)
Theorem quiet_session (fuel : nat) (p : process) :
  quiet p ->
  (Stderr (snd (runLoop fuel p)) = Stderr p
   /\ quiet (snd (runLoop fuel p)))
  /\ (Stderr (snd (run p)) = Stderr p /\ quiet (snd (run p)))
  /\ (forall input w,
        chunks (Stderr (snd (run (start input w)))) = []).
Proof.
  intros H.
  assert (E : forall q, sameStderr q q) by reflexivity.
  assert (T : forall q r s, sameStderr q r -> sameStderr r s ->
                sameStderr q s).
  { unfold sameStderr. intros q r s A B. congruence. }
  pose proof (guarded_negotiation quiet sameStderr (fun _ : string => True)
                E T (fun msg _ => quiet_sendMsg msg) quiet_getMsg
                (fun _ => I) quiet_assign quiet_done) as N.
  assert (L : forall n, guarded quiet sameStderr (runLoop n)).
  { intros n.
    apply (guarded_runLoop quiet sameStderr (fun _ : string => True)
             E T (fun msg _ => quiet_sendMsg msg) quiet_getMsg quiet_backend
             N quiet_note (fun _ _ => I)
             (fun _ _ _ _ => planAsks_all _ _ (fun _ => I))). }
  assert (U : guarded quiet sameStderr run).
  { apply (guarded_run quiet sameStderr (fun _ : string => True)
             E T (fun msg _ => quiet_sendMsg msg) quiet_getMsg quiet_backend
             N quiet_note (fun _ _ => I)
             (fun _ _ _ _ => planAsks_all _ _ (fun _ => I))). }
  split; [|split].
  - destruct (L fuel p H) as [A B]. split; [exact B | exact A].
  - destruct (U p H) as [A B]. split; [exact B | exact A].
  - intros input w. destruct (U (start input w) eq_refl) as [_ B].
    unfold sameStderr in B. now rewrite B.
Qed.

(** *** The extensions *)

Lemma extensionsKept_refl (p : process) : extensionsKept p p.
Proof. unfold extensionsKept. auto. Qed.

Lemma extensionsKept_trans (p q r : process) :
  extensionsKept p q -> extensionsKept q r -> extensionsKept p r.
Proof.
  unfold extensionsKept. intros (A1 & A2 & A3 & A4) (B1 & B2 & B3 & B4).
  repeat split; auto.
Qed.

Lemma sameExtensions_refl (p : process) : sameExtensions p p.
Proof. unfold sameExtensions. auto. Qed.

Lemma sameExtensions_trans (p q r : process) :
  sameExtensions p q -> sameExtensions q r -> sameExtensions p r.
Proof.
  unfold sameExtensions. intros (A1 & A2 & A3 & A4) (B1 & B2 & B3 & B4).
  repeat split; congruence.
Qed.

Lemma sameExtensions_kept (p q : process) :
  sameExtensions p q -> extensionsKept p q.
Proof.
  unfold sameExtensions, extensionsKept. intros (A1 & A2 & A3 & A4).
  repeat split; congruence.
Qed.

Lemma sameExtensions_writeOut (msg : string) :
  preserves sameExtensions (writeOut msg).
Proof. run_access; unfold sameExtensions; cbn; auto. Qed.

Lemma sameExtensions_writeStderr (msg : string) :
  preserves sameExtensions (writeStderr msg).
Proof. run_access; unfold sameExtensions; cbn; auto. Qed.

Lemma sameExtensions_readLine (delim : ascii) :
  preserves sameExtensions (readLine delim).
Proof. run_access; unfold sameExtensions; cbn; auto. Qed.

Lemma sameExtensions_backend A (f : World -> A * World) :
  preserves sameExtensions (backend f).
Proof. run_access; unfold sameExtensions; cbn; auto. Qed.

Lemma sameExtensions_assign (d : configField) (v : string) :
  preserves sameExtensions (modifyServer (assign d v)).
Proof. intros p. destruct d; unfold sameExtensions; cbn; auto. Qed.

Lemma sameExtensions_done :
  preserves sameExtensions (modifyServer (set_configsDone true)).
Proof. intros p. unfold sameExtensions; cbn; auto. Qed.

Lemma extensionsKept_note (extension : string) :
  preserves extensionsKept (modifyServer (noteExtension extension)).
Proof.
  intros p. unfold extensionsKept, noteExtension, modifyServer.
  cbn [snd self].
  repeat match goal with
    | |- context [if ?b then _ else _] => destruct b
    end; cbn; auto.
Qed.

Ltac extensions_side :=
  first
    [ exact sameExtensions_refl | exact sameExtensions_trans
    | exact sameExtensions_writeStderr | exact sameExtensions_readLine
    | exact sameExtensions_backend | exact sameExtensions_assign
    | exact sameExtensions_done
    | intros ? _; apply sameExtensions_writeOut
    | intros; apply planAsks_all; exact (fun _ => I)
    | exact (fun _ : string => I)
    | intros; exact I ].

(** X26. The notes on the protocol extensions only grow: whatever the
    loop reads, an extension that was noted stays noted. And no command
    but EXTENSIONS touches them: every other command leaves the four
    notes as they are. *)
Theorem extensions_only_grow (fuel : nat) (p : process) :
  extensionsKept p (snd (runLoop fuel p))
  /\ (forall command message,
        command <> "EXTENSIONS" ->
        sameExtensions p (snd (dispatch command message p))).
Proof.
  split.
  - apply (frame_runLoop extensionsKept (fun _ : string => True)
             extensionsKept_refl extensionsKept_trans
             (fun m _ q => sameExtensions_kept _ _ (sameExtensions_writeOut m q))
             (fun m q => sameExtensions_kept _ _ (sameExtensions_writeStderr m q))
             (fun d q => sameExtensions_kept _ _ (sameExtensions_readLine d q))
             (fun A f q => sameExtensions_kept _ _ (sameExtensions_backend A f q))
             (fun _ => I)
             (fun d v q => sameExtensions_kept _ _ (sameExtensions_assign d v q))
             (fun q => sameExtensions_kept _ _ (sameExtensions_done q))
             extensionsKept_note fuel p).
  - intros command message Hne. apply String.eqb_neq in Hne.
    revert p.
    change (preserves sameExtensions (dispatch command message)).
    unfold dispatch. rewrite Hne.
    repeat first
      [ apply frame_handleInitRemote with (Q := fun _ : string => True);
          extensions_side
      | apply frame_handlePrepare with (Q := fun _ : string => True);
          extensions_side
      | apply frame_handleTransfer with (Q := fun _ : string => True);
          extensions_side
      | apply frame_handleCheckPresent with (Q := fun _ : string => True);
          extensions_side
      | apply frame_handleRemove with (Q := fun _ : string => True);
          extensions_side
      | apply frame_handleListConfigs with (Q := fun _ : string => True);
          extensions_side
      | apply frame_sendMsg with (Q := fun _ : string => True);
          extensions_side
      | apply (preserves_bind sameExtensions sameExtensions_trans); [|intro]
      | apply (preserves_ret sameExtensions sameExtensions_refl)
      | match goal with
        | |- preserves _ (match ?x with _ => _ end) => destruct x
        end ].
Qed.


(** ** The arguments of the program *)

(** X27. [maybeTransformArgs] keeps the name of the program first and
    the arguments after it in their order. It inserts the subcommand
    between them exactly when there is a program name whose base name is
    the unique command name, and returns the arguments as they are
    otherwise. It does not look at what follows the name: applied to
    its own result it inserts the subcommand once more. *)
Theorem maybeTransformArgs_inserts (args : list string) :
  hd_error (maybeTransformArgs args) = hd_error args
  /\ (forall arg0 rest,
        args = arg0 :: rest -> filepathBase arg0 = uniqueCommandName ->
        maybeTransformArgs args = arg0 :: subcommandName :: rest
        /\ maybeTransformArgs (maybeTransformArgs args)
           = arg0 :: subcommandName :: subcommandName :: rest)
  /\ (forall arg0 rest,
        args = arg0 :: rest -> filepathBase arg0 <> uniqueCommandName ->
        maybeTransformArgs args = args)
  /\ (args = [] -> maybeTransformArgs args = [])
  /\ skipn (List.length (maybeTransformArgs args) - List.length (tl args))
       (maybeTransformArgs args) = tl args.
Proof.
  unfold maybeTransformArgs.
  refine (conj _ (conj _ (conj _ (conj _ _)))).
  - destruct args as [|arg0 rest]; [reflexivity|].
    destruct (filepathBase arg0 =? uniqueCommandName); reflexivity.
  - intros arg0 rest -> H. rewrite H.
    cbn [app hd_error]. rewrite String.eqb_refl. cbn [negb app].
    rewrite H, String.eqb_refl. split; reflexivity.
  - intros arg0 rest -> H. apply String.eqb_neq in H. now rewrite H.
  - intros ->. reflexivity.
  - destruct args as [|arg0 rest]; [reflexivity|].
    destruct (filepathBase arg0 =? uniqueCommandName);
      cbn [negb app tl List.length].
    + replace (S (S (List.length rest)) - List.length rest) with 2 by lia.
      reflexivity.
    + replace (S (List.length rest) - List.length rest) with 1 by lia.
      reflexivity.
Qed.

End GitAnnex.


(** ** The program in the small environment

    Each theorem above that has hypotheses is applied here to a concrete
    session of the program, run in the environment of [Demo]. *)

Arguments self {World} p.
Arguments Stderr {World} p.
Arguments world {World} p.
Arguments sent {World} p.
Arguments unread {World} p.
Arguments healthy {World} p.
Arguments start {World} input w.
Arguments withServer {World} f p.
Arguments inWorld {World} w p.

Local Abbreviation demoNext := (nextSpaceDelimitedParameter Demo.quote).
Local Abbreviation demoConfigs :=
  (getRequiredConfigs Demo.quote Demo.allLayoutModesText).
Local Abbreviation demoQueryConfig :=
  (queryConfig Demo.quote Demo.showConfigDefinition Demo.World).
Local Abbreviation demoQueryConfigs :=
  (queryConfigs Demo.quote Demo.showConfigDefinition Demo.allLayoutModesText
     Demo.World).
Local Abbreviation demoCheckPresent :=
  (handleCheckPresent Demo.quote Demo.showConfigDefinition Demo.layoutMode
     Demo.unknown Demo.layoutMode_eq_dec Demo.parseLayoutMode
     Demo.allLayoutModesText Demo.buildFsString Demo.World Demo.Fs
     Demo.Object Demo.cacheGet Demo.NewObject).
Local Abbreviation demoRemove :=
  (handleRemove Demo.quote Demo.layoutMode Demo.unknown
     Demo.layoutMode_eq_dec Demo.parseLayoutMode Demo.buildFsString
     Demo.World Demo.Fs Demo.Object Demo.cacheGet Demo.NewObject
     Demo.DeleteFile).
Local Abbreviation demoTransfer :=
  (handleTransfer Demo.quote Demo.showConfigDefinition Demo.layoutMode
     Demo.unknown Demo.layoutMode_eq_dec Demo.parseLayoutMode
     Demo.allLayoutModesText Demo.buildFsString Demo.World Demo.Fs
     Demo.cacheGet Demo.CopyFile Demo.filepathDir Demo.filepathBase).
Local Abbreviation demoRun :=
  (run Demo.quote Demo.showConfigDefinition Demo.layoutMode Demo.unknown
     Demo.layoutMode_eq_dec Demo.parseLayoutMode Demo.allLayoutModesText
     Demo.buildFsString Demo.World Demo.Fs Demo.Object Demo.cacheGet
     Demo.NewObject Demo.CopyFile Demo.DeleteFile Demo.GetRemoteNames
     Demo.fspathParse Demo.fsFind Demo.filepathDir Demo.filepathBase).
Local Abbreviation demoRunLoop :=
  (runLoop Demo.quote Demo.showConfigDefinition Demo.layoutMode Demo.unknown
     Demo.layoutMode_eq_dec Demo.parseLayoutMode Demo.allLayoutModesText
     Demo.buildFsString Demo.World Demo.Fs Demo.Object Demo.cacheGet
     Demo.NewObject Demo.CopyFile Demo.DeleteFile Demo.GetRemoteNames
     Demo.fspathParse Demo.fsFind Demo.filepathDir Demo.filepathBase).

(** The answers of a controller that sets the remote name (through its
    synonym, or not at all), and leaves prefix and layout to their
    defaults. *)
Local Abbreviation answersFor remote :=
  (unlines ["VALUE "; ("VALUE " ++ remote)%string; "VALUE "; "VALUE ";
            "VALUE "; "VALUE "]).
Local Abbreviation allQueries :=
  (map getConfigChunk
     ["rcloneremotename"; "target"; "rcloneprefix"; "prefix";
      "rclonelayout"; "rclone_layout"]).

(** C1, the sentence of the specification on three words: on [a b c] the
    third call does not report that nothing remains, it yields [c]. *)
Lemma tokenizer_third_call_yields_word :
  fst (demoNext {| line := "a b c" |}) = ("a", None)
  /\ fst (demoNext (snd (demoNext {| line := "a b c" |}))) = ("b", None)
  /\ fst (demoNext (snd (demoNext (snd (demoNext {| line := "a b c" |})))))
     = ("c", None)
  /\ fst (demoNext (snd (demoNext (snd (demoNext {| line := "a b c" |})))))
     <> ("", Some (errorString "nothing remains to parse")).
Proof. repeat split. discriminate. Qed.

(** The tokenizer on [a b c] and on [a b c d], each ended by a newline. *)
Lemma tokenizer_words_witness :
  ( demoNext {| line := "a b c" ++ newline |} = (("a", None), {| line := "b c" |})
    /\ demoNext {| line := "b c" |} = (("b", None), {| line := "c" |})
    /\ demoNext {| line := "c" |} = (("c", None), {| line := "" |})
    /\ demoNext {| line := "" |}
       = (("", Some (errorString "nothing remains to parse")), {| line := "" |}) )
  /\
  ( demoNext {| line := "a b c d" ++ newline |}
    = (("a", None), {| line := "b c d" |})
    /\ demoNext {| line := "b c d" |} = (("b", None), {| line := "c d" |})
    /\ finalParameter {| line := "c d" |} = ("c d", {| line := "" |}) ).
Proof.
  exact (tokenizer_words Demo.quote "a" "b" "c" "d" newline
           eq_refl eq_refl eq_refl eq_refl eq_refl).
Defined.

(** A first invocation that succeeds, and a second one after it. *)
Lemma queryConfigs_idempotent_witness :
  let first : process Demo.World := start (answersFor "remote:") [] in
  let p1 := snd (demoQueryConfigs first) in
  demoQueryConfigs first = (Val None, p1)
  /\ sent p1 = allQueries
  /\ configsDone (self p1) = true
  /\ demoQueryConfigs p1 = (Val None, p1).
Proof.
  cbv zeta.
  split; [vm_compute; reflexivity|].
  split; [vm_compute; reflexivity|].
  split; [vm_compute; reflexivity|].
  apply (proj2 (queryConfigs_idempotent Demo.quote Demo.showConfigDefinition
                  Demo.allLayoutModesText Demo.World
                  (start (answersFor "remote:") []))).
  vm_compute. reflexivity.
Defined.

(** Solves the hypotheses of a handler theorem on a concrete session, in
    their order: each is an equation that evaluation settles, or the
    difference of two unlike values. *)
Ltac by_running :=
  first [ discriminate
        | lazy; reflexivity
        | lazy; discriminate
        | lazy; intros ?; discriminate ].

(** CHECKPRESENT for a key that is stored, for one that is not, and on a
    remote whose lookups fail. *)
Lemma handleCheckPresent_outcomes_witness :
  let key := {| line := "k1" ++ newline |} in
  let stored : process Demo.World :=
    start (answersFor "remote:") [("remote:git-annex-rclone", "k1")] in
  let missing : process Demo.World := start (answersFor "remote:") [] in
  let failing : process Demo.World := start (answersFor "flaky:") [] in
  ( fst (demoCheckPresent key stored) = Val None
    /\ sent (snd (demoCheckPresent key stored))
       = (allQueries ++ [("CHECKPRESENT-SUCCESS k1" ++ newline)%string])%list )
  /\ ( fst (demoCheckPresent key missing) = Val None
       /\ sent (snd (demoCheckPresent key missing))
          = (allQueries ++ [("CHECKPRESENT-FAILURE k1" ++ newline)%string])%list )
  /\ ( fst (demoCheckPresent key failing)
       = Val (Some (errorString "connection reset"))
       /\ sent (snd (demoCheckPresent key failing))
          = (allQueries
               ++ [("CHECKPRESENT-UNKNOWN k1 error finding file" ++ newline)%string])%list ).
Proof.
  cbv zeta. split; [|split].
  - erewrite (handleCheckPresent_outcomes Demo.quote Demo.showConfigDefinition
                Demo.layoutMode Demo.unknown Demo.layoutMode_eq_dec
                Demo.parseLayoutMode Demo.allLayoutModesText
                Demo.buildFsString Demo.World Demo.Fs Demo.Object
                Demo.cacheGet Demo.NewObject);
      [ | by_running .. ].
    split; vm_compute; reflexivity.
  - erewrite (handleCheckPresent_outcomes Demo.quote Demo.showConfigDefinition
                Demo.layoutMode Demo.unknown Demo.layoutMode_eq_dec
                Demo.parseLayoutMode Demo.allLayoutModesText
                Demo.buildFsString Demo.World Demo.Fs Demo.Object
                Demo.cacheGet Demo.NewObject);
      [ | by_running .. ].
    split; vm_compute; reflexivity.
  - erewrite (handleCheckPresent_outcomes Demo.quote Demo.showConfigDefinition
                Demo.layoutMode Demo.unknown Demo.layoutMode_eq_dec
                Demo.parseLayoutMode Demo.allLayoutModesText
                Demo.buildFsString Demo.World Demo.Fs Demo.Object
                Demo.cacheGet Demo.NewObject);
      [ | by_running .. ].
    split; vm_compute; reflexivity.
Defined.

(** REMOVE, after the configs were resolved, for a key that is stored, for
    one that is not, and on a remote that refuses deletions. *)
Lemma handleRemove_outcomes_witness :
  let key := {| line := "k1" ++ newline |} in
  let stored : process Demo.World :=
    snd (demoQueryConfigs
           (start (answersFor "remote:") [("remote:git-annex-rclone", "k1")])) in
  let missing : process Demo.World :=
    snd (demoQueryConfigs (start (answersFor "remote:") [])) in
  let refusing : process Demo.World :=
    snd (demoQueryConfigs
           (start (answersFor "readonly:")
              [("readonly:git-annex-rclone", "k1")])) in
  ( fst (demoRemove key stored) = Val None
    /\ sent (snd (demoRemove key stored))
       = (allQueries ++ [("REMOVE-SUCCESS k1" ++ newline)%string])%list
    /\ world (snd (demoRemove key stored)) = [] )
  /\ ( fst (demoRemove key missing) = Val None
       /\ sent (snd (demoRemove key missing))
          = (allQueries ++ [("REMOVE-SUCCESS k1" ++ newline)%string])%list )
  /\ ( fst (demoRemove key refusing)
       = Val (Some (errorString ("error deleting file: " ++ Demo.quote "k1")))
       /\ sent (snd (demoRemove key refusing))
          = (allQueries
               ++ [("REMOVE-FAILURE k1 error deleting file" ++ newline)%string])%list
       /\ world (snd (demoRemove key refusing))
          = [("readonly:git-annex-rclone", "k1")] ).
Proof.
  intros key stored missing refusing.
  vm_compute in (value of stored). vm_compute in (value of missing).
  vm_compute in (value of refusing).
  split; [|split].
  - erewrite (handleRemove_outcomes Demo.quote Demo.layoutMode Demo.unknown
                Demo.layoutMode_eq_dec Demo.parseLayoutMode
                Demo.buildFsString Demo.World Demo.Fs Demo.Object
                Demo.cacheGet Demo.NewObject Demo.DeleteFile);
      [ | by_running .. ].
    repeat split; vm_compute; reflexivity.
  - erewrite (handleRemove_outcomes Demo.quote Demo.layoutMode Demo.unknown
                Demo.layoutMode_eq_dec Demo.parseLayoutMode
                Demo.buildFsString Demo.World Demo.Fs Demo.Object
                Demo.cacheGet Demo.NewObject Demo.DeleteFile);
      [ | by_running .. ].
    repeat split; vm_compute; reflexivity.
  - erewrite (handleRemove_outcomes Demo.quote Demo.layoutMode Demo.unknown
                Demo.layoutMode_eq_dec Demo.parseLayoutMode
                Demo.buildFsString Demo.World Demo.Fs Demo.Object
                Demo.cacheGet Demo.NewObject Demo.DeleteFile);
      [ | by_running .. ].
    repeat split; vm_compute; reflexivity.
Defined.

(** TRANSFER RETRIEVE of a key that is stored, of one that is not, and
    from a remote whose reads fail. *)
Lemma handleTransfer_retrieve_outcomes_witness :
  let retrieve := {| line := "RETRIEVE k1 /tmp/f" ++ newline |} in
  let stored : process Demo.World :=
    start (answersFor "remote:") [("remote:git-annex-rclone", "k1")] in
  let missing : process Demo.World := start (answersFor "remote:") [] in
  let failing : process Demo.World := start (answersFor "flaky:") [] in
  ( fst (demoTransfer retrieve stored) = Val None
    /\ sent (snd (demoTransfer retrieve stored))
       = (allQueries
            ++ [("TRANSFER-SUCCESS RETRIEVE k1" ++ newline)%string])%list
    /\ world (snd (demoTransfer retrieve stored))
       = [("/tmp", "f"); ("remote:git-annex-rclone", "k1")] )
  /\ ( fst (demoTransfer retrieve missing) = Val None
       /\ sent (snd (demoTransfer retrieve missing))
          = (allQueries
               ++ [("TRANSFER-FAILURE RETRIEVE k1 not found" ++ newline)%string])%list )
  /\ ( fst (demoTransfer retrieve failing)
       = Val (Some (errorString "connection reset"))
       /\ sent (snd (demoTransfer retrieve failing))
          = (allQueries
               ++ [("TRANSFER-FAILURE RETRIEVE k1 failed to copy file: connection reset"
                      ++ newline)%string])%list ).
Proof.
  cbv zeta. split; [|split].
  - erewrite (handleTransfer_retrieve_outcomes Demo.quote
                Demo.showConfigDefinition Demo.layoutMode Demo.unknown
                Demo.layoutMode_eq_dec Demo.parseLayoutMode
                Demo.allLayoutModesText Demo.buildFsString Demo.World Demo.Fs
                Demo.cacheGet Demo.CopyFile Demo.filepathDir
                Demo.filepathBase);
      [ | by_running .. ].
    repeat split; vm_compute; reflexivity.
  - erewrite (handleTransfer_retrieve_outcomes Demo.quote
                Demo.showConfigDefinition Demo.layoutMode Demo.unknown
                Demo.layoutMode_eq_dec Demo.parseLayoutMode
                Demo.allLayoutModesText Demo.buildFsString Demo.World Demo.Fs
                Demo.cacheGet Demo.CopyFile Demo.filepathDir
                Demo.filepathBase);
      [ | by_running .. ].
    repeat split; vm_compute; reflexivity.
  - erewrite (handleTransfer_retrieve_outcomes Demo.quote
                Demo.showConfigDefinition Demo.layoutMode Demo.unknown
                Demo.layoutMode_eq_dec Demo.parseLayoutMode
                Demo.allLayoutModesText Demo.buildFsString Demo.World Demo.Fs
                Demo.cacheGet Demo.CopyFile Demo.filepathDir
                Demo.filepathBase);
      [ | by_running .. ].
    repeat split; vm_compute; reflexivity.
Defined.

(** TRANSFER STORE when the configs cannot be resolved, when the layout
    the controller gives is not a layout, when the controller does not
    answer the directory-hash question with a VALUE line, and when the
    message has no file path. *)
Lemma handleTransfer_failure_lines_witness :
  let store := {| line := "STORE k1 /tmp/f" ++ newline |} in
  let noConfig : process Demo.World := start (unlines ["bogus"]) [] in
  let badLayout : process Demo.World :=
    start (unlines ["VALUE remote:"; "VALUE "; "VALUE "; "VALUE bogus"]) [] in
  let noDirhash : process Demo.World :=
    start (unlines ["VALUE remote:"; "VALUE "; "VALUE "; "VALUE hashed";
                    "bogus"]) [] in
  sent (snd (demoTransfer store noConfig))
  = [getConfigChunk "rcloneremotename";
     ("TRANSFER-FAILURE STORE k1 failed to get configs" ++ newline)%string]
  /\ ( fst (demoTransfer store badLayout)
       = Val (Some (errorString
           ("error parsing layout mode: " ++ Demo.quote "bogus")))
       /\ sent (snd (demoTransfer store badLayout))
          = (map getConfigChunk
               ["rcloneremotename"; "rcloneprefix"; "prefix"; "rclonelayout"]
               ++ [("TRANSFER-FAILURE k1" ++ newline)%string])%list )
  /\ sent (snd (demoTransfer store noDirhash))
     = (map getConfigChunk
          ["rcloneremotename"; "rcloneprefix"; "prefix"; "rclonelayout"]
          ++ [("DIRHASH-LOWER k1" ++ newline)%string;
              ("TRANSFER-FAILURE k1" ++ newline)%string])%list
  /\ sent (snd (demoTransfer {| line := "STORE k1" ++ newline |} noConfig))
     = [("TRANSFER-FAILURE failed to parse file path" ++ newline)%string].
Proof.
  intros store noConfig badLayout noDirhash.
  pose proof (fun p Hh =>
    proj2 (handleTransfer_failure_lines Demo.quote
      Demo.showConfigDefinition Demo.layoutMode Demo.unknown
      Demo.layoutMode_eq_dec Demo.parseLayoutMode
      Demo.allLayoutModesText Demo.buildFsString Demo.World Demo.Fs
      Demo.cacheGet Demo.CopyFile Demo.filepathDir
      Demo.filepathBase store {| line := "k1 /tmp/f" |}
      {| line := "/tmp/f" |} {| line := "" |} "STORE" "k1" "/tmp/f" p Hh
      eq_refl eq_refl eq_refl) ltac:(discriminate)) as T.
  split; [|split; [|split]].
  - destruct (T noConfig eq_refl) as (T1 & _ & _).
    erewrite T1; [|lazy; reflexivity].
    vm_compute. reflexivity.
  - destruct (T badLayout eq_refl) as (_ & T2 & _).
    erewrite T2; [|lazy; reflexivity..].
    split; vm_compute; reflexivity.
  - destruct (T noDirhash eq_refl) as (_ & _ & T3).
    erewrite T3; [|by_running..].
    vm_compute. reflexivity.
  - rewrite (proj1 (handleTransfer_failure_lines Demo.quote
      Demo.showConfigDefinition Demo.layoutMode Demo.unknown
      Demo.layoutMode_eq_dec Demo.parseLayoutMode
      Demo.allLayoutModesText Demo.buildFsString Demo.World Demo.Fs
      Demo.cacheGet Demo.CopyFile Demo.filepathDir
      Demo.filepathBase {| line := "STORE k1" ++ newline |}
      {| line := "k1" |} {| line := "" |} {| line := "" |}
      "STORE" "k1" "" noConfig eq_refl eq_refl eq_refl eq_refl) eq_refl).
    reflexivity.
Defined.

(** The command loop on a stream that is closed at once, and on one that
    is closed in the middle of a line. *)
Lemma run_at_end_of_stream_witness :
  let closed : process Demo.World := start "" [] in
  let cut : process Demo.World := start "GETAV" [] in
  demoRunLoop 1 closed = (Val (Returned None), closed)
  /\ ( fst (demoRun closed) = Val (Returned None)
       /\ sent (snd (demoRun closed)) = [("VERSION 1" ++ newline)%string] )
  /\ fst (demoRunLoop 1 cut)
     = Val (Returned (Some (wrapError
         ("error receiving message: expected message to end with newline: "
            ++ Demo.quote "GETAV")
         (errorString ("expected message to end with newline: "
                         ++ Demo.quote "GETAV")))))
  /\ fst (demoRun cut)
     = Val (Returned (Some (wrapError
         ("error receiving message: expected message to end with newline: "
            ++ Demo.quote "GETAV")
         (errorString ("expected message to end with newline: "
                         ++ Demo.quote "GETAV"))))).
Proof.
  intros closed cut.
  pose proof (run_at_end_of_stream Demo.quote Demo.showConfigDefinition
    Demo.layoutMode Demo.unknown Demo.layoutMode_eq_dec Demo.parseLayoutMode
    Demo.allLayoutModesText Demo.buildFsString Demo.World Demo.Fs Demo.Object
    Demo.cacheGet Demo.NewObject Demo.CopyFile Demo.DeleteFile
    Demo.GetRemoteNames Demo.fspathParse Demo.fsFind Demo.filepathDir
    Demo.filepathBase 0) as T.
  destruct (T closed) as (A & _ & C & _).
  destruct (T cut) as (_ & B & _ & D).
  split; [exact (A eq_refl)|].
  split; [rewrite (C eq_refl eq_refl); split; reflexivity|].
  split.
  - rewrite (B eq_refl eq_refl). reflexivity.
  - rewrite (D eq_refl eq_refl eq_refl). reflexivity.
Defined.

(** REMOVE on a session that resolved nothing, and on one whose layout
    asks for a directory hash; CHECKPRESENT on the first of them. *)
Lemma handleRemove_never_resolves_witness :
  let key := {| line := "k1" ++ newline |} in
  let fresh : process Demo.World := start (unlines ["VALUE remote:"]) [] in
  let hashing : process Demo.World :=
    withServer (set_configRcloneLayout "hashed")
      (start (unlines ["VALUE abc"]) [("/abc", "k1")]) in
  ( sameConfig Demo.World fresh (snd (demoRemove key fresh))
    /\ fst (demoRemove key fresh)
       = Val (Some (errorString
           ("error parsing layout mode: " ++ Demo.quote "")))
    /\ sent (snd (demoRemove key fresh))
       = [("REMOVE-FAILURE k1" ++ newline)%string]
    /\ unread (snd (demoRemove key fresh)) = unread fresh )
  /\ ( sentOnly Demo.World (fun chunk => isGetConfig chunk = false) hashing
         (snd (demoRemove key hashing))
       /\ sent (snd (demoRemove key hashing))
          = [("DIRHASH-LOWER k1" ++ newline)%string;
             ("REMOVE-SUCCESS k1" ++ newline)%string] )
  /\ sentFirst Demo.World (getConfigChunk "rcloneremotename") fresh
       (snd (demoCheckPresent key fresh)).
Proof.
  intros key fresh hashing.
  pose proof (fun p =>
    handleRemove_never_resolves Demo.quote Demo.showConfigDefinition
      Demo.layoutMode Demo.unknown Demo.layoutMode_eq_dec
      Demo.parseLayoutMode Demo.allLayoutModesText Demo.buildFsString
      Demo.World Demo.Fs Demo.Object Demo.cacheGet Demo.NewObject
      Demo.CopyFile Demo.DeleteFile Demo.GetRemoteNames Demo.fspathParse
      Demo.fsFind Demo.filepathDir Demo.filepathBase key p) as T.
  assert (Hplan : forall layout k remoteName prefix,
             planAsks (fun chunk => isGetConfig chunk = false)
               (Demo.buildFsString layout k remoteName prefix)).
  { intros [] k remoteName prefix; cbn; try exact I;
      (split; [reflexivity | intros d [e|]; exact I]). }
  split; [|split].
  - destruct (T fresh) as (A & _ & C & _).
    split; [exact A|].
    rewrite (C "k1" {| line := "" |} eq_refl eq_refl
               ltac:(discriminate) eq_refl).
    repeat split.
  - destruct (T hashing) as (_ & B & _).
    split; [exact (B Hplan) | vm_compute; reflexivity].
  - destruct (T fresh) as (_ & _ & _ & D).
    destruct (D eq_refl eq_refl) as (D1 & _).
    exact (D1 "k1" {| line := "" |} eq_refl ltac:(discriminate)).
Defined.

(** A negotiation that fails at the second definition, and the one that
    follows it. *)
Lemma configsDone_only_after_success_witness :
  let failing : process Demo.World :=
    start (unlines ["VALUE myremote"; "bogus"]) [] in
  configsDone (self failing) = false
  /\ fst (demoQueryConfigs failing)
     = Val (Some (errorString "failed to parse config value: bogus "))
  /\ configsDone (self (snd (demoQueryConfigs failing))) = false
  /\ configRcloneRemoteName (self (snd (demoQueryConfigs failing)))
     = "myremote"
  /\ sentFirst Demo.World (getConfigChunk "rcloneremotename")
       (snd (demoQueryConfigs failing))
       (snd (demoQueryConfigs (snd (demoQueryConfigs failing)))).
Proof.
  intros failing.
  destruct (configsDone_only_after_success Demo.quote
              Demo.showConfigDefinition Demo.allLayoutModesText Demo.World
              failing eq_refl) as (_ & B & C & _).
  split; [reflexivity|].
  split; [reflexivity|].
  split; [exact (B _ eq_refl)|].
  split; [reflexivity|].
  apply C; [reflexivity | discriminate].
Defined.

(** ** Further sessions in the small environment *)

Local Abbreviation demoExtensions := (handleExtensions Demo.quote Demo.World).
Local Abbreviation demoQueryDirhash := (queryDirhash Demo.quote Demo.World).
Local Abbreviation demoPrepare :=
  (handlePrepare Demo.quote Demo.showConfigDefinition Demo.allLayoutModesText
     Demo.World).
Local Abbreviation demoInitRemote :=
  (handleInitRemote Demo.quote Demo.showConfigDefinition
     Demo.allLayoutModesText Demo.World Demo.GetRemoteNames Demo.fspathParse
     Demo.fsFind).
Local Abbreviation demoListConfigs :=
  (handleListConfigs Demo.quote Demo.showConfigDefinition
     Demo.allLayoutModesText Demo.World).
Local Abbreviation demoCommandRun :=
  (commandRun Demo.quote Demo.showConfigDefinition Demo.layoutMode
     Demo.unknown Demo.layoutMode_eq_dec Demo.parseLayoutMode
     Demo.allLayoutModesText Demo.buildFsString Demo.World Demo.Fs
     Demo.Object Demo.cacheGet Demo.NewObject Demo.CopyFile Demo.DeleteFile
     Demo.GetRemoteNames Demo.fspathParse Demo.fsFind Demo.filepathDir
     Demo.filepathBase).
Local Abbreviation demoDispatch :=
  (dispatch Demo.quote Demo.showConfigDefinition Demo.layoutMode
     Demo.unknown Demo.layoutMode_eq_dec Demo.parseLayoutMode
     Demo.allLayoutModesText Demo.buildFsString Demo.World Demo.Fs
     Demo.Object Demo.cacheGet Demo.NewObject Demo.CopyFile Demo.DeleteFile
     Demo.GetRemoteNames Demo.fspathParse Demo.fsFind Demo.filepathDir
     Demo.filepathBase).

(** The first parameter of a TRANSFER line. *)
Lemma nextSpaceDelimitedParameter_success_witness :
  isEmpty "STORE" = false
  /\ noneOf " " "STORE" = true
  /\ String.length "k1 /tmp/f"
     < String.length ("STORE k1 /tmp/f" ++ newline)
  /\ (TrimRight ("STORE k1 /tmp/f" ++ newline) crlf
      = "STORE" ++ " " ++ "k1 /tmp/f"
      \/ (TrimRight ("STORE k1 /tmp/f" ++ newline) crlf = "STORE"
          /\ "k1 /tmp/f" = "")).
Proof.
  exact (nextSpaceDelimitedParameter_success Demo.quote
           {| line := "STORE k1 /tmp/f" ++ newline |}
           {| line := "k1 /tmp/f" |} "STORE" eq_refl).
Defined.

(** A line that starts with a space. *)
Lemma nextSpaceDelimitedParameter_failure_witness :
  demoNext {| line := " x" ++ newline |}
  = (("", Some (errorString
         ("found an empty space-delimited parameter in line: "
            ++ Demo.quote " x"))), {| line := " x" |})
  /\ " x" = TrimRight (" x" ++ newline) crlf.
Proof.
  split; [reflexivity|].
  exact (proj1 (proj2 (nextSpaceDelimitedParameter_failure Demo.quote
           {| line := " x" ++ newline |} {| line := " x" |} ""
           (errorString
              ("found an empty space-delimited parameter in line: "
                 ++ Demo.quote " x")) eq_refl))).
Defined.

(** EXTENSIONS with two extensions the server knows and one it does
    not. *)
Lemma handleExtensions_words_witness :
  let p : process Demo.World := start "" [] in
  let line := {| line := "INFO FUTURE ASYNC" ++ crlf |} in
  fst (demoExtensions line p) = Val None
  /\ sent (snd (demoExtensions line p)) = [("EXTENSIONS" ++ newline)%string]
  /\ extensionInfo (self (snd (demoExtensions line p))) = true
  /\ extensionAsync (self (snd (demoExtensions line p))) = true
  /\ extensionGetGitRemoteName (self (snd (demoExtensions line p))) = false
  /\ extensionUnavailableResponse (self (snd (demoExtensions line p)))
     = false.
Proof.
  intros p line.
  destruct (handleExtensions_words Demo.quote Demo.World
              ["INFO"; "FUTURE"; "ASYNC"] crlf p eq_refl eq_refl eq_refl)
    as [E _].
  change (demoExtensions line p) with
    (demoExtensions {| line := Join ["INFO"; "FUTURE"; "ASYNC"] " " ++ crlf |}
       p).
  rewrite E. repeat split.
Defined.

(** The controller hangs up while an answer is awaited. *)
Lemma awaited_answer_missing_witness :
  let p : process Demo.World := start "" [] in
  demoQueryDirhash "DIRHASH-LOWER k1" p
  = (Panic nilDereference, emit Demo.quote Demo.World "DIRHASH-LOWER k1" p)
  /\ fst (demoQueryConfigs p) = Panic nilDereference
  /\ sent (snd (demoQueryConfigs p)) = [getConfigChunk "rcloneremotename"].
Proof.
  intros p.
  destruct (awaited_answer_missing Demo.quote Demo.showConfigDefinition
              Demo.allLayoutModesText Demo.World p eq_refl eq_refl)
    as [A B].
  split; [exact (A _)|].
  rewrite (B eq_refl). split; reflexivity.
Defined.

(** The controller answers the first query with an ERROR line. *)
Lemma queryConfigs_rejects_answer_witness :
  let p : process Demo.World := start (unlines ["ERROR boom"; "GETCOST"]) [] in
  fst (demoQueryConfigs p)
  = Val (Some (errorString "failed to parse config value: ERROR boom"))
  /\ sent (snd (demoQueryConfigs p)) = [getConfigChunk "rcloneremotename"]
  /\ unread (snd (demoQueryConfigs p)) = unlines ["GETCOST"].
Proof.
  intros p.
  rewrite (queryConfigs_rejects_answer Demo.quote Demo.showConfigDefinition
             Demo.allLayoutModesText Demo.World "ERROR boom"
             (unlines ["GETCOST"]) "ERROR" None {| line := "boom" |} p
             eq_refl eq_refl eq_refl eq_refl eq_refl eq_refl).
  repeat split.
Defined.

(** A negotiation in which the controller sets only the remote name. *)
Lemma queryConfigs_success_fills_fields_witness :
  let p : process Demo.World := start (answersFor "remote:") [] in
  fst (demoQueryConfigs p) = Val None
  /\ configRcloneRemoteName (self (snd (demoQueryConfigs p))) = "remote:"
  /\ configPrefix (self (snd (demoQueryConfigs p))) = "git-annex-rclone"
  /\ configRcloneLayout (self (snd (demoQueryConfigs p))) = "nodir"
  /\ ( isEmpty (configRcloneRemoteName (self (snd (demoQueryConfigs p))))
       = false
       /\ isEmpty (configPrefix (self (snd (demoQueryConfigs p)))) = false
       /\ isEmpty (configRcloneLayout (self (snd (demoQueryConfigs p))))
          = false
       /\ configsDone (self (snd (demoQueryConfigs p))) = true ).
Proof.
  intros p.
  split; [vm_compute; reflexivity|].
  split; [vm_compute; reflexivity|].
  split; [vm_compute; reflexivity|].
  split; [vm_compute; reflexivity|].
  apply (queryConfigs_success_fills_fields Demo.quote
           Demo.showConfigDefinition Demo.allLayoutModesText Demo.World p);
    vm_compute; reflexivity.
Defined.

(** The answers to a directory-hash question: a hash, a hash and more, a
    line that is not a VALUE line, a VALUE line without a hash. *)
Lemma queryDirhash_outcomes_witness :
  let ask (answer : string) :=
    demoQueryDirhash "DIRHASH-LOWER k1"
      (start (unlines [answer; "GETCOST"]) ([] : Demo.World)) in
  fst (ask "VALUE abc") = Val ("abc", None)
  /\ fst (ask "VALUE abc def") = Val ("abc", None)
  /\ fst (ask "BOGUS")
     = Val ("", Some (errorString
         ("expected VALUE keyword, but got " ++ Demo.quote "BOGUS")))
  /\ fst (ask "VALUE")
     = Val ("", Some (wrapError
         "failed to parse dirhash: nothing remains to parse"
         (errorString "nothing remains to parse")))
  /\ unread (snd (ask "VALUE abc")) = unlines ["GETCOST"]
  /\ sent (snd (ask "VALUE abc")) = [("DIRHASH-LOWER k1" ++ newline)%string].
Proof.
  intros ask.
  pose proof (fun answer H =>
    queryDirhash_outcomes Demo.quote Demo.World "DIRHASH-LOWER k1" answer
      (unlines ["GETCOST"])
      (start (unlines [answer; "GETCOST"]) ([] : Demo.World))
      eq_refl eq_refl H) as T.
  destruct (T "VALUE abc" eq_refl) as (A & _).
  destruct (T "VALUE abc def" eq_refl) as (_ & B & _).
  destruct (T "BOGUS" eq_refl) as (_ & _ & C & _).
  destruct (T "VALUE" eq_refl) as (_ & _ & _ & D & _).
  unfold ask.
  rewrite (A "abc" "" eq_refl eq_refl eq_refl).
  rewrite (B "abc" "def" eq_refl eq_refl eq_refl).
  rewrite (C "BOGUS" "" eq_refl eq_refl ltac:(discriminate) eq_refl).
  rewrite (D "" eq_refl eq_refl).
  repeat split.
Defined.

(** TRANSFER without arguments, and with a mode alone. *)
Lemma handleTransfer_malformed_witness :
  let p : process Demo.World := start "" [] in
  fst (demoTransfer {| line := newline |} p)
  = Val (Some (wrapError
      "malformed arguments for TRANSFER: nothing remains to parse"
      (errorString "nothing remains to parse")))
  /\ sent (snd (demoTransfer {| line := "STORE" ++ newline |} p))
     = [("TRANSFER-FAILURE failed to parse key" ++ newline)%string].
Proof.
  intros p.
  pose proof (fun message =>
    handleTransfer_malformed Demo.quote Demo.showConfigDefinition
      Demo.layoutMode Demo.unknown Demo.layoutMode_eq_dec
      Demo.parseLayoutMode Demo.allLayoutModesText Demo.buildFsString
      Demo.World Demo.Fs Demo.cacheGet Demo.CopyFile Demo.filepathDir
      Demo.filepathBase message p eq_refl) as T.
  split.
  - destruct (T {| line := newline |}) as (_ & _ & C & _).
    exact (C newline eq_refl eq_refl).
  - destruct (T {| line := "STORE" ++ newline |}) as (_ & _ & _ & D).
    exact (D "STORE" newline eq_refl eq_refl eq_refl).
Defined.

(** TRANSFER STORE to a remote that is not configured, and from a
    directory that cannot be opened. *)
Lemma handleTransfer_fs_failures_witness :
  let noRemote : process Demo.World := start (answersFor "nowhere:") [] in
  let remote : process Demo.World := start (answersFor "remote:") [] in
  ( fst (demoTransfer {| line := "STORE k1 /tmp/f" ++ newline |} noRemote)
    = Val (Some (errorString "didn't find section in config file"))
    /\ sent (snd (demoTransfer {| line := "STORE k1 /tmp/f" ++ newline |}
                    noRemote))
       = (allQueries
            ++ [("TRANSFER-FAILURE STORE k1 failed to get remote fs"
                   ++ newline)%string])%list )
  /\ ( fst (demoTransfer {| line := "STORE k1 nowhere/f" ++ newline |} remote)
       = Val (Some (wrapError
           "failed to get local fs: didn't find section in config file"
           (errorString "didn't find section in config file")))
       /\ sent (snd (demoTransfer {| line := "STORE k1 nowhere/f" ++ newline |}
                       remote))
          = (allQueries
               ++ [("TRANSFER-FAILURE STORE k1 failed to get local fs"
                      ++ newline)%string])%list ).
Proof.
  intros noRemote remote. split.
  - edestruct (handleTransfer_fs_failures Demo.quote
                 Demo.showConfigDefinition Demo.layoutMode Demo.unknown
                 Demo.layoutMode_eq_dec Demo.parseLayoutMode
                 Demo.allLayoutModesText Demo.buildFsString Demo.World
                 Demo.Fs Demo.cacheGet Demo.CopyFile Demo.filepathDir
                 Demo.filepathBase
                 {| line := "STORE k1 /tmp/f" ++ newline |}
                 {| line := "k1 /tmp/f" |} {| line := "/tmp/f" |}
                 {| line := "" |} "STORE" "k1" "/tmp/f" noRemote)
      as [A _]; [by_running ..|].
    erewrite A; [|by_running].
    split; vm_compute; reflexivity.
  - edestruct (handleTransfer_fs_failures Demo.quote
                 Demo.showConfigDefinition Demo.layoutMode Demo.unknown
                 Demo.layoutMode_eq_dec Demo.parseLayoutMode
                 Demo.allLayoutModesText Demo.buildFsString Demo.World
                 Demo.Fs Demo.cacheGet Demo.CopyFile Demo.filepathDir
                 Demo.filepathBase
                 {| line := "STORE k1 nowhere/f" ++ newline |}
                 {| line := "k1 nowhere/f" |} {| line := "nowhere/f" |}
                 {| line := "" |} "STORE" "k1" "nowhere/f" remote)
      as [_ B]; [by_running ..|].
    erewrite B; [|by_running ..].
    split; vm_compute; reflexivity.
Defined.

(** TRANSFER STORE of a file that is there, and of one that is not. *)
Lemma handleTransfer_store_outcomes_witness :
  let store := {| line := "STORE k1 /tmp/f" ++ newline |} in
  let present : process Demo.World :=
    start (answersFor "remote:") [("/tmp", "f")] in
  let absent : process Demo.World := start (answersFor "remote:") [] in
  ( fst (demoTransfer store present) = Val None
    /\ sent (snd (demoTransfer store present))
       = (allQueries
            ++ [("TRANSFER-SUCCESS STORE k1" ++ newline)%string])%list
    /\ world (snd (demoTransfer store present))
       = [("remote:git-annex-rclone", "k1"); ("/tmp", "f")] )
  /\ ( fst (demoTransfer store absent) = Val (Some ErrorObjectNotFound)
       /\ sent (snd (demoTransfer store absent))
          = (allQueries
               ++ [("TRANSFER-FAILURE STORE k1 failed to copy file: "
                      ++ Error ErrorObjectNotFound ++ newline)%string])%list ).
Proof.
  cbv zeta. split.
  - erewrite (handleTransfer_store_outcomes Demo.quote
                Demo.showConfigDefinition Demo.layoutMode Demo.unknown
                Demo.layoutMode_eq_dec Demo.parseLayoutMode
                Demo.allLayoutModesText Demo.buildFsString Demo.World Demo.Fs
                Demo.cacheGet Demo.CopyFile Demo.filepathDir
                Demo.filepathBase);
      [ | by_running .. ].
    repeat split; vm_compute; reflexivity.
  - erewrite (handleTransfer_store_outcomes Demo.quote
                Demo.showConfigDefinition Demo.layoutMode Demo.unknown
                Demo.layoutMode_eq_dec Demo.parseLayoutMode
                Demo.allLayoutModesText Demo.buildFsString Demo.World Demo.Fs
                Demo.cacheGet Demo.CopyFile Demo.filepathDir
                Demo.filepathBase);
      [ | by_running .. ].
    repeat split; vm_compute; reflexivity.
Defined.

(** TRANSFER with a mode that is no mode. *)
Lemma handleTransfer_unrecognized_mode_witness :
  let fetch := {| line := "FETCH k1 /tmp/f" ++ newline |} in
  let p : process Demo.World :=
    start (answersFor "remote:") [("remote:git-annex-rclone", "k1")] in
  fst (demoTransfer fetch p)
  = Val (Some (errorString "received malformed TRANSFER mode: FETCH"))
  /\ sent (snd (demoTransfer fetch p))
     = (allQueries
          ++ [("TRANSFER-FAILURE FETCH k1 unrecognized mode"
                 ++ newline)%string])%list
  /\ world (snd (demoTransfer fetch p)) = [("remote:git-annex-rclone", "k1")].
Proof.
  cbv zeta.
  erewrite (handleTransfer_unrecognized_mode Demo.quote
              Demo.showConfigDefinition Demo.layoutMode Demo.unknown
              Demo.layoutMode_eq_dec Demo.parseLayoutMode
              Demo.allLayoutModesText Demo.buildFsString Demo.World Demo.Fs
              Demo.cacheGet Demo.CopyFile Demo.filepathDir
              Demo.filepathBase);
    [ | by_running .. ].
  repeat split; vm_compute; reflexivity.
Defined.

(** CHECKPRESENT without a key, with a controller that sets no remote
    name, and on a remote that is not configured. *)
Lemma handleCheckPresent_early_exits_witness :
  let key := {| line := "k1" ++ newline |} in
  let fresh : process Demo.World := start (answersFor "") [] in
  let noRemote : process Demo.World := start (answersFor "nowhere:") [] in
  demoCheckPresent {| line := newline |} fresh
  = (Val (Some (errorString "failed to parse response for CHECKPRESENT")),
     fresh)
  /\ ( fst (demoCheckPresent key fresh)
       = Val (Some (errorString
           ("error getting configs: did not receive a non-empty config value for "
              ++ Demo.quote "rcloneremotename")))
       /\ sent (snd (demoCheckPresent key fresh))
          = [getConfigChunk "rcloneremotename"; getConfigChunk "target";
             ("CHECKPRESENT-FAILURE k1 failed to get configs"
                ++ newline)%string] )
  /\ ( fst (demoCheckPresent key noRemote)
       = Val (Some (errorString "didn't find section in config file"))
       /\ sent (snd (demoCheckPresent key noRemote))
          = (allQueries
               ++ [("CHECKPRESENT-UNKNOWN k1 failed to get remote fs"
                      ++ newline)%string])%list ).
Proof.
  intros key fresh noRemote.
  pose proof (fun message key p Hh =>
    handleCheckPresent_early_exits Demo.quote Demo.showConfigDefinition
      Demo.layoutMode Demo.unknown Demo.layoutMode_eq_dec
      Demo.parseLayoutMode Demo.allLayoutModesText Demo.buildFsString
      Demo.World Demo.Fs Demo.Object Demo.cacheGet Demo.NewObject
      message {| line := "" |} key p Hh) as T.
  split; [|split].
  - exact (proj1 (T {| line := newline |} "" fresh eq_refl eq_refl) eq_refl).
  - destruct (proj2 (T key "k1" fresh eq_refl eq_refl) ltac:(discriminate))
      as (A & _).
    erewrite A; [|by_running].
    split; vm_compute; reflexivity.
  - destruct (proj2 (T key "k1" noRemote eq_refl eq_refl)
                ltac:(discriminate))
      as (_ & _ & _ & D).
    erewrite D; [|by_running ..].
    split; vm_compute; reflexivity.
Defined.

(** REMOVE without a key, on a remote that is not configured, and with a
    controller that does not answer the directory-hash question. *)
Lemma handleRemove_early_exits_witness :
  let key := {| line := "k1" ++ newline |} in
  let noRemote : process Demo.World :=
    snd (demoQueryConfigs (start (answersFor "nowhere:") [])) in
  let hashing : process Demo.World :=
    withServer (set_configRcloneLayout "hashed")
      (start (unlines ["bogus"]) []) in
  demoRemove {| line := newline |} noRemote
  = (Val (Some (errorString "failed to parse key for REMOVE")), noRemote)
  /\ ( fst (demoRemove key noRemote)
       = Val (Some (wrapError
           "error getting remote fs: didn't find section in config file"
           (errorString "didn't find section in config file")))
       /\ sent (snd (demoRemove key noRemote))
          = (allQueries ++ [("REMOVE-FAILURE k1" ++ newline)%string])%list )
  /\ sent (snd (demoRemove key hashing))
     = [("DIRHASH-LOWER k1" ++ newline)%string;
        ("REMOVE-FAILURE k1" ++ newline)%string].
Proof.
  intros key noRemote hashing.
  vm_compute in (value of noRemote). vm_compute in (value of hashing).
  pose proof (fun message key p Hh =>
    handleRemove_early_exits Demo.quote Demo.layoutMode Demo.unknown
      Demo.layoutMode_eq_dec Demo.parseLayoutMode Demo.buildFsString
      Demo.World Demo.Fs Demo.Object Demo.cacheGet Demo.NewObject
      Demo.DeleteFile message {| line := "" |} key p Hh) as T.
  split; [|split].
  - exact (proj1 (T {| line := newline |} "" noRemote eq_refl eq_refl)
             eq_refl).
  - destruct (proj2 (T key "k1" noRemote eq_refl eq_refl)
                ltac:(discriminate) ltac:(by_running)) as (_ & B).
    erewrite B; [|by_running ..].
    split; vm_compute; reflexivity.
  - destruct (proj2 (T key "k1" hashing eq_refl eq_refl)
                ltac:(discriminate) ltac:(by_running)) as (A & _).
    erewrite A; [|by_running].
    vm_compute. reflexivity.
Defined.

(** PREPARE with a controller that sets the remote name, PREPARE again,
    and PREPARE with a controller that sets none. *)
Lemma handlePrepare_outcomes_witness :
  let ok : process Demo.World := start (answersFor "remote:") [] in
  let fresh : process Demo.World := start (answersFor "") [] in
  ( fst (demoPrepare ok) = Val None
    /\ sent (snd (demoPrepare ok))
       = (allQueries ++ [("PREPARE-SUCCESS" ++ newline)%string])%list
    /\ sent (snd (demoPrepare (snd (demoPrepare ok))))
       = (allQueries ++ [("PREPARE-SUCCESS" ++ newline)%string;
                         ("PREPARE-SUCCESS" ++ newline)%string])%list )
  /\ ( fst (demoPrepare fresh)
       = Val (Some (wrapError
           ("error getting configs: did not receive a non-empty config value for "
              ++ Demo.quote "rcloneremotename")
           (errorString
              ("did not receive a non-empty config value for "
                 ++ Demo.quote "rcloneremotename"))))
       /\ sent (snd (demoPrepare fresh))
          = [getConfigChunk "rcloneremotename"; getConfigChunk "target";
             ("PREPARE-FAILURE Error getting configs" ++ newline)%string]
       /\ configsDone (self (snd (demoPrepare fresh))) = false ).
Proof.
  intros ok fresh.
  pose proof (fun p Hh =>
    handlePrepare_outcomes Demo.quote Demo.showConfigDefinition
      Demo.allLayoutModesText Demo.World p Hh) as T.
  split.
  - destruct (T ok eq_refl) as (A & _).
    erewrite A; [|by_running]. cbn [fst snd].
    split; [reflexivity|]. split; [vm_compute; reflexivity|].
    match goal with
    | |- context [demoPrepare ?q] =>
        destruct (T q ltac:(vm_compute; reflexivity)) as (_ & _ & _ & D & _);
        rewrite (D ltac:(vm_compute; reflexivity))
    end.
    vm_compute. reflexivity.
  - destruct (T fresh eq_refl) as (_ & B & _).
    erewrite B; [|by_running].
    repeat split; vm_compute; reflexivity.
Defined.

(** INITREMOTE for a remote that is configured, for a backend string, for
    a name that is neither, and with a controller that sets no name. *)
Lemma handleInitRemote_outcomes_witness :
  let session (remote : string) : process Demo.World :=
    start (answersFor remote) [] in
  ( fst (demoInitRemote (session "remote:")) = Val None
    /\ sent (snd (demoInitRemote (session "remote:")))
       = (allQueries ++ [("INITREMOTE-SUCCESS" ++ newline)%string])%list )
  /\ ( fst (demoInitRemote (session ":local:")) = Val None
       /\ sent (snd (demoInitRemote (session ":local:")))
          = (allQueries ++ [("INITREMOTE-SUCCESS" ++ newline)%string])%list )
  /\ ( fst (demoInitRemote (session "bogus:"))
       = Val (Some (errorString "remote does not exist: bogus:"))
       /\ sent (snd (demoInitRemote (session "bogus:")))
          = (allQueries
               ++ [("INITREMOTE-FAILURE remote does not exist: bogus:"
                      ++ newline)%string])%list )
  /\ ( fst (demoInitRemote (session ""))
       = Val (Some (wrapError
           ("failed to get configs: did not receive a non-empty config value for "
              ++ Demo.quote "rcloneremotename")
           (errorString
              ("did not receive a non-empty config value for "
                 ++ Demo.quote "rcloneremotename"))))
       /\ sent (snd (demoInitRemote (session "")))
          = [getConfigChunk "rcloneremotename"; getConfigChunk "target"] ).
Proof.
  intros session.
  pose proof (fun remote =>
    handleInitRemote_outcomes Demo.quote Demo.showConfigDefinition
      Demo.allLayoutModesText Demo.World Demo.GetRemoteNames
      Demo.fspathParse Demo.fsFind (session remote)
      (snd (demoQueryConfigs (session remote))) eq_refl) as T.
  split; [|split; [|split]].
  - destruct (proj2 (T "remote:") ltac:(vm_compute; reflexivity)) as (A & _).
    rewrite (A ltac:(vm_compute; reflexivity)).
    split; vm_compute; reflexivity.
  - destruct (proj2 (T ":local:") ltac:(vm_compute; reflexivity))
      as (_ & B).
    destruct (B ltac:(vm_compute; reflexivity)) as (_ & B2).
    erewrite (B2 ltac:(vm_compute; reflexivity)); [|by_running].
    split; vm_compute; reflexivity.
  - destruct (proj2 (T "bogus:") ltac:(vm_compute; reflexivity))
      as (_ & B).
    destruct (B ltac:(vm_compute; reflexivity)) as (B1 & _).
    rewrite (B1 ltac:(vm_compute; reflexivity)).
    split; vm_compute; reflexivity.
  - erewrite (proj1 (T "")); [|by_running].
    split; vm_compute; reflexivity.
Defined.

(** LISTCONFIGS at the start of a session. *)
Lemma handleListConfigs_lines_witness :
  let p : process Demo.World := start "" [] in
  fst (demoListConfigs p) = Val tt
  /\ List.length (sent (snd (demoListConfigs p))) = 4
  /\ nth 0 (sent (snd (demoListConfigs p))) ""
     = "CONFIG rcloneremotename (synonyms: target) Name of the rclone remote to use. Must match a remote known to rclone. (Note that rclone remotes are a distinct concept from git-annex remotes.)"
         ++ newline
  /\ nth 3 (sent (snd (demoListConfigs p))) "" = "CONFIGEND" ++ newline.
Proof.
  intros p.
  destruct (handleListConfigs_lines Demo.quote Demo.showConfigDefinition
              Demo.allLayoutModesText Demo.World p eq_refl) as (E & _).
  rewrite E. repeat split.
Defined.

(** A session of four requests that need no state. *)
Lemma run_answers_queries_witness :
  let exchanged :=
    [("GETCOST", "COST 200"); ("GETINFO remote", "UNSUPPORTED-REQUEST");
     ("EXPORTSUPPORTED", "EXPORTSUPPORTED-FAILURE");
     ("GETAVAILABILITY", "AVAILABILITY GLOBAL")] in
  let p : process Demo.World := start (unlines (map fst exchanged)) [] in
  fst (demoRun p) = Val (Returned None)
  /\ sent (snd (demoRun p))
     = map (fun l => (l ++ newline)%string)
         ["VERSION 1"; "COST 200"; "UNSUPPORTED-REQUEST";
          "EXPORTSUPPORTED-FAILURE"; "AVAILABILITY GLOBAL"]
  /\ unread (snd (demoRun p)) = "".
Proof.
  intros exchanged p.
  destruct (run_answers_queries Demo.quote Demo.showConfigDefinition
              Demo.layoutMode Demo.unknown Demo.layoutMode_eq_dec
              Demo.parseLayoutMode Demo.allLayoutModesText
              Demo.buildFsString Demo.World Demo.Fs Demo.Object
              Demo.cacheGet Demo.NewObject Demo.CopyFile Demo.DeleteFile
              Demo.GetRemoteNames Demo.fspathParse Demo.fsFind
              Demo.filepathDir Demo.filepathBase exchanged p eq_refl)
    as (E & S & U & _).
  - repeat constructor.
  - reflexivity.
  - rewrite E in *. cbn [fst]. split; [reflexivity|].
    split; [exact S | exact U].
Defined.

(** A blank line, and an ERROR line, each followed by a request that is
    not read any more. *)
Lemma runLoop_rejects_line_witness :
  let blank : process Demo.World := start (unlines [""; "GETCOST"]) [] in
  let failed : process Demo.World :=
    start (unlines ["ERROR out of space"; "GETCOST"]) [] in
  ( fst (demoRunLoop 3 blank)
    = Val (Returned (Some (errorString "failed to parse command")))
    /\ sent (snd (demoRunLoop 3 blank)) = []
    /\ unread (snd (demoRunLoop 3 blank)) = unlines ["GETCOST"] )
  /\ ( fst (demoRunLoop 3 failed)
       = Val (Returned (Some (errorString
           "received error message from git-annex: out of space")))
       /\ sent (snd (demoRunLoop 3 failed)) = []
       /\ unread (snd (demoRunLoop 3 failed)) = unlines ["GETCOST"] ).
Proof.
  intros blank failed.
  pose proof (fun l p Hh Hu =>
    runLoop_rejects_line Demo.quote Demo.showConfigDefinition
      Demo.layoutMode Demo.unknown Demo.layoutMode_eq_dec
      Demo.parseLayoutMode Demo.allLayoutModesText Demo.buildFsString
      Demo.World Demo.Fs Demo.Object Demo.cacheGet Demo.NewObject
      Demo.CopyFile Demo.DeleteFile Demo.GetRemoteNames Demo.fspathParse
      Demo.fsFind Demo.filepathDir Demo.filepathBase 2 l
      (unlines ["GETCOST"]) p Hh Hu) as T.
  split.
  - destruct (T "" blank eq_refl eq_refl eq_refl) as (_ & B & _).
    rewrite (B eq_refl). repeat split.
  - destruct (T "ERROR out of space" failed eq_refl eq_refl eq_refl)
      as (_ & _ & _ & D).
    rewrite (D "out of space" eq_refl eq_refl eq_refl). repeat split.
Defined.

(** A command the server has no case for, with and without more on the
    line. *)
Lemma runLoop_unexpected_command_witness :
  let long : process Demo.World := start (unlines ["FOO bar baz"; "GETCOST"]) [] in
  let short : process Demo.World := start (unlines ["FOO"; "GETCOST"]) [] in
  ( fst (demoRunLoop 3 long)
    = Val (Returned (Some (errorString
        "received unexpected message from git-annex: bar baz")))
    /\ sent (snd (demoRunLoop 3 long)) = [] )
  /\ ( fst (demoRunLoop 3 short)
       = Val (Returned (Some (errorString
           "received unexpected message from git-annex: ")))
       /\ unread (snd (demoRunLoop 3 short)) = unlines ["GETCOST"] ).
Proof.
  intros long short.
  pose proof (fun l p Hh Hu =>
    runLoop_unexpected_command Demo.quote Demo.showConfigDefinition
      Demo.layoutMode Demo.unknown Demo.layoutMode_eq_dec
      Demo.parseLayoutMode Demo.allLayoutModesText Demo.buildFsString
      Demo.World Demo.Fs Demo.Object Demo.cacheGet Demo.NewObject
      Demo.CopyFile Demo.DeleteFile Demo.GetRemoteNames Demo.fspathParse
      Demo.fsFind Demo.filepathDir Demo.filepathBase 2 l
      (unlines ["GETCOST"]) p Hh Hu) as T.
  split.
  - destruct (T "FOO bar baz" long eq_refl eq_refl eq_refl) as (_ & _ & C).
    rewrite (C "FOO" "bar baz" eq_refl eq_refl eq_refl eq_refl).
    repeat split.
  - destruct (T "FOO" short eq_refl eq_refl eq_refl) as (_ & B & _).
    rewrite (B "FOO" "" eq_refl eq_refl eq_refl eq_refl).
    repeat split.
Defined.

(** The command on a session that ends well, and on one that does not. *)
Lemma commandRun_reports_witness :
  let fine : process Demo.World := start (unlines ["GETCOST"]) [] in
  let odd : process Demo.World := start (unlines ["GETCOST"; "FOO bar"]) [] in
  ( fst (demoCommandRun fine) = Val (Returned None)
    /\ sent (snd (demoCommandRun fine))
       = [("VERSION 1" ++ newline)%string; ("COST 200" ++ newline)%string] )
  /\ ( fst (demoCommandRun odd)
       = Panic (errorString "received unexpected message from git-annex: bar")
       /\ sent (snd (demoCommandRun odd))
          = [("VERSION 1" ++ newline)%string; ("COST 200" ++ newline)%string;
             ("ERROR received unexpected message from git-annex: bar"
                ++ newline)%string] ).
Proof.
  intros fine odd.
  pose proof (fun p Hh =>
    commandRun_reports Demo.quote Demo.showConfigDefinition
      Demo.layoutMode Demo.unknown Demo.layoutMode_eq_dec
      Demo.parseLayoutMode Demo.allLayoutModesText Demo.buildFsString
      Demo.World Demo.Fs Demo.Object Demo.cacheGet Demo.NewObject
      Demo.CopyFile Demo.DeleteFile Demo.GetRemoteNames Demo.fspathParse
      Demo.fsFind Demo.filepathDir Demo.filepathBase p Hh) as T.
  split.
  - destruct (T fine eq_refl) as (_ & B & _).
    erewrite B; [|by_running].
    split; vm_compute; reflexivity.
  - destruct (T odd eq_refl) as (A & _).
    erewrite A; [|by_running].
    split; vm_compute; reflexivity.
Defined.

(** A session after its configs were resolved: PREPARE, CHECKPRESENT,
    EXTENSIONS and REMOVE. *)
Lemma settled_session_witness :
  let p : process Demo.World :=
    snd (demoQueryConfigs
           (start (answersFor "remote:"
                     ++ unlines ["PREPARE"; "CHECKPRESENT k1";
                                 "EXTENSIONS INFO"; "REMOVE k1"])
              [("remote:git-annex-rclone", "k1")])) in
  configsDone (self p) = true
  /\ fst (demoRunLoop 9 p) = Val (Returned None)
  /\ sameConfig Demo.World p (snd (demoRunLoop 9 p))
  /\ sentOnly Demo.World (fun chunk => isGetConfig chunk = false) p
       (snd (demoRunLoop 9 p))
  /\ sent (snd (demoRunLoop 9 p))
     = (allQueries
          ++ map (fun l => (l ++ newline)%string)
               ["PREPARE-SUCCESS"; "CHECKPRESENT-SUCCESS k1"; "EXTENSIONS";
                "REMOVE-SUCCESS k1"])%list.
Proof.
  intros p. vm_compute in (value of p).
  destruct (settled_session Demo.quote Demo.showConfigDefinition
              Demo.layoutMode Demo.unknown Demo.layoutMode_eq_dec
              Demo.parseLayoutMode Demo.allLayoutModesText
              Demo.buildFsString Demo.World Demo.Fs Demo.Object
              Demo.cacheGet Demo.NewObject Demo.CopyFile Demo.DeleteFile
              Demo.GetRemoteNames Demo.fspathParse Demo.fsFind
              Demo.filepathDir Demo.filepathBase 9 p eq_refl)
    as (A & _ & C).
  assert (Hplan : forall layout k remoteName prefix,
             planAsks (fun chunk => isGetConfig chunk = false)
               (Demo.buildFsString layout k remoteName prefix)).
  { intros [] k remoteName prefix; cbn; try exact I;
      (split; [reflexivity | intros d [e|]; exact I]). }
  split; [reflexivity|].
  split; [vm_compute; reflexivity|].
  split; [exact A|].
  split; [exact (C Hplan) | vm_compute; reflexivity].
Defined.

(** The session of the server the command starts. *)
Lemma quiet_session_witness :
  let p : process Demo.World :=
    start (unlines ["PREPARE"] ++ answersFor "remote:"
             ++ unlines ["GETCOST"; "FOO"]) [] in
  verbose (self p) = false
  /\ Stderr (snd (demoRun p)) = Stderr p
  /\ chunks (Stderr (snd (demoRun p))) = []
  /\ List.length (sent (snd (demoRun p))) = 9.
Proof.
  intros p.
  destruct (quiet_session Demo.quote Demo.showConfigDefinition
              Demo.layoutMode Demo.unknown Demo.layoutMode_eq_dec
              Demo.parseLayoutMode Demo.allLayoutModesText
              Demo.buildFsString Demo.World Demo.Fs Demo.Object
              Demo.cacheGet Demo.NewObject Demo.CopyFile Demo.DeleteFile
              Demo.GetRemoteNames Demo.fspathParse Demo.fsFind
              Demo.filepathDir Demo.filepathBase 0 p eq_refl)
    as (_ & (B & _) & C).
  split; [reflexivity|]. split; [exact B|].
  split; [exact (C _ _) | vm_compute; reflexivity].
Defined.

